(** * cookthecoin: the instruction builder of @discosea/kitchen

    A shallow embedding of [src/instructionBuilder.js] and [src/constants.js]
    and the proofs of the properties stated about them.

    JavaScript values live in a store of objects and arrays, so that the
    in-place sort and the field assignment of [validateCookedData] are seen
    by every alias of the caller's object.  Bytes are integers in [0, 256),
    strings are sequences of UTF-16 code units, numbers are binary64 floats
    ([spec_float] with precision 53 and maximal exponent 1024), big integers
    are [Z]. *)

From Stdlib Require Import ZArith Lia List Sorting.Sorted Sorting.Permutation.
From Stdlib Require Import Floats.SpecFloat.
From stdpp Require Import gmap strings list fin_maps.
From Bignums Require Import BigZ.

Local Open Scope Z_scope.

(** ** Bytes and fixed-width integers *)

Definition bytes := list Z.

Definition is_byte (b : Z) : Prop := 0 <= b < 256.

(** [n] bytes of [x], least significant first (the [LE] writers of Buffer). *)
Fixpoint le_bytes (n : nat) (x : Z) : bytes :=
  match n with
  | O => []
  | S k => x mod 256 :: le_bytes k (x / 256)
  end.

(** The unsigned integer a little-endian byte string stands for. *)
Fixpoint le_value (l : bytes) : Z :=
  match l with
  | [] => 0
  | b :: r => b + 256 * le_value r
  end.

(** [n] bytes of [x], most significant first. *)
Definition be_bytes (n : nat) (x : Z) : bytes := rev (le_bytes n x).

(** The unsigned integer a big-endian byte string stands for. *)
Definition be_value (l : bytes) : Z := le_value (rev l).

(** [Buffer.alloc(n)]: [n] zero bytes. *)
Definition Buffer_alloc (n : nat) : bytes := replicate n 0.

(** [src.copy(target, targetStart, sourceStart, sourceEnd)] of Buffer: the
    bytes [sourceStart, sourceEnd) of [src] overwrite [target] from
    [targetStart] on; what does not fit in [target] is dropped, the length
    of [target] never changes. *)
Definition Buffer_copy (src target : bytes) (targetStart sourceStart sourceEnd : nat)
  : bytes :=
  let chunk := take (length target - targetStart)
                    (take (sourceEnd - sourceStart) (drop sourceStart src)) in
  take targetStart target ++ chunk ++ drop (targetStart + length chunk) target.

(** [target.set(src, offset)] of Uint8Array, for a source that fits. *)
Definition Uint8Array_set (target src : bytes) (offset : nat) : bytes :=
  take offset target ++ src ++ drop (offset + length src) target.

(** [Buffer.compare]: lexicographic order on unsigned bytes, a shorter
    prefix first. *)
Fixpoint Buffer_compare (a b : bytes) : comparison :=
  match a, b with
  | [], [] => Eq
  | [], _ :: _ => Lt
  | _ :: _, [] => Gt
  | x :: a', y :: b' =>
      match x ?= y with
      | Eq => Buffer_compare a' b'
      | c => c
      end
  end.

(** ** Strings

    A JavaScript string is a sequence of UTF-16 code units. *)

Definition jsstring := list Z.

(** The code units of an ASCII literal of the source. *)
Fixpoint lit (s : string) : jsstring :=
  match s with
  | EmptyString => []
  | String c r => Z.of_N (Ascii.N_of_ascii c) :: lit r
  end.

Definition is_high_surrogate (c : Z) : bool := (0xD800 <=? c) && (c <=? 0xDBFF).
Definition is_low_surrogate (c : Z) : bool := (0xDC00 <=? c) && (c <=? 0xDFFF).

Definition utf8_of_code_point (c : Z) : bytes :=
  if c <? 0x80 then [c]
  else if c <? 0x800 then
    [Z.lor 0xC0 (Z.shiftr c 6); Z.lor 0x80 (Z.land c 0x3F)]
  else if c <? 0x10000 then
    [Z.lor 0xE0 (Z.shiftr c 12);
     Z.lor 0x80 (Z.land (Z.shiftr c 6) 0x3F);
     Z.lor 0x80 (Z.land c 0x3F)]
  else
    [Z.lor 0xF0 (Z.shiftr c 18);
     Z.lor 0x80 (Z.land (Z.shiftr c 12) 0x3F);
     Z.lor 0x80 (Z.land (Z.shiftr c 6) 0x3F);
     Z.lor 0x80 (Z.land c 0x3F)].

(** U+FFFD, what an unpaired surrogate is encoded as. *)
Definition utf8_replacement : bytes := [0xEF; 0xBF; 0xBD].

(** [Buffer.from(str, "utf-8")] and [new TextEncoder().encode(str)]. *)
Fixpoint utf8_encode (s : jsstring) : bytes :=
  match s with
  | [] => []
  | c :: rest =>
      if is_high_surrogate c then
        match rest with
        | d :: rest' =>
            if is_low_surrogate d then
              utf8_of_code_point
                (0x10000 + Z.shiftl (c - 0xD800) 10 + (d - 0xDC00))
                ++ utf8_encode rest'
            else utf8_replacement ++ utf8_encode rest
        | [] => utf8_replacement
        end
      else if is_low_surrogate c then utf8_replacement ++ utf8_encode rest
      else utf8_of_code_point c ++ utf8_encode rest
  end.

(** ** Base58 (the bs58 package behind [PublicKey]) *)

Module Base58.

Definition alphabet : jsstring :=
  lit "123456789ABCDEFGHJKLMNPQRSTUVWXYZabcdefghijkmnopqrstuvwxyz".

Fixpoint index_of (c : Z) (l : list Z) (i : Z) : option Z :=
  match l with
  | [] => None
  | x :: r => if x =? c then Some i else index_of c r (i + 1)
  end.

Definition digit (c : Z) : option Z := index_of c alphabet 0.

(** The number a digit string stands for, [None] at a foreign character. *)
Fixpoint number (s : jsstring) (acc : Z) : option Z :=
  match s with
  | [] => Some acc
  | c :: r =>
      match digit c with
      | Some d => number r (acc * 58 + d)
      | None => None
      end
  end.

Fixpoint leading (c : Z) (s : list Z) : nat :=
  match s with
  | x :: r => if x =? c then S (leading c r) else O
  | [] => O
  end.

(** The bytes of [n > 0], most significant first, without leading zeros. *)
Definition byte_length (n : Z) : nat := Z.to_nat ((Z.log2 n + 8) / 8).

Definition minimal_bytes (n : Z) : bytes :=
  if n =? 0 then [] else be_bytes (byte_length n) n.

(** [bs58.decode]: every leading '1' is a zero byte, the rest is a number
    in base 58. *)
Definition decode (s : jsstring) : option bytes :=
  let zeroes := leading 49 s in
  match number (drop zeroes s) 0 with
  | Some n => Some (replicate zeroes 0 ++ minimal_bytes n)
  | None => None
  end.

Fixpoint digits (fuel : nat) (n : Z) (acc : jsstring) : jsstring :=
  match fuel with
  | O => acc
  | S f =>
      if n =? 0 then acc
      else digits f (n / 58) (nth (Z.to_nat (n mod 58)) alphabet 0 :: acc)
  end.

(** [bs58.encode]. *)
Definition encode (b : bytes) : jsstring :=
  let zeroes := leading 0 b in
  replicate zeroes 49 ++ digits (2 * length b) (be_value (drop zeroes b)) [].

End Base58.

(** ** SHA-256 (what [createHash("sha256")] of node's crypto computes) *)

Module Sha256.

Definition W32 : Z := 0x100000000.

Definition add32 (a b : Z) : Z := (a + b) mod W32.

Definition rotr (n x : Z) : Z :=
  Z.lor (Z.shiftr x n) (Z.shiftl x (32 - n) mod W32).

Definition not32 (x : Z) : Z := Z.lxor x 0xFFFFFFFF.

Definition Ch (x y z : Z) : Z := Z.lxor (Z.land x y) (Z.land (not32 x) z).

Definition Maj (x y z : Z) : Z :=
  Z.lxor (Z.lxor (Z.land x y) (Z.land x z)) (Z.land y z).

Definition Sigma0 (x : Z) : Z := Z.lxor (Z.lxor (rotr 2 x) (rotr 13 x)) (rotr 22 x).
Definition Sigma1 (x : Z) : Z := Z.lxor (Z.lxor (rotr 6 x) (rotr 11 x)) (rotr 25 x).
Definition sigma0 (x : Z) : Z := Z.lxor (Z.lxor (rotr 7 x) (rotr 18 x)) (Z.shiftr x 3).
Definition sigma1 (x : Z) : Z := Z.lxor (Z.lxor (rotr 17 x) (rotr 19 x)) (Z.shiftr x 10).

(** The primes below [n], by trial division. *)
Definition is_prime (n : nat) : bool :=
  forallb (fun d => negb (Nat.eqb (n mod d) 0)) (seq 2 (n - 2)).

Definition primes_below (n : nat) : list Z :=
  map Z.of_nat (filter (fun k => is_prime k = true) (seq 2 (n - 2))).

(** The integer cube root of [n < 2^(3 * bits)], one bit at a time. *)
Fixpoint cube_root (bits : nat) (n r : Z) : Z :=
  match bits with
  | O => r
  | S b =>
      let c := r + 2 ^ Z.of_nat b in
      cube_root b n (if c * c * c <=? n then c else r)
  end.

(** The round constants: the first 32 bits of the fractional parts of the
    cube roots of the first 64 primes. *)
Definition K : list Z :=
  Eval vm_compute in
    map (fun q => cube_root 36 (q * 2 ^ 96) 0 mod W32) (primes_below 312).

Record state := State { sa : Z; sb : Z; sc : Z; sd : Z; se : Z; sf : Z; sg : Z; sh : Z }.

(** The initial state: the first 32 bits of the fractional parts of the
    square roots of the first 8 primes. *)
Definition initial (i : nat) : Z :=
  Z.sqrt (nth i (primes_below 20) 0 * 2 ^ 64) mod W32.

Definition H0 : state :=
  Eval vm_compute in
    State (initial 0) (initial 1) (initial 2) (initial 3)
          (initial 4) (initial 5) (initial 6) (initial 7).

(** Padding: a one bit, zeros up to 56 modulo 64, the bit length on 8 bytes. *)
Definition pad (msg : bytes) : bytes :=
  let l := Z.of_nat (length msg) in
  msg ++ [0x80] ++ replicate (Z.to_nat ((55 - l) mod 64)) 0 ++ be_bytes 8 (8 * l).

Fixpoint chunks (fuel : nat) (size : nat) (l : bytes) : list bytes :=
  match fuel with
  | O => []
  | S f =>
      match l with
      | [] => []
      | _ => take size l :: chunks f size (drop size l)
      end
  end.

Definition words (block : bytes) : list Z :=
  map be_value (chunks 16 4 block).

(** The message schedule beyond the first 16 words; [win] holds the last
    16 words, oldest first. *)
Fixpoint expand (n : nat) (win : list Z) : list Z :=
  match n with
  | O => []
  | S k =>
      match win with
      | [] => []
      | w16 :: rest =>
          let w := add32 (add32 (sigma1 (nth 13 rest 0)) (nth 8 rest 0))
                         (add32 (sigma0 (nth 0 rest 0)) w16) in
          w :: expand k (rest ++ [w])
      end
  end.

Definition schedule (block : bytes) : list Z :=
  let w := words block in w ++ expand 48 w.

Definition round (s : state) (kw : Z * Z) : state :=
  let t1 := add32 (add32 (add32 (sh s) (Sigma1 (se s)))
                         (add32 (Ch (se s) (sf s) (sg s)) (fst kw))) (snd kw) in
  let t2 := add32 (Sigma0 (sa s)) (Maj (sa s) (sb s) (sc s)) in
  State (add32 t1 t2) (sa s) (sb s) (sc s) (add32 (sd s) t1) (se s) (sf s) (sg s).

Definition compress (s : state) (block : bytes) : state :=
  let r := fold_left round (combine K (schedule block)) s in
  State (add32 (sa s) (sa r)) (add32 (sb s) (sb r)) (add32 (sc s) (sc r))
        (add32 (sd s) (sd r)) (add32 (se s) (se r)) (add32 (sf s) (sf r))
        (add32 (sg s) (sg r)) (add32 (sh s) (sh r)).

Definition output (s : state) : bytes :=
  be_bytes 4 (sa s) ++ be_bytes 4 (sb s) ++ be_bytes 4 (sc s) ++ be_bytes 4 (sd s)
  ++ be_bytes 4 (se s) ++ be_bytes 4 (sf s) ++ be_bytes 4 (sg s) ++ be_bytes 4 (sh s).

Definition digest (msg : bytes) : bytes :=
  let p := pad msg in
  output (fold_left compress (chunks (length p) 64 p) H0).

End Sha256.

Definition sha256 : bytes -> bytes := Sha256.digest.

(** ** Numbers: binary64 *)

Module Float64.

Definition prec : Z := 53.
Definition emax : Z := 1024.

(** The number nearest to an integer (ties to even). *)
Definition of_Z (z : Z) : spec_float := binary_normalize prec emax z 0 false.

(** The number nearest to [n / d] for [0 <= n] and [0 < d], with the sign
    [neg]: the quotient is computed to the precision of the result with
    the position of the remainder, as [SFdiv] does, then rounded. *)
Definition of_ratio (neg : bool) (n d : Z) : spec_float :=
  if n =? 0 then S754_zero neg
  else
    let '(q, e, l) := SFdiv_core_binary prec emax n 0 d 0 in
    binary_round_aux prec emax neg q e l.

Definition mul : spec_float -> spec_float -> spec_float := SFmul prec emax.

Definition isNaN (x : spec_float) : bool :=
  match x with S754_nan => true | _ => false end.

(** The integer a number is, when it is one. *)
Definition to_int (x : spec_float) : option Z :=
  match x with
  | S754_zero _ => Some 0
  | S754_finite s m e =>
      if 0 <=? e then Some (cond_Zopp s (Z.shiftl (Zpos m) e))
      else if Zpos m mod 2 ^ (- e) =? 0
           then Some (cond_Zopp s (Z.shiftr (Zpos m) (- e)))
           else None
  | _ => None
  end.

(** [Math.floor]; the integer is left as a mantissa with exponent 0. *)
Definition floor (x : spec_float) : spec_float :=
  match x with
  | S754_finite s m e =>
      if 0 <=? e then x
      else
        match Z.shiftr (cond_Zopp s (Zpos m)) (- e) with
        | Z0 => S754_zero s
        | Zpos f => S754_finite false f 0
        | Zneg f => S754_finite true f 0
        end
  | _ => x
  end.

(** The rational [num / den] a finite number stands for. *)
Definition num (x : spec_float) : Z :=
  match x with
  | S754_finite s m e => cond_Zopp s (Zpos m * 2 ^ Z.max e 0)
  | _ => 0
  end.

Definition den (x : spec_float) : Z :=
  match x with
  | S754_finite s m e => 2 ^ Z.max (- e) 0
  | _ => 1
  end.

Definition is_finite (x : spec_float) : bool :=
  match x with S754_zero _ | S754_finite _ _ _ => true | _ => false end.

Definition is_negative (x : spec_float) : bool :=
  match x with S754_finite true _ _ | S754_infinity true => true | _ => false end.

End Float64.

(** ** The grammar of numeric strings *)

Definition is_digit (c : Z) : bool := (48 <=? c) && (c <=? 57).

(** WhiteSpace and LineTerminator code units, what [TrimString] removes. *)
Definition is_whitespace (c : Z) : bool :=
  ((9 <=? c) && (c <=? 13)) || (c =? 32) || (c =? 0xA0) || (c =? 0x1680)
  || ((0x2000 <=? c) && (c <=? 0x200A)) || (c =? 0x2028) || (c =? 0x2029)
  || (c =? 0x202F) || (c =? 0x205F) || (c =? 0x3000) || (c =? 0xFEFF).

Fixpoint trim_start (s : jsstring) : jsstring :=
  match s with
  | c :: r => if is_whitespace c then trim_start r else s
  | [] => []
  end.

Definition trim (s : jsstring) : jsstring := rev (trim_start (rev (trim_start s))).

(** The longest prefix of decimal digits, as digit values, and the rest. *)
Fixpoint take_digits (s : jsstring) : list Z * jsstring :=
  match s with
  | c :: r =>
      if is_digit c then let '(d, r') := take_digits r in (c - 48 :: d, r')
      else ([], s)
  | [] => ([], [])
  end.

Definition number_of_digits (radix : Z) (ds : list Z) : Z :=
  fold_left (fun acc d => acc * radix + d) ds 0.

Fixpoint is_prefix (p s : jsstring) : bool :=
  match p, s with
  | [], _ => true
  | x :: p', y :: s' => (x =? y) && is_prefix p' s'
  | _ :: _, [] => false
  end.

(** An optional sign: whether it is a minus, and the rest. *)
Definition take_sign (s : jsstring) : bool * jsstring :=
  match s with
  | 43 :: r => (false, r)
  | 45 :: r => (true, r)
  | _ => (false, s)
  end.

(** The value of the ExponentPart [s] starts with, 0 when it starts with
    none (an indicator without digits is no exponent part). *)
Definition exponent_part (s : jsstring) : Z :=
  match s with
  | c :: r =>
      if (c =? 101) || (c =? 69) then
        let '(neg, r1) := take_sign r in
        match fst (take_digits r1) with
        | [] => 0
        | ds => cond_Zopp neg (number_of_digits 10 ds)
        end
      else 0
  | [] => 0
  end.

Inductive decimal :=
  | DInfinity
  | DFinite (mantissa : Z) (exp10 : Z).

(** The longest prefix that is a StrUnsignedDecimalLiteral. *)
Definition StrUnsignedDecimalLiteral (s : jsstring) : option decimal :=
  if is_prefix (lit "Infinity") s then Some DInfinity
  else
    let '(ip, r) := take_digits s in
    match r with
    | 46 :: r' =>
        let '(fp, r'') := take_digits r' in
        match ip, fp with
        | [], [] => None
        | _, _ =>
            Some (DFinite (number_of_digits 10 (ip ++ fp))
                          (exponent_part r'' - Z.of_nat (length fp)))
        end
    | _ =>
        match ip with
        | [] => None
        | _ => Some (DFinite (number_of_digits 10 ip) (exponent_part r))
        end
    end.

(** [parseFloat] of a string. *)
Definition parseFloat_string (s : jsstring) : spec_float :=
  let '(neg, u) := take_sign (trim_start s) in
  match StrUnsignedDecimalLiteral u with
  | None => S754_nan
  | Some DInfinity => S754_infinity neg
  | Some (DFinite m e) =>
      if 0 <=? e then Float64.of_ratio neg (m * 10 ^ e) 1
      else Float64.of_ratio neg m (10 ^ (- e))
  end.

Definition digit_value (c : Z) : option Z :=
  if is_digit c then Some (c - 48)
  else if (97 <=? c) && (c <=? 122) then Some (c - 87)
  else if (65 <=? c) && (c <=? 90) then Some (c - 55)
  else None.

Fixpoint radix_number (radix : Z) (s : jsstring) (acc : Z) : option Z :=
  match s with
  | [] => Some acc
  | c :: r =>
      match digit_value c with
      | Some d => if d <? radix then radix_number radix r (acc * radix + d) else None
      | None => None
      end
  end.

Definition integer_literal (radix : Z) (s : jsstring) : option Z :=
  match s with
  | [] => None
  | _ => radix_number radix s 0
  end.

(** StringToBigInt: the integer a string stands for, [None] where
    [BigInt] raises a SyntaxError. *)
Definition StringToBigInt (s : jsstring) : option Z :=
  match trim s with
  | [] => Some 0
  | 43 :: r => integer_literal 10 r
  | 45 :: r => option_map Z.opp (integer_literal 10 r)
  | 48 :: x :: r =>
      if (x =? 120) || (x =? 88) then integer_literal 16 r
      else if (x =? 111) || (x =? 79) then integer_literal 8 r
      else if (x =? 98) || (x =? 66) then integer_literal 2 r
      else integer_literal 10 (48 :: x :: r)
  | t => integer_literal 10 t
  end.

Definition hex_digit (c : Z) : Z :=
  if c <? 58 then c - 48 else if c <? 71 then c - 55 else c - 87.

(** The bytes a hexadecimal literal stands for (used for reference values). *)
Fixpoint of_hex (s : jsstring) : bytes :=
  match s with
  | h :: l :: r => (16 * hex_digit h + hex_digit l) :: of_hex r
  | _ => []
  end.


(** ** Outcomes of a call

    A call returns a value, throws, or leaves what the embedding covers (an
    object coerced to a primitive, a number printed as a string, a key given
    as a byte array, a reference to no cell of the store, and the like). *)

Inductive exn :=
  | Error (message : string)
  | TypeError
  | RangeError
  | SyntaxError.

Global Instance exn_eq_dec : EqDecision exn.
Proof. solve_decision. Defined.

Inductive res (A : Type) :=
  | Ok (a : A)
  | Throw (e : exn)
  | Unmodelled.
Arguments Ok {A} a.
Arguments Throw {A} e.
Arguments Unmodelled {A}.

Notation "'let*' x ':=' m 'in' k" :=
  (match m with
   | Ok x => k
   | Throw e => Throw e
   | Unmodelled => Unmodelled
   end)
  (at level 10, x pattern, m at level 100, k at level 200,
   format "'[' 'let*'  x  ':='  m  'in' ']' '/' k").

Fixpoint mapM {A B : Type} (f : A -> res B) (l : list A) : res (list B) :=
  match l with
  | [] => Ok []
  | x :: r =>
      let* y := f x in
      let* ys := mapM f r in
      Ok (y :: ys)
  end.

(** ** Values and the store *)

Definition loc := positive.

Inductive value :=
  | VUndef
  | VNull
  | VBool (b : bool)
  | VNum (x : spec_float)
  | VBigInt (z : Z)
  | VStr (s : jsstring)
  | VRef (l : loc).
Arguments VRef l%_positive.

(** A plain object (own data properties, no accessor) or a dense array. *)
Inductive cell :=
  | Obj (props : gmap string value)
  | Arr (elems : list value).

Abbreviation heap := (gmap loc cell).

Definition is_undefined (v : value) : bool :=
  match v with VUndef => true | _ => false end.

(** ToBoolean. *)
Definition truthy (v : value) : bool :=
  match v with
  | VUndef | VNull => false
  | VBool b => b
  | VNum (S754_zero _) | VNum S754_nan => false
  | VNum _ => true
  | VBigInt z => negb (z =? 0)
  | VStr [] => false
  | VStr _ => true
  | VRef _ => true
  end.

(** [typeof v === "object"]. *)
Definition typeof_object (v : value) : bool :=
  match v with VNull | VRef _ => true | _ => false end.

(** [typeof v === "string"]. *)
Definition typeof_string (v : value) : bool :=
  match v with VStr _ => true | _ => false end.

(** [v[key]] for the keys the builder reads, none of which a prototype
    defines: a missing property is [undefined], reading a property of
    [undefined] or [null] is a TypeError. *)
Definition get (h : heap) (v : value) (key : string) : res value :=
  match v with
  | VUndef | VNull => Throw TypeError
  | VRef l =>
      match h !! l with
      | Some (Obj props) => Ok (default VUndef (props !! key))
      | Some (Arr _) => Ok VUndef
      | None => Unmodelled
      end
  | _ => Ok VUndef
  end.

(** [key in v]. *)
Definition has (h : heap) (v : value) (key : string) : res bool :=
  match v with
  | VRef l =>
      match h !! l with
      | Some (Obj props) => Ok (bool_decide (is_Some (props !! key)))
      | Some (Arr _) => Ok false
      | None => Unmodelled
      end
  | _ => Throw TypeError
  end.

(** [v[key] = x] in strict code. *)
Definition set (h : heap) (v : value) (key : string) (x : value) : res heap :=
  match v with
  | VRef l =>
      match h !! l with
      | Some (Obj props) => Ok (<[l := Obj (<[key := x]> props)]> h)
      | _ => Unmodelled
      end
  | _ => Throw TypeError
  end.

(** The elements of [v] when [Array.isArray(v)], with the cell they are in. *)
Definition as_array (h : heap) (v : value) : res (option (loc * list value)) :=
  match v with
  | VRef l =>
      match h !! l with
      | Some (Arr elems) => Ok (Some (l, elems))
      | Some (Obj _) => Ok None
      | None => Unmodelled
      end
  | _ => Ok None
  end.

(** [v.length], [None] for [undefined]. *)
Definition length_of (h : heap) (v : value) : res (option Z) :=
  match v with
  | VUndef | VNull => Throw TypeError
  | VStr s => Ok (Some (Z.of_nat (length s)))
  | VRef l =>
      match h !! l with
      | Some (Arr elems) => Ok (Some (Z.of_nat (length elems)))
      | Some (Obj props) =>
          match props !! "length"%string with
          | None => Ok None
          | Some _ => Unmodelled
          end
      | None => Unmodelled
      end
  | _ => Ok None
  end.

(** The values a [for ... of] loop runs over. *)
Definition iterate (h : heap) (v : value) : res (list value) :=
  match v with
  | VUndef | VNull => Throw TypeError
  | VRef l =>
      match h !! l with
      | Some (Arr elems) => Ok elems
      | Some (Obj _) => Throw TypeError
      | None => Unmodelled
      end
  | VStr _ => Unmodelled
  | _ => Throw TypeError
  end.

(** A cell the store does not use yet. *)
Definition alloc (h : heap) (c : cell) : loc * heap :=
  let l := fresh (dom h) in (l, <[l := c]> h).

(** ** Coercions *)

(** [BigInt(v)]. *)
Definition BigInt (v : value) : res Z :=
  match v with
  | VBigInt z => Ok z
  | VNum x =>
      match Float64.to_int x with
      | Some z => Ok z
      | None => Throw RangeError
      end
  | VBool b => Ok (if b then 1 else 0)
  | VStr s =>
      match StringToBigInt s with
      | Some z => Ok z
      | None => Throw SyntaxError
      end
  | VUndef | VNull => Throw TypeError
  | VRef _ => Unmodelled
  end.

(** [parseFloat(v)]: the argument is first made a string. *)
Definition parseFloat (v : value) : res spec_float :=
  match v with
  | VStr s => Ok (parseFloat_string s)
  | VUndef | VNull | VBool _ => Ok S754_nan
  | VNum S754_nan => Ok S754_nan
  | VNum (S754_zero _) => Ok (S754_zero false)
  | VNum x => Ok x
  | VBigInt z => Ok (if z =? 0 then S754_zero false
                     else Float64.of_ratio (z <? 0) (Z.abs z) 1)
  | VRef _ => Unmodelled
  end.

(** [Buffer.from(v, "utf-8")]. *)
Definition Buffer_from (v : value) : res bytes :=
  match v with
  | VStr s => Ok (utf8_encode s)
  | VRef _ => Unmodelled
  | _ => Throw TypeError
  end.

(** [new TextEncoder().encode(v)]; an omitted argument is the empty string. *)
Definition TextEncoder_encode (v : value) : res bytes :=
  match v with
  | VStr s => Ok (utf8_encode s)
  | VUndef => Ok []
  | _ => Unmodelled
  end.

(** The string a template literal makes of [v]. *)
Definition ToString (v : value) : res jsstring :=
  match v with
  | VStr s => Ok s
  | VUndef => Ok (lit "undefined")
  | VNull => Ok (lit "null")
  | VBool b => Ok (lit (if b then "true" else "false"))
  | _ => Unmodelled
  end.

(** ** Encoders *)

(** [buf.writeUInt32LE(value, 0)] on four fresh bytes. *)
Definition encodeU32 (value : Z) : res bytes :=
  if (0 <=? value) && (value <=? 0xFFFFFFFF) then Ok (le_bytes 4 value)
  else Throw RangeError.

(** [buf.writeBigUInt64LE(z, 0)] on eight fresh bytes. *)
Definition writeBigUInt64LE (z : Z) : res bytes :=
  if (0 <=? z) && (z <=? 0xFFFFFFFFFFFFFFFF) then Ok (le_bytes 8 z)
  else Throw RangeError.

Definition encodeU64 (value : value) : res bytes :=
  let* z := BigInt value in
  writeBigUInt64LE z.

Definition encodeString (str : value) : res bytes :=
  let* strBuffer := Buffer_from str in
  let* lenBuffer := encodeU32 (Z.of_nat (length strBuffer)) in
  Ok (lenBuffer ++ strBuffer).

(** The salt on 32 bytes: [Buffer.alloc(32)], then the first
    [min(length, 32)] bytes of the encoded salt copied to its start. *)
Definition salt_field (saltUtf8 : bytes) : bytes :=
  Buffer_copy saltUtf8 (Buffer_alloc 32) 0 0 (Nat.min 32 (length saltUtf8)).

(** ** Public keys *)

(** [new PublicKey(s)] for a string, as the 32 bytes of its [toBuffer()]. *)
Definition PublicKey_of_string (s : jsstring) : res bytes :=
  match Base58.decode s with
  | None => Throw (Error "Non-base58 character")
  | Some b =>
      if Nat.eqb (length b) 32 then Ok b
      else Throw (Error "Invalid public key input")
  end.

Definition new_PublicKey (v : value) : res bytes :=
  match v with
  | VStr s => PublicKey_of_string s
  | _ => Unmodelled
  end.

Definition toBase58 (key : bytes) : jsstring := Base58.encode key.

Definition constant_key (s : string) : bytes :=
  match PublicKey_of_string (lit s) with
  | Ok b => b
  | _ => []
  end.

(** [src/constants.js] *)
Definition PROGRAM_ID : bytes :=
  Eval vm_compute in constant_key "CooKTkMQ4V1zfr3faLVxgRwSYM86AWXsEbUC3aeDvXTe".
Definition FEE_ACCOUNT_PUBKEY : bytes :=
  Eval vm_compute in constant_key "9Hp3RaH2Ve5hG9sBY7shMUSEYy5JcDDRWood8umBgUNm".
Definition CONFIG_ACCOUNT : bytes :=
  Eval vm_compute in constant_key "GBWBR3gpHvFwVbipxph5dXzjedo9S12yfrD4Hpe57PE7".
Definition METADATA_PROGRAM_ID : bytes :=
  Eval vm_compute in constant_key "metaqbxxUerdq28cj1RbAWkYQm3ybzjb6a8bt518x1s".
Definition IPFS_GATEWAY : jsstring := lit "https://ipfs.io/ipfs/".

(** The keys the builder takes from @solana/web3.js and @solana/spl-token. *)
Definition SystemProgram_programId : bytes :=
  Eval vm_compute in constant_key "11111111111111111111111111111111".
Definition TOKEN_PROGRAM_ID : bytes :=
  Eval vm_compute in constant_key "TokenkegQfeZyiNwAJbNbGKPFXCWuBvf9Ss623VQ5DA".
Definition SYSVAR_RENT_PUBKEY : bytes :=
  Eval vm_compute in constant_key "SysvarRent111111111111111111111111111111111".

Inductive pubkey :=
  | Caller (v : value)
  | Key (b : bytes).

Record AccountMeta := {
  acc_pubkey : pubkey;
  isSigner : bool;
  isWritable : bool
}.

Record TransactionInstruction := {
  keys : list AccountMeta;
  programId : bytes;
  data : bytes
}.

Record CookPDA := {
  pda : bytes;
  bump : Z;
  sha256Hash : bytes
}.

(** ** Program derived addresses

    [isOnCurve] is the test of @solana/web3.js for a point of the ed25519
    curve; the builder only needs an address that fails it. *)

Section Builder.

Variable isOnCurve : bytes -> bool.

Definition MAX_SEED_LENGTH : nat := 32.

Definition createProgramAddressSync (seeds : list bytes) (programId : bytes)
  : res bytes :=
  if forallb (fun seed => Nat.leb (length seed) MAX_SEED_LENGTH) seeds then
    let buffer := concat seeds ++ programId
                  ++ utf8_encode (lit "ProgramDerivedAddress") in
    let publicKeyBytes := sha256 buffer in
    if isOnCurve publicKeyBytes
    then Throw (Error "Invalid seeds, address must fall off the curve")
    else Ok publicKeyBytes
  else Throw TypeError.

(** The search of [findProgramAddressSync] from the nonce [n] down to 1. *)
Fixpoint find_nonce (n : nat) (seeds : list bytes) (programId : bytes)
  : res (bytes * Z) :=
  match n with
  | O => Throw (Error "Unable to find a viable program address nonce")
  | S k =>
      match createProgramAddressSync (seeds ++ [[Z.of_nat n]]) programId with
      | Ok address => Ok (address, Z.of_nat n)
      | Throw TypeError => Throw TypeError
      | Throw _ => find_nonce k seeds programId
      | Unmodelled => Unmodelled
      end
  end.

Definition findProgramAddressSync (seeds : list bytes) (programId : bytes)
  : res (bytes * Z) :=
  find_nonce 255 seeds programId.

(** [findCookPDA(concatenatedData, salt)] *)
Definition findCookPDA (concatenatedData : bytes) (salt : value) : res CookPDA :=
  let* encodedSalt := TextEncoder_encode salt in
  let saltBytes :=
    Uint8Array_set (replicate 32 0)
                   (take (Nat.min (length encodedSalt) 32) encodedSalt) 0 in
  let totalLength := (length concatenatedData + 32)%nat in
  let concatenated :=
    Uint8Array_set
      (Uint8Array_set (replicate totalLength 0) concatenatedData 0)
      saltBytes (length concatenatedData) in
  let sha256Hash := sha256 concatenated in
  let* (pda, bump) := findProgramAddressSync [sha256Hash] PROGRAM_ID in
  Ok {| pda := pda; bump := bump; sha256Hash := sha256Hash |}.

(** ** Sorting seeds by mint *)

(** The key of the comparator: [new PublicKey(a.mint).toBuffer()]. *)
Definition seed_key (h : heap) (a : value) : res bytes :=
  let* mint := get h a "mint" in
  new_PublicKey mint.

(** [compare(a, b) <= 0] *)
Definition key_le (a b : bytes) : bool :=
  match Buffer_compare a b with
  | Gt => false
  | _ => true
  end.

Fixpoint insert_seed (x : bytes * value) (l : list (bytes * value))
  : list (bytes * value) :=
  match l with
  | [] => [x]
  | y :: r => if key_le (fst x) (fst y) then x :: y :: r else y :: insert_seed x r
  end.

(** A stable sort: of two seeds with the same key the first stays first. *)
Definition sort_seeds (l : list (bytes * value)) : list (bytes * value) :=
  foldr insert_seed [] l.

(** The keys of all elements.  The comparator throws at a key that is no
    public key; which call comes first is the engine's choice, so elements
    failing in different ways are not covered. *)
Fixpoint all_keys (rs : list (res bytes)) : res (list bytes) :=
  match rs with
  | [] => Ok []
  | r :: rest =>
      match r, all_keys rest with
      | Ok k, Ok ks => Ok (k :: ks)
      | Ok _, other => other
      | Throw e, Ok _ => Throw e
      | Throw e, Throw e' => if decide (e = e') then Throw e else Unmodelled
      | _, _ => Unmodelled
      end
  end.

(** [elems.sort((a, b) => new PublicKey(a.mint).toBuffer().compare(new PublicKey(b.mint).toBuffer()))]:
    the sorted elements.  [undefined] elements go last without a call of the
    comparator, which is called only when two elements are left to compare. *)
Definition Array_sort (h : heap) (elems : list value) : res (list value) :=
  let defined := filter (fun v => is_undefined v = false) elems in
  let undefs := filter (fun v => is_undefined v = true) elems in
  if Nat.ltb (length defined) 2 then Ok (defined ++ undefs)
  else
    let* ks := all_keys (map (seed_key h) defined) in
    Ok (map snd (sort_seeds (combine ks defined)) ++ undefs).

(** ** The builder *)

(** [!cookedData || typeof cookedData !== "object"] *)
Definition not_an_object (cookedData : value) : bool :=
  negb (truthy cookedData) || negb (typeof_object cookedData).

Definition missing_field (field : string) : exn :=
  Error ("Invalid cookedData: Missing required field '" +:+ field +:+ "'.").

Fixpoint check_required (h : heap) (cookedData : value) (fields : list string)
  : res unit :=
  match fields with
  | [] => Ok tt
  | field :: r =>
      let* v := get h cookedData field in
      if truthy v then check_required h cookedData r
      else Throw (missing_field field)
  end.

(** [seeds.every((s) => s.mint && s.amount_u64 !== undefined)] *)
Fixpoint every_seed (h : heap) (elems : list value) : res bool :=
  match elems with
  | [] => Ok true
  | s :: r =>
      let* mint := get h s "mint" in
      if truthy mint then
        let* amount := get h s "amount_u64" in
        if is_undefined amount then Ok false else every_seed h r
      else Ok false
  end.

(** The seeds of [cookedData] when they are an array of elements that each
    have a mint and an amount. *)
Definition checked_seeds (h : heap) (cookedData : value)
  : res (loc * list value) :=
  let* seeds := get h cookedData "seeds" in
  let* arr := as_array h seeds in
  match arr with
  | None => Throw (Error "Invalid cookedData: 'seeds' must be an array.")
  | Some (l, elems) =>
      let* ok := every_seed h elems in
      if ok then Ok (l, elems)
      else Throw (Error "Invalid cookedData: Each seed must have 'mint' and 'amount_u64'.")
  end.

(** One turn of the loop of [derivePDAFromCookedData]. *)
Definition seed_chunk (h : heap) (seed : value) : res bytes :=
  let* mintBytes := seed_key h seed in
  let* amount := get h seed "amount_u64" in
  let* z := BigInt amount in
  let* qtyBytes := writeBigUInt64LE z in
  Ok (mintBytes ++ qtyBytes).

(** The bytes [derivePDAFromCookedData] hashes: the checks, the sort of a
    copy of the seeds, the chunk of every seed, the salt (lines 134 to 161). *)
Definition derive_concatenated (h : heap) (cookedData : value) : res bytes :=
  let* seeds := get h cookedData "seeds" in
  let* arr := as_array h seeds in
  match arr with
  | None => Throw (Error "cookedData.seeds must be an array")
  | Some (_, elems) =>
      let* salt := get h cookedData "salt" in
      match salt with
      | VStr saltStr =>
          let* sortedSeeds := Array_sort h elems in
          let* seedChunks := mapM (seed_chunk h) sortedSeeds in
          let saltBytes := salt_field (utf8_encode saltStr) in
          Ok (concat seedChunks ++ saltBytes)
      | _ => Throw (Error "cookedData.salt must be a string")
      end
  end.

(** [derivePDAFromCookedData(cookedData)] *)
Definition derivePDAFromCookedData (h : heap) (cookedData : value) : res CookPDA :=
  let* concatenated := derive_concatenated h cookedData in
  let sha256Hash := sha256 concatenated in
  let* (pda, bump) := findProgramAddressSync [sha256Hash] PROGRAM_ID in
  Ok {| pda := pda; bump := bump; sha256Hash := sha256Hash |}.

(** The checks of [validateCookedData], which read the store only. *)
Definition validate_checks (h : heap) (cookedData : value)
  : res (loc * list value) :=
  if not_an_object cookedData
  then Throw (Error "Invalid cookedData: Input must be an object.")
  else
    let* _ := check_required h cookedData ["seeds"; "metadataCid"; "name"; "symbol"] in
    let* salt := has h cookedData "salt" in
    if salt then checked_seeds h cookedData
    else Throw (Error "Invalid cookedData: Missing required field 'salt'.").

(** [validateCookedData(cookedData)]: the checks, then the seeds array of
    the caller sorted in place, the address derived and stored in the
    caller's object, which is returned. *)
Definition validateCookedData (h : heap) (cookedData : value) : res value * heap :=
  match validate_checks h cookedData with
  | Ok (seedsLoc, elems) =>
      match Array_sort h elems with
      | Ok sorted =>
          let h1 := <[seedsLoc := Arr sorted]> h in
          match derivePDAFromCookedData h1 cookedData with
          | Ok r =>
              match set h1 cookedData "pda" (VStr (toBase58 (pda r))) with
              | Ok h2 => (Ok cookedData, h2)
              | Throw e => (Throw e, h1)
              | Unmodelled => (Unmodelled, h1)
              end
          | Throw e => (Throw e, h1)
          | Unmodelled => (Unmodelled, h1)
          end
      | Throw e => (Throw e, h)
      | Unmodelled => (Unmodelled, h)
      end
  | Throw e => (Throw e, h)
  | Unmodelled => (Unmodelled, h)
  end.

Definition meta (key : pubkey) (signer writable : bool) : AccountMeta :=
  {| acc_pubkey := key; isSigner := signer; isWritable := writable |}.

(** The loop that adds one read-only account per seed that has a mint. *)
Fixpoint seed_accounts (h : heap) (seeds : list value) : res (list AccountMeta) :=
  match seeds with
  | [] => Ok []
  | seed :: r =>
      let* mint := get h seed "mint" in
      if truthy mint then
        let* key := new_PublicKey mint in
        let* rest := seed_accounts h r in
        Ok (meta (Key key) false false :: rest)
      else seed_accounts h r
  end.

(** [seeds.map((s) => BigInt(s.amount_u64))] *)
Definition seed_amounts (h : heap) (seeds : list value) : res (list Z) :=
  mapM (fun s => let* amount := get h s "amount_u64" in BigInt amount) seeds.

(** The part of the payload both instructions share after the opcode:
    the amounts with their count, then the salt. *)
Definition amounts_and_salt (h : heap) (seeds : list value) (salt : value)
  : res bytes :=
  let* amounts := seed_amounts h seeds in
  let* amountsLen := encodeU32 (Z.of_nat (length amounts)) in
  let* amountsData := mapM (fun a => encodeU64 (VBigInt a)) amounts in
  let* saltBytes := Buffer_from salt in
  Ok (amountsLen ++ concat amountsData ++ salt_field saltBytes).

(** What [createRecipe] does after the validation, on the store it left. *)
Definition createRecipe_build (h : heap) (feePayerPubkey cookedData : value)
  : res TransactionInstruction :=
  let* pda := get h cookedData "pda" in
  let* seeds := get h cookedData "seeds" in
  let* salt := get h cookedData "salt" in
  let* metadataCid := get h cookedData "metadataCid" in
  let* name := get h cookedData "name" in
  let* symbol := get h cookedData "symbol" in
  let* cid := ToString metadataCid in
  let uri := IPFS_GATEWAY ++ cid in
  let instructionData := [0x01] in
  let* pdaPubkey := new_PublicKey pda in
  let* metadataPda :=
    findProgramAddressSync
      [utf8_encode (lit "metadata"); METADATA_PROGRAM_ID; pdaPubkey]
      METADATA_PROGRAM_ID in
  let accounts :=
    [ meta (Caller feePayerPubkey) true true;
      meta (Key FEE_ACCOUNT_PUBKEY) false true;
      meta (Key CONFIG_ACCOUNT) false false;
      meta (Key pdaPubkey) false true;
      meta (Key (fst metadataPda)) false true;
      meta (Key SystemProgram_programId) false false;
      meta (Key TOKEN_PROGRAM_ID) false false;
      meta (Key SYSVAR_RENT_PUBKEY) false false;
      meta (Key METADATA_PROGRAM_ID) false false ] in
  let* elems := iterate h seeds in
  let* seedAccounts := seed_accounts h elems in
  let* body := amounts_and_salt h elems salt in
  let* nameData := encodeString name in
  let* symbolData := encodeString symbol in
  let* uriData := encodeString (VStr uri) in
  Ok {| keys := accounts ++ seedAccounts;
        programId := PROGRAM_ID;
        data := instructionData ++ body ++ nameData ++ symbolData ++ uriData |}.

(** [createRecipe(feePayerPubkey, cookedData)] *)
Definition createRecipe (h : heap) (feePayerPubkey cookedData : value)
  : res TransactionInstruction * heap :=
  match validateCookedData h cookedData with
  | (Ok validated, h') => (createRecipe_build h' feePayerPubkey validated, h')
  | (Throw e, h') => (Throw e, h')
  | (Unmodelled, h') => (Unmodelled, h')
  end.

(** [sortSeeds(cookedData)]: a new object with a new, sorted seeds array. *)
Definition sortSeeds (h : heap) (cookedData : value) : res value * heap :=
  if not_an_object cookedData
  then (Throw (Error "Invalid cookedData: Input must be an object."), h)
  else
    match checked_seeds h cookedData, cookedData with
    | Ok (_, elems), VRef l =>
        match h !! l with
        | Some (Obj props) =>
            let '(l', h1) := alloc h (Obj props) in
            let '(seedsLoc', h2) := alloc h1 (Arr elems) in
            match Array_sort h2 elems with
            | Ok sorted =>
                let h3 := <[seedsLoc' := Arr sorted]> h2 in
                (Ok (VRef l'),
                 <[l' := Obj (<["seeds" := VRef seedsLoc']> props)]> h3)
            | Throw e => (Throw e, h2)
            | Unmodelled => (Unmodelled, h2)
            end
        | _ => (Unmodelled, h)
        end
    | Ok _, _ => (Unmodelled, h)
    | Throw e, _ => (Throw e, h)
    | Unmodelled, _ => (Unmodelled, h)
    end.

(** [validateCookedDataForCooking(cookedData)] *)
Definition validateCookedDataForCooking (h : heap) (cookedData : value)
  : res value :=
  if not_an_object cookedData
  then Throw (Error "Invalid cookedData: Input must be an object.")
  else
    let* _ := check_required h cookedData ["pda"; "seeds"] in
    let* salt := has h cookedData "seedSalt" in
    if salt then
      let* _ := checked_seeds h cookedData in
      Ok cookedData
    else Throw (Error "Invalid cookedData: Missing required field 'seedSalt'.").

(** [10 ** decimals], exact up to [10 ** 22]. *)
Definition pow10 (decimals : Z) : res spec_float :=
  if (0 <=? decimals) && (decimals <=? 22) then Ok (Float64.of_Z (10 ^ decimals))
  else Unmodelled.

(** [toBaseUnits(amountStr, decimals)] *)
Definition toBaseUnits (amountStr : value) (decimals : Z) : res Z :=
  let* floatVal := parseFloat amountStr in
  if Float64.isNaN floatVal then Throw (Error "Invalid number in qty_requested")
  else
    let* scale := pow10 decimals in
    let scaled := Float64.floor (Float64.mul floatVal scale) in
    BigInt (VNum scaled).

(** [a === b] for two lengths, [None] being an [undefined] left operand
    or a right operand that is no number. *)
Definition same_number (a b : option Z) : bool :=
  match a, b with
  | Some x, Some y => x =? y
  | _, _ => false
  end.

(** [[0x02, 0x03].includes(option)], with the byte [writeUInt8] then writes. *)
Definition opcode (opt : value) : option Z :=
  match opt with
  | VNum x =>
      match Float64.to_int x with
      | Some 2 => Some 2
      | Some 3 => Some 3
      | _ => None
      end
  | _ => None
  end.

(** [useRecipe(feePayerPubkey, cookedData, tokenAccounts, option)], the
    last argument written [opt]; [None] is the [null] it returns.  It writes
    nothing to the store. *)
Definition useRecipe (h : heap) (feePayerPubkey cookedData tokenAccounts opt : value)
  : res (option TransactionInstruction) :=
  match opcode opt with
  | None => Throw (Error "âŒ Invalid option. Must be 0x02 (cook) or 0x03 (uncook).")
  | Some op =>
      let* validated := validateCookedDataForCooking h cookedData in
      let* pda := get h validated "pda" in
      let* seeds := get h validated "seeds" in
      let* seedSalt := get h validated "seedSalt" in
      let* accountsLength := length_of h tokenAccounts in
      let* seedsLength := length_of h seeds in
      if same_number accountsLength ((fun n => 2 * n + 2) <$> seedsLength)
      then
        let instructionData := [op] in
        let* pdaPubkey := new_PublicKey pda in
        let accounts :=
          [ meta (Caller feePayerPubkey) true true;
            meta (Key FEE_ACCOUNT_PUBKEY) false true;
            meta (Key CONFIG_ACCOUNT) false false;
            meta (Key pdaPubkey) false true;
            meta (Key SystemProgram_programId) false false;
            meta (Key TOKEN_PROGRAM_ID) false false;
            meta (Key SYSVAR_RENT_PUBKEY) false false ] in
        let* elems := iterate h seeds in
        let* seedAccounts := seed_accounts h elems in
        let* body := amounts_and_salt h elems seedSalt in
        let* qty := get h cookedData "qty_requested" in
        let* baseQty := toBaseUnits qty 6 in
        let* qtyRequestedBuf := encodeU64 (VBigInt baseQty) in
        let* tokens := iterate h tokenAccounts in
        let* tokenKeys := mapM new_PublicKey tokens in
        Ok (Some {| keys := accounts ++ seedAccounts
                            ++ map (fun k => meta (Key k) false true) tokenKeys;
                    programId := PROGRAM_ID;
                    data := instructionData ++ body ++ qtyRequestedBuf |})
      else Ok None
  end.

End Builder.

(** ** The curve test

    The test of @solana/web3.js (through @noble/curves): the 32 bytes are a
    point when, the top bit taken as the sign of [x], [y] is below the prime
    and [(y^2 - 1) / (d y^2 + 1)] is a square, a zero [x] having no sign. *)

Module Ed25519.

Definition p : bigZ := BigZ.of_Z (2 ^ 255 - 19).

Definition d : bigZ :=
  BigZ.of_Z
    37095705934669439343138083508754565189542113879843219016388785533085940283555.

Definition mul (a b : bigZ) : bigZ := BigZ.modulo (BigZ.mul a b) p.

Fixpoint pow (b : bigZ) (e : positive) : bigZ :=
  match e with
  | xH => b
  | xO e' => let r := pow b e' in mul r r
  | xI e' => let r := pow b e' in mul (mul r r) b
  end.

(** Euler's criterion, for [a] that is not zero. *)
Definition is_square (a : bigZ) : bool :=
  BigZ.eqb (pow a (Z.to_pos ((2 ^ 255 - 19 - 1) / 2))) 1%bigZ.

Definition isOnCurve (b : bytes) : bool :=
  let n := le_value b in
  let y := BigZ.of_Z (Z.land n (Z.ones 255)) in
  let sign := Z.testbit n 255 in
  if BigZ.leb p y then false
  else
    let y2 := mul y y in
    let u := BigZ.modulo (BigZ.sub y2 1%bigZ) p in
    let v := BigZ.modulo (BigZ.add (mul d y2) 1%bigZ) p in
    (* u / v is a square exactly when u * v is, and zero when u is *)
    if BigZ.eqb u 0%bigZ then negb sign else is_square (mul u v).

End Ed25519.

(** ** Sample data *)

Definition obj (fields : list (string * value)) : cell := Obj (list_to_map fields).

Definition payer : value := VStr (lit "4PYfccDjZpjthkDkKPGQHEZXtSooRwgHCQJTig4myc7x").

Definition M1 : jsstring := lit "4o5wmhvHtF8JuauJgrzWpR6dyCNQJn9MYwCHNUhBXxve".
Definition M2 : jsstring := lit "EPjFWdd5AufqSSqeM2qN1xzybapC8G4wEGGkZwyTDt1v".
Definition M3 : jsstring := lit "So11111111111111111111111111111111111111112".

(** The valid input of tests/createRecipe.test.js: the recipe at cell 1,
    its seeds array at cell 2, the seed at cell 3. *)
Definition recipe_A : heap :=
  list_to_map
    [ (1%positive, obj [ ("seeds", VRef 2); ("salt", VStr (lit "random-salt"));
                         ("metadataCid", VStr (lit "some-metadata-cid"));
                         ("name", VStr (lit "Test Recipe"));
                         ("symbol", VStr (lit "TST")) ]);
      (2%positive, Arr [VRef 3]);
      (3%positive, obj [ ("mint", VStr M1); ("amount_u64", VStr (lit "1000000")) ]) ].

Definition PDA_A : jsstring := lit "5cbKE8V24dmFrCDb5YeuMmimR99xiRybwwUkVGSiNzo7".

Definition recipe (seeds : loc) : cell :=
  obj [ ("seeds", VRef seeds); ("salt", VStr (lit "random-salt"));
        ("metadataCid", VStr (lit "some-metadata-cid"));
        ("name", VStr (lit "Test Recipe")); ("symbol", VStr (lit "TST")) ].

Definition cook_request (seeds : loc) (qty : string) : cell :=
  obj [ ("pda", VStr PDA_A); ("seeds", VRef seeds);
        ("seedSalt", VStr (lit "random-salt")); ("qty_requested", VStr (lit qty)) ].
Arguments recipe seeds%_positive.
Arguments cook_request seeds%_positive qty%_string.

Definition token_accounts : list value :=
  map VStr
      [ lit "4PYfccDjZpjthkDkKPGQHEZXtSooRwgHCQJTig4myc7x";
        lit "9Hp3RaH2Ve5hG9sBY7shMUSEYy5JcDDRWood8umBgUNm";
        lit "GBWBR3gpHvFwVbipxph5dXzjedo9S12yfrD4Hpe57PE7";
        lit "metaqbxxUerdq28cj1RbAWkYQm3ybzjb6a8bt518x1s";
        lit "TokenkegQfeZyiNwAJbNbGKPFXCWuBvf9Ss623VQ5DA";
        lit "Es9vMFrzaCERmJfrF4H2FYD4KCoNkY11McCe8BenwNYB" ].

(** A store with two seeds, the greater mint [M2] in cell 3 and the smaller
    mint [M3] in cell 4; the array of cell 2 has them in that order, the
    array of cell 11 in the other; cell 6 is an empty array, cell 14 an
    object without a property; cells 14, 16 and 17 are the invalid inputs of
    tests/createRecipe.test.js. *)
Definition kitchen : heap :=
  list_to_map
    [ (1%positive, recipe 2);
      (2%positive, Arr [VRef 3; VRef 4]);
      (3%positive, obj [ ("mint", VStr M2); ("amount_u64", VStr (lit "2000000")) ]);
      (4%positive, obj [ ("mint", VStr M3); ("amount_u64", VStr (lit "1000000")) ]);
      (5%positive, recipe 6);
      (6%positive, Arr []);
      (7%positive, cook_request 2 "2.5");
      (8%positive, Arr token_accounts);
      (9%positive, Arr (take 4 token_accounts));
      (10%positive, cook_request 11 "2.5");
      (11%positive, Arr [VRef 4; VRef 3]);
      (12%positive, cook_request 2 "100000000000000");
      (13%positive, cook_request 2 "2.01");
      (14%positive, obj []);
      (15%positive, cook_request 2 "abc");
      (16%positive, obj [ ("seeds", VStr (lit "not-an-array"));
                          ("salt", VStr (lit "random-salt"));
                          ("metadataCid", VStr (lit "some-metadata-cid"));
                          ("name", VStr (lit "Test Recipe"));
                          ("symbol", VStr (lit "TST")) ]);
      (17%positive, recipe 18);
      (18%positive, Arr [VRef 19]);
      (19%positive, obj [ ("mint", VStr M1) ]) ].

Definition cook : value := VNum (Float64.of_Z 2).
Definition uncook : value := VNum (Float64.of_Z 3).

(** ** The layouts in the words of the specification *)

(** The salt on a fixed field of 32 bytes: truncated when longer,
    padded with zeros when shorter. *)
Definition spec_salt (salt : jsstring) : bytes :=
  take 32 (utf8_encode salt ++ replicate 32 0).

(** A string preceded by its byte length on 32 bits. *)
Definition spec_string (s : jsstring) : bytes :=
  le_bytes 4 (Z.of_nat (length (utf8_encode s))) ++ utf8_encode s.

(** For each seed the 32 bytes of its mint, then its quantity on 64 bits;
    then the salt field. *)
Definition spec_preimage (seeds : list (bytes * Z)) (salt : jsstring) : bytes :=
  concat (map (fun s => fst s ++ le_bytes 8 (snd s)) seeds) ++ spec_salt salt.

(** [opcode(1) | seedCount(u32) | quantity(u64)* | salt(32) | name | symbol | uri] *)
Definition spec_create_payload (qtys : list Z) (salt name symbol uri : jsstring)
  : bytes :=
  [0x01] ++ le_bytes 4 (Z.of_nat (length qtys)) ++ concat (map (le_bytes 8) qtys)
  ++ spec_salt salt ++ spec_string name ++ spec_string symbol ++ spec_string uri.

(** [opcode(1) | seedCount(u32) | quantity(u64)* | salt(32) | convertedQuantity(u64)] *)
Definition spec_use_payload (op : Z) (qtys : list Z) (salt : jsstring) (converted : Z)
  : bytes :=
  [op] ++ le_bytes 4 (Z.of_nat (length qtys)) ++ concat (map (le_bytes 8) qtys)
  ++ spec_salt salt ++ le_bytes 8 converted.

(** Ascending order of the keys, byte by byte. *)
Definition ascending (ks : list bytes) : Prop :=
  StronglySorted (fun a b => key_le a b = true) ks.

(** The order of the seeds paired with their keys. *)
Definition pair_le (x y : bytes * value) : Prop := key_le (fst x) (fst y) = true.

(** Two stores on which every read of a property other than the address
    gives the same. *)
Definition agree (h h' : heap) : Prop :=
  forall v k, k <> "pda"%string -> get h' v k = get h v k.

(** The number [n] as an argument of the builder. *)
Definition is_number (v : value) (n : Z) : Prop :=
  exists x, v = VNum x /\ Float64.to_int x = Some n.

(** An integer given as a big integer or as a number. *)
Definition denotes (v : value) (z : Z) : Prop :=
  v = VBigInt z \/ is_number v z.

(** A seed as the builder reads it in the store: its mint as 32 bytes and
    its quantity as an integer. *)
Definition seed_in (h : heap) (v : value) (s : bytes * Z) : Prop :=
  seed_key h v = Ok (fst s)
  /\ exists a, get h v "amount_u64" = Ok a /\ BigInt a = Ok (snd s).

(** The seven accounts every cook and uncook instruction starts with. *)
Definition use_accounts (feePayerPubkey : value) (pdaPubkey : bytes) : list AccountMeta :=
  [ meta (Caller feePayerPubkey) true true;
    meta (Key FEE_ACCOUNT_PUBKEY) false true;
    meta (Key CONFIG_ACCOUNT) false false;
    meta (Key pdaPubkey) false true;
    meta (Key SystemProgram_programId) false false;
    meta (Key TOKEN_PROGRAM_ID) false false;
    meta (Key SYSVAR_RENT_PUBKEY) false false ].

(** ** What the claims say of a call *)



(** A cook or uncook instruction for the recipe [cookedData] of the store
    [h]: the mints and the quantities are those of the seeds in the order of
    the caller's array. *)
Definition use_instruction_of (h : heap) (feePayerPubkey cookedData tokenAccounts : value)
           (op : Z) (ix : TransactionInstruction) : Prop :=
  exists (sl : loc) (elems tokens : list value) (mints tokenKeys : list bytes)
         (qtys : list Z) (pdaV qtyV : value) (pdaKey : bytes) (salt : jsstring)
         (baseQty : Z),
    get h cookedData "seeds" = Ok (VRef sl)
    /\ h !! sl = Some (Arr elems)
    /\ mapM (seed_key h) elems = Ok mints
    /\ seed_amounts h elems = Ok qtys
    /\ get h cookedData "pda" = Ok pdaV
    /\ new_PublicKey pdaV = Ok pdaKey
    /\ get h cookedData "seedSalt" = Ok (VStr salt)
    /\ get h cookedData "qty_requested" = Ok qtyV
    /\ toBaseUnits qtyV 6 = Ok baseQty
    /\ 0 <= baseQty <= 2 ^ 64 - 1
    /\ iterate h tokenAccounts = Ok tokens
    /\ length tokens = (2 * length elems + 2)%nat
    /\ mapM new_PublicKey tokens = Ok tokenKeys
    /\ keys ix = use_accounts feePayerPubkey pdaKey
                 ++ map (fun m => meta (Key m) false false) mints
                 ++ map (fun k => meta (Key k) false true) tokenKeys
    /\ programId ix = PROGRAM_ID
    /\ data ix = spec_use_payload op qtys salt baseQty.

(** The payload of the instruction a call returned, if it returned one. *)
Definition payload_of (r : res TransactionInstruction) : option bytes :=
  match r with
  | Ok ix => Some (data ix)
  | _ => None
  end.

Definition use_payload_of (r : res (option TransactionInstruction)) : option bytes :=
  match r with
  | Ok (Some ix) => Some (data ix)
  | _ => None
  end.

(** [v] is a new object of the store [h'], a copy of the object [cookedData]
    of [h] whose seeds are a new array with the same elements, in ascending
    order of their mints. *)
Definition sorted_copy (h : heap) (cookedData : value) (h' : heap) (v : value) : Prop :=
  exists (l sl l' sl' : loc) (props : gmap string value) (elems sorted : list value),
    cookedData = VRef l /\ h !! l = Some (Obj props)
    /\ props !! "seeds" = Some (VRef sl) /\ h !! sl = Some (Arr elems)
    /\ v = VRef l' /\ h !! l' = None /\ h !! sl' = None /\ l' <> sl'
    /\ h' !! l' = Some (Obj (<["seeds" := VRef sl']> props))
    /\ h' !! sl' = Some (Arr sorted)
    /\ sorted ≡ₚ elems
    /\ (forall ks, mapM (seed_key h) sorted = Ok ks -> ascending ks).

(** The store [h'] is the store [h] with the seeds array of the object
    [cookedData] sorted and the property [pda] of that object set. *)
Definition sorted_in_place (h : heap) (cookedData : value) (h' : heap) : Prop :=
  exists (l sl : loc) (props : gmap string value) (elems sorted : list value)
         (address : jsstring),
    cookedData = VRef l /\ h !! l = Some (Obj props)
    /\ props !! "seeds" = Some (VRef sl) /\ h !! sl = Some (Arr elems)
    /\ sorted ≡ₚ elems
    /\ (forall ks, mapM (seed_key h) sorted = Ok ks -> ascending ks)
    /\ h' = <[l := Obj (<["pda" := VStr address]> props)]> (<[sl := Arr sorted]> h).

(** ** Further sample data and notions *)

(** The number a string of decimal digits stands for. *)
Definition decimal_value (s : jsstring) : Z :=
  number_of_digits 10 (map (fun c => c - 48) s).


(** The required field [field] of the object [props] is there and truthy. *)
Definition present (props : gmap string value) (field : string) : Prop :=
  truthy (default VUndef (props !! field)) = true.

Definition seed (mint : jsstring) (amount : string) : cell :=
  obj [ ("mint", VStr mint); ("amount_u64", VStr (lit amount)) ].

Definition long_salt (last : string) : value :=
  VStr (lit "0123456789abcdef0123456789abcdef" ++ lit last).

(** A store of recipes over the seeds of cells 3 and 4, given in cell 2 with
    the greater mint first: cell 1 has an empty name, cell 5 no salt, cell 6
    a number as its salt, cells 7 and 8 salts of 33 characters that differ
    in the last one, cell 9 no address, cell 10 no seed salt, cell 11 a seed
    with an empty mint, cell 14 the empty string as its salt; cell 17 asks
    for the quantity 0.07. *)
Definition pantry : heap :=
  list_to_map
    [ (1%positive, obj [ ("seeds", VRef 2); ("salt", VStr (lit "s"));
                         ("metadataCid", VStr (lit "cid"));
                         ("name", VStr []); ("symbol", VStr (lit "TST")) ]);
      (2%positive, Arr [VRef 3; VRef 4]);
      (3%positive, seed M2 "2000000");
      (4%positive, seed M3 "0001000000");
      (5%positive, obj [ ("seeds", VRef 2); ("metadataCid", VStr (lit "cid"));
                         ("name", VStr (lit "Test Recipe"));
                         ("symbol", VStr (lit "TST")) ]);
      (6%positive, obj [ ("seeds", VRef 2); ("salt", VNum (Float64.of_Z 7));
                         ("metadataCid", VStr (lit "cid"));
                         ("name", VStr (lit "Test Recipe"));
                         ("symbol", VStr (lit "TST")) ]);
      (7%positive, obj [ ("seeds", VRef 2); ("salt", long_salt "X");
                         ("metadataCid", VStr (lit "cid"));
                         ("name", VStr (lit "Test Recipe"));
                         ("symbol", VStr (lit "TST")) ]);
      (8%positive, obj [ ("seeds", VRef 2); ("salt", long_salt "Y");
                         ("metadataCid", VStr (lit "other"));
                         ("name", VStr (lit "Other Recipe"));
                         ("symbol", VStr (lit "OTH")) ]);
      (9%positive, obj [ ("seeds", VRef 2); ("seedSalt", VStr (lit "s"));
                         ("qty_requested", VStr (lit "1")) ]);
      (10%positive, obj [ ("pda", VStr PDA_A); ("seeds", VRef 2);
                          ("qty_requested", VStr (lit "1")) ]);
      (11%positive, obj [ ("seeds", VRef 12) ]);
      (12%positive, Arr [VRef 3; VRef 13]);
      (13%positive, obj [ ("mint", VStr []); ("amount_u64", VStr (lit "1")) ]);
      (14%positive, obj [ ("seeds", VRef 15); ("salt", VStr []);
                          ("metadataCid", VStr (lit "cid"));
                          ("name", VStr (lit "Test Recipe"));
                          ("symbol", VStr (lit "TST")) ]);
      (15%positive, Arr [VRef 3; VRef 4]);
      (16%positive, obj [ ("seeds", VStr (lit "not-an-array")) ]);
      (17%positive, cook_request 2 "0.07") ].

(** The address of the program for the seed [hash] and the nonce [nonce]. *)
Definition program_address (hash : bytes) (nonce : Z) : bytes :=
  sha256 (hash ++ [nonce] ++ PROGRAM_ID ++ utf8_encode (lit "ProgramDerivedAddress")).

(** What [findProgramAddressSync] looks for: the address for the greatest
    nonce of 1 to 255 that is no point of the curve. *)
Definition cook_address (isOnCurve : bytes -> bool) (r : CookPDA) : Prop :=
  length (sha256Hash r) = 32%nat
  /\ 1 <= bump r <= 255
  /\ pda r = program_address (sha256Hash r) (bump r)
  /\ length (pda r) = 32%nat
  /\ Forall is_byte (pda r)
  /\ isOnCurve (pda r) = false
  /\ forall n, bump r < n <= 255 ->
               isOnCurve (program_address (sha256Hash r) n) = true.

(** The bytes of a seed in the data that is hashed. *)
Definition chunk (s : bytes * Z) : bytes := fst s ++ le_bytes 8 (snd s).

(** ** The requested quantity as a decimal number *)

(** The decimal number [parseFloat] reads at the start of [q]: whether it
    has a minus sign, and the fraction [n / d] it stands for; [None] when
    [parseFloat] reads no number there, or reads Infinity. *)
Definition decimal_of (q : jsstring) : option (bool * Z * Z) :=
  let '(neg, u) := take_sign (trim_start q) in
  match StrUnsignedDecimalLiteral u with
  | Some (DFinite m e) =>
      if 0 <=? e then Some (neg, m * 10 ^ e, 1) else Some (neg, m, 10 ^ (- e))
  | _ => None
  end.

(** The quantity asked for: the decimal number of [q], not negative, scaled
    by 10^6 and truncated toward zero. *)
Definition scaled_and_truncated (q : jsstring) : option Z :=
  match decimal_of q with
  | Some (false, n, d) => Some (n * 10 ^ 6 / d)
  | _ => None
  end.

(** The product of the number read from [q] and 10^6, as binary64 computes
    it, is a number of integer part [t]. *)
Definition product_within (q : jsstring) (t : Z) : Prop :=
  let p := Float64.mul (parseFloat_string q) (Float64.of_Z (10 ^ 6)) in
  Float64.is_finite p = true
  /\ t * Float64.den p <= Float64.num p < (t + 1) * Float64.den p.

(** The string of [k] hundredths, for [k] below 100. *)
Definition hundredths (k : Z) : jsstring :=
  lit "0." ++ [48 + k / 10; 48 + k mod 10].

(** * Proofs *)

(** ** Reference values of the primitives *)

Example sha256_abc :
  sha256 (lit "abc")
  = of_hex (lit "ba7816bf8f01cfea414140de5dae2223b00361a396177a9cb410ff61f20015ad").
Proof. vm_compute. reflexivity. Qed.

Example sha256_empty :
  sha256 []
  = of_hex (lit "e3b0c44298fc1c149afbf4c8996fb92427ae41e4649b934ca495991b7852b855").
Proof. vm_compute. reflexivity. Qed.

Example sha256_two_blocks :
  sha256 (replicate 100 97)
  = of_hex (lit "2816597888e4a0d3a36b82b83316ab32680eb8f00f8cd3b904d681246d285a0e").
Proof. vm_compute. reflexivity. Qed.


Example base58_decode_mint :
  Base58.decode M1
  = Some (of_hex (lit "38615e5a0910055dbd412e99acdf47e68009d4a6c0ecd9fe076067df6c781673")).
Proof. vm_compute. reflexivity. Qed.

Example base58_round_trip : Base58.encode (default [] (Base58.decode M1)) = M1.
Proof. vm_compute. reflexivity. Qed.

Example base58_system_program : Base58.decode (replicate 32 49) = Some (replicate 32 0).
Proof. vm_compute. reflexivity. Qed.

Example utf8_samples :
  utf8_encode [0xE9; 0x20AC; 0xD83D; 0xDE00; 0xD800; 0x41]
  = of_hex (lit "c3a9e282acf09f9880efbfbd41").
Proof. vm_compute. reflexivity. Qed.

(** 0.1, the largest finite number, a tie that rounds to even, the smallest
    subnormal, and what is below half of it. *)
Example parseFloat_samples :
  map parseFloat_string
      [lit "0.1"; lit "1.7976931348623157e308"; lit "9007199254740993";
       lit "4.9e-324"; lit "2.4703282292062327e-324"; lit " -.5e1x"; lit "e5"]
  = [S754_finite false 7205759403792794 (-56);
     S754_finite false 9007199254740991 971;
     S754_finite false 4503599627370496 1;
     S754_finite false 1 (-1074);
     S754_zero false;
     S754_finite true 5629499534213120 (-50);
     S754_nan].
Proof. vm_compute. reflexivity. Qed.

Example StringToBigInt_samples :
  map StringToBigInt
      [lit "1000000"; lit " 12 "; lit "0x1f"; lit "-5"; lit ""; lit "1e3"; lit "1.0"]
  = [Some 1000000; Some 12; Some 31; Some (-5); Some 0; None; None].
Proof. vm_compute. reflexivity. Qed.

(** ** Bytes *)

Lemma length_le_bytes (n : nat) (x : Z) : length (le_bytes n x) = n.
Proof. revert x. induction n as [|n IH]; intros x; simpl; [reflexivity|]. now rewrite IH. Qed.

Lemma le_bytes_are_bytes (n : nat) (x : Z) : Forall is_byte (le_bytes n x).
Proof.
  revert x. induction n as [|n IH]; intros x; simpl; constructor.
  - unfold is_byte. apply Z.mod_pos_bound. lia.
  - apply IH.
Qed.

Lemma le_value_le_bytes (n : nat) (x : Z) :
  le_value (le_bytes n x) = x mod 256 ^ Z.of_nat n.
Proof.
  revert x. induction n as [|n IH]; intros x.
  - simpl. now rewrite Z.mod_1_r.
  - cbn [le_bytes le_value]. rewrite IH.
    rewrite Nat2Z.inj_succ, Z.pow_succ_r by lia.
    rewrite Z.rem_mul_r by lia. lia.
Qed.

Lemma le_bytes_round_trip (n : nat) (x : Z) :
  0 <= x < 256 ^ Z.of_nat n -> le_value (le_bytes n x) = x.
Proof. intros H. rewrite le_value_le_bytes. now apply Z.mod_small. Qed.

Lemma take_pad (u : bytes) :
  take 32 u ++ drop (length (take 32 u)) (replicate 32 0) = take 32 (u ++ replicate 32 0).
Proof.
  rewrite length_take, drop_replicate.
  destruct (Nat.le_gt_cases (length u) 32) as [Hle|Hgt].
  - rewrite (take_ge u) by lia. rewrite take_app_ge by lia.
    f_equal. rewrite take_replicate. f_equal. lia.
  - rewrite take_app_le by lia.
    replace (32 - 32 `min` length u)%nat with 0%nat by lia.
    apply app_nil_r.
Qed.

Lemma take_min_32 (u : bytes) (n : nat) :
  n = Nat.min 32 (length u) -> take n u = take 32 u.
Proof.
  intros ->. destruct (Nat.le_gt_cases (length u) 32) as [Hle|Hgt].
  - rewrite !take_ge by lia. reflexivity.
  - f_equal. lia.
Qed.

(** The salt field is the encoded salt cut or padded to 32 bytes. *)
Lemma salt_field_take (u : bytes) : salt_field u = take 32 (u ++ replicate 32 0).
Proof.
  unfold salt_field, Buffer_copy, Buffer_alloc.
  rewrite length_replicate, !Nat.sub_0_r, drop_0, Nat.add_0_l.
  change (take 0 (replicate 32 0)) with (@nil Z). rewrite app_nil_l.
  rewrite take_take, (take_min_32 u) by lia.
  apply take_pad.
Qed.

Lemma salt_field_spec (s : jsstring) : salt_field (utf8_encode s) = spec_salt s.
Proof. apply salt_field_take. Qed.

Lemma length_salt_field (u : bytes) : length (salt_field u) = 32%nat.
Proof.
  rewrite salt_field_take, length_take, length_app, length_replicate. lia.
Qed.



(** ** The order of keys and the sort *)

Lemma Buffer_compare_opp (a b : bytes) :
  Buffer_compare b a = CompOpp (Buffer_compare a b).
Proof.
  revert b. induction a as [|x a IH]; intros [|y b]; simpl; try reflexivity.
  rewrite (Z.compare_antisym x y).
  destruct (x ?= y); simpl; auto.
Qed.

Lemma key_le_total (a b : bytes) : key_le a b = false -> key_le b a = true.
Proof.
  unfold key_le. rewrite (Buffer_compare_opp a b).
  destruct (Buffer_compare a b); simpl; congruence.
Qed.

Lemma key_le_refl (a : bytes) : key_le a a = true.
Proof.
  unfold key_le. induction a as [|x a IH]; simpl; [reflexivity|].
  now rewrite Z.compare_refl.
Qed.

Lemma key_le_trans (a b c : bytes) :
  key_le a b = true -> key_le b c = true -> key_le a c = true.
Proof.
  unfold key_le. revert b c.
  induction a as [|x a IH]; intros [|y b] [|z c]; simpl; try congruence.
  destruct (Z.compare_spec x y), (Z.compare_spec y z), (Z.compare_spec x z);
    subst; try congruence; try lia; auto.
  apply IH.
Qed.

Lemma insert_seed_perm (x : bytes * value) (l : list (bytes * value)) :
  insert_seed x l ≡ₚ x :: l.
Proof.
  induction l as [|y l IH]; simpl; [reflexivity|].
  destruct (key_le (fst x) (fst y)); [reflexivity|].
  rewrite IH. apply perm_swap.
Qed.

Lemma sort_seeds_perm (l : list (bytes * value)) : sort_seeds l ≡ₚ l.
Proof.
  induction l as [|x l IH]; simpl; [reflexivity|].
  unfold sort_seeds in *. simpl. rewrite insert_seed_perm. now rewrite IH.
Qed.

Lemma insert_seed_sorted (x : bytes * value) (l : list (bytes * value)) :
  StronglySorted pair_le l -> StronglySorted pair_le (insert_seed x l).
Proof.
  induction 1 as [|y l Hs IH Hall]; simpl.
  - repeat constructor.
  - destruct (key_le (fst x) (fst y)) eqn:E.
    + constructor; [now constructor|].
      constructor; [exact E|].
      eapply Forall_impl; [exact Hall|].
      intros z Hz. unfold pair_le in *. eapply key_le_trans; eauto.
    + constructor; [exact IH|].
      rewrite insert_seed_perm. constructor; [|exact Hall].
      unfold pair_le. now apply key_le_total.
Qed.

Lemma sort_seeds_sorted (l : list (bytes * value)) :
  StronglySorted pair_le (sort_seeds l).
Proof.
  induction l as [|x l IH]; [constructor|].
  apply insert_seed_sorted. exact IH.
Qed.

Lemma sorted_fst (l : list (bytes * value)) :
  StronglySorted pair_le l -> ascending (map fst l).
Proof.
  unfold ascending. induction 1 as [|y l Hs IH Hall]; simpl; constructor; auto.
  rewrite Forall_map. exact Hall.
Qed.

(** The sort is stable: the seeds of one key keep their order. *)
Lemma insert_seed_stable (k : bytes) (x : bytes * value) (l : list (bytes * value)) :
  filter (fun p => fst p = k) (insert_seed x l)
  = filter (fun p => fst p = k) (x :: l).
Proof.
  induction l as [|y l IH]; [reflexivity|]. simpl.
  destruct (key_le (fst x) (fst y)) eqn:E; [reflexivity|].
  rewrite filter_cons, IH, !filter_cons.
  destruct (decide (fst y = k)) as [Hy|Hy]; [|reflexivity].
  destruct (decide (fst x = k)) as [Hx|Hx]; [|reflexivity].
  rewrite Hx, Hy, key_le_refl in E. discriminate.
Qed.

Lemma sort_seeds_stable (k : bytes) (l : list (bytes * value)) :
  filter (fun p => fst p = k) (sort_seeds l) = filter (fun p => fst p = k) l.
Proof.
  induction l as [|x l IH]; [reflexivity|].
  unfold sort_seeds in *. simpl. rewrite insert_seed_stable, !filter_cons, IH.
  reflexivity.
Qed.

(** ** Sequences of calls *)

Lemma mapM_Ok {A B : Type} (f : A -> res B) (l : list A) (ys : list B) :
  mapM f l = Ok ys <-> Forall2 (fun x y => f x = Ok y) l ys.
Proof.
  revert ys. induction l as [|x l IH]; intros ys; simpl.
  - split.
    + intros [= <-]. constructor.
    + intros H. inversion H. reflexivity.
  - split.
    + destruct (f x) as [y| |] eqn:E; try discriminate.
      destruct (mapM f l) as [ys'| |] eqn:E'; try discriminate.
      intros [= <-]. constructor; [exact E|]. now apply IH.
    + intros H. inversion H as [|? y ? ys' Hy Hys]; subst.
      rewrite Hy. apply IH in Hys. now rewrite Hys.
Qed.

Lemma mapM_length {A B : Type} (f : A -> res B) (l : list A) (ys : list B) :
  mapM f l = Ok ys -> length ys = length l.
Proof. intros H. apply mapM_Ok in H. symmetry. eapply Forall2_length; eauto. Qed.

Lemma mapM_app {A B : Type} (f : A -> res B) (l1 l2 : list A) (ys : list B) :
  mapM f (l1 ++ l2) = Ok ys ->
  exists y1 y2, mapM f l1 = Ok y1 /\ mapM f l2 = Ok y2 /\ ys = y1 ++ y2.
Proof.
  intros H. apply mapM_Ok in H. apply Forall2_app_inv_l in H as (y1 & y2 & H1 & H2 & ->).
  exists y1, y2. repeat split; now apply mapM_Ok.
Qed.

Lemma all_keys_Ok (rs : list (res bytes)) (ks : list bytes) :
  all_keys rs = Ok ks -> rs = map Ok ks.
Proof.
  revert ks. induction rs as [|r rs IH]; intros ks; simpl.
  - now intros [= <-].
  - destruct r as [k|e|]; destruct (all_keys rs) as [ks'|e'|] eqn:E;
      try discriminate.
    + intros [= <-]. simpl. f_equal. now apply IH.
    + destruct (decide (e = e')); discriminate.
Qed.

Lemma keys_of_defined (h : heap) (vs : list value) (ks : list bytes) :
  all_keys (map (seed_key h) vs) = Ok ks ->
  Forall2 (fun v k => seed_key h v = Ok k) vs ks.
Proof.
  intros H. apply all_keys_Ok in H. revert ks H.
  induction vs as [|v vs IH]; intros [|k ks]; simpl; try discriminate.
  - constructor.
  - intros [= Hk Hks]. constructor; auto.
Qed.

Lemma seed_key_undefined (h : heap) (vs : list value) (ks : list bytes) :
  mapM (seed_key h) (filter (fun v => is_undefined v = true) vs) = Ok ks ->
  filter (fun v => is_undefined v = true) vs = [].
Proof.
  destruct (filter (fun v => is_undefined v = true) vs) as [|v l] eqn:E; [reflexivity|].
  assert (Hv : v ∈ filter (fun v => is_undefined v = true) vs) by (rewrite E; left).
  apply list_elem_of_filter in Hv as [Hv _].
  destruct v; discriminate.
Qed.

Lemma filter_partition (vs : list value) :
  filter (fun v => is_undefined v = false) vs
  ++ filter (fun v => is_undefined v = true) vs ≡ₚ vs.
Proof.
  induction vs as [|v vs IH]; [reflexivity|].
  rewrite !filter_cons. destruct v; simpl;
    repeat case_decide; try congruence;
    try (simpl; now rewrite IH).
  rewrite <- Permutation_middle. now rewrite IH.
Qed.

Lemma map_snd_combine (ks : list bytes) (vs : list value) :
  length ks = length vs -> map snd (combine ks vs) = vs.
Proof.
  revert vs. induction ks as [|k ks IH]; intros [|v vs]; simpl; try discriminate; auto.
  intros [= H]. f_equal. now apply IH.
Qed.

Lemma Forall2_combine (h : heap) (vs : list value) (ks : list bytes) :
  Forall2 (fun v k => seed_key h v = Ok k) vs ks ->
  Forall (fun p => seed_key h (snd p) = Ok (fst p)) (combine ks vs).
Proof. induction 1; simpl; constructor; auto. Qed.

Lemma keys_of_pairs (h : heap) (l : list (bytes * value)) :
  Forall (fun p => seed_key h (snd p) = Ok (fst p)) l ->
  mapM (seed_key h) (map snd l) = Ok (map fst l).
Proof.
  intros H. apply mapM_Ok. induction H; simpl; constructor; auto.
Qed.

Lemma short_ascending (ks : list bytes) : (length ks < 2)%nat -> ascending ks.
Proof.
  destruct ks as [|k [|k' ks]]; simpl; intros H; try lia; repeat constructor.
Qed.

(** What the sort returns: the same elements, and in ascending order of
    their keys whenever all of them have one. *)
Lemma Array_sort_Ok (h : heap) (elems sorted : list value) :
  Array_sort h elems = Ok sorted ->
  sorted ≡ₚ elems
  /\ forall ks, mapM (seed_key h) sorted = Ok ks -> ascending ks.
Proof.
  unfold Array_sort.
  set (defined := filter (fun v => is_undefined v = false) elems).
  set (undefs := filter (fun v => is_undefined v = true) elems).
  destruct (Nat.ltb_spec (length defined) 2) as [Hlt|Hge].
  - intros [= <-]. split; [apply filter_partition|].
    intros ks Hks. apply mapM_app in Hks as (k1 & k2 & H1 & H2 & ->).
    apply seed_key_undefined in H2 as Hu. fold undefs in Hu. rewrite Hu in *.
    simpl in *. injection H2 as <-. rewrite app_nil_r.
    apply short_ascending. apply mapM_length in H1. lia.
  - destruct (all_keys (map (seed_key h) defined)) as [ks0| |] eqn:E; try discriminate.
    intros [= <-]. apply keys_of_defined in E.
    assert (Hlen : length ks0 = length defined)
      by (symmetry; eapply Forall2_length; eauto).
    split.
    + rewrite sort_seeds_perm, map_snd_combine by exact Hlen.
      apply filter_partition.
    + intros ks Hks. apply mapM_app in Hks as (k1 & k2 & H1 & H2 & ->).
      apply seed_key_undefined in H2 as Hu. fold undefs in Hu. rewrite Hu in *.
      simpl in *. injection H2 as <-. rewrite app_nil_r.
      rewrite keys_of_pairs in H1.
      * injection H1 as <-. apply sorted_fst, sort_seeds_sorted.
      * rewrite sort_seeds_perm. now apply Forall2_combine.
Qed.

(** ** Reading the store *)

(** Writing an array over an array changes no read of a property. *)
Lemma get_insert_Arr (h : heap) (sl : loc) (old new : list value) (v : value) (k : string) :
  h !! sl = Some (Arr old) -> get (<[sl := Arr new]> h) v k = get h v k.
Proof.
  intros Hsl. destruct v; simpl; try reflexivity.
  destruct (decide (sl = l)) as [->|Hne].
  - now rewrite lookup_insert_eq, Hsl.
  - now rewrite lookup_insert_ne.
Qed.

(** Setting one property changes no read of another. *)
Lemma get_insert_prop (h : heap) (l : loc) (props : gmap string value)
      (key : string) (x v : value) (k : string) :
  h !! l = Some (Obj props) -> k <> key ->
  get (<[l := Obj (<[key := x]> props)]> h) v k = get h v k.
Proof.
  intros Hl Hk. destruct v as [| | | | | |l0]; simpl; try reflexivity.
  destruct (decide (l = l0)) as [->|Hne].
  - rewrite lookup_insert_eq, Hl. now rewrite lookup_insert_ne.
  - now rewrite lookup_insert_ne.
Qed.

Lemma seed_amounts_agree (h h' : heap) (vs : list value) :
  agree h h' -> seed_amounts h' vs = seed_amounts h vs.
Proof.
  intros H. unfold seed_amounts. induction vs as [|v vs IH]; simpl; [reflexivity|].
  rewrite !H by discriminate. now rewrite IH.
Qed.

(** ** The checks *)

Lemma not_an_object_false (v : value) :
  not_an_object v = false -> exists l, v = VRef l.
Proof.
  destruct v as [| |b|x|z|s|l]; simpl; try discriminate; eauto.
  - destruct b; discriminate.
  - unfold not_an_object. simpl. rewrite orb_true_r. discriminate.
  - unfold not_an_object. simpl. rewrite orb_true_r. discriminate.
  - unfold not_an_object. simpl. rewrite orb_true_r. discriminate.
Qed.

(** A required field that is there makes the value an object of the store. *)
Lemma get_truthy (h : heap) (l : loc) (key : string) (v : value) :
  get h (VRef l) key = Ok v -> truthy v = true ->
  exists props, h !! l = Some (Obj props) /\ props !! key = Some v.
Proof.
  simpl. destruct (h !! l) as [[props|elems]|] eqn:E; try discriminate.
  - destruct (props !! key) as [x|] eqn:Ek; simpl; intros [= <-]; [eauto|discriminate].
  - intros [= <-]. discriminate.
Qed.

Lemma get_of_props (h : heap) (l : loc) (props : gmap string value) (key : string) :
  h !! l = Some (Obj props) -> get h (VRef l) key = Ok (default VUndef (props !! key)).
Proof. intros H. simpl. now rewrite H. Qed.

Lemma checked_seeds_Ok (h : heap) (cd : value) (sl : loc) (elems : list value) :
  checked_seeds h cd = Ok (sl, elems) ->
  get h cd "seeds" = Ok (VRef sl)
  /\ h !! sl = Some (Arr elems)
  /\ every_seed h elems = Ok true.
Proof.
  unfold checked_seeds. intros H.
  destruct (get h cd "seeds") as [seeds| |] eqn:Eg; try discriminate.
  destruct seeds as [| | | | | |l]; simpl in H; try discriminate.
  destruct (h !! l) as [[props|es]|] eqn:El; try discriminate.
  destruct (every_seed h es) as [[|]| |] eqn:Ee; try discriminate.
  injection H as <- <-. auto.
Qed.

Lemma check_required_Ok (h : heap) (cd : value) (fields : list string) :
  check_required h cd fields = Ok tt ->
  Forall (fun f => exists v, get h cd f = Ok v /\ truthy v = true) fields.
Proof.
  induction fields as [|f fields IH]; simpl; intros H; constructor.
  - destruct (get h cd f) as [v| |]; try discriminate.
    destruct (truthy v) eqn:E; try discriminate. eauto.
  - destruct (get h cd f) as [v| |]; try discriminate.
    destruct (truthy v); try discriminate. auto.
Qed.

Lemma validate_checks_Ok (h : heap) (cd : value) (sl : loc) (elems : list value) :
  validate_checks h cd = Ok (sl, elems) ->
  exists l props,
    cd = VRef l /\ h !! l = Some (Obj props)
    /\ props !! "seeds" = Some (VRef sl)
    /\ h !! sl = Some (Arr elems)
    /\ every_seed h elems = Ok true
    /\ is_Some (props !! "salt").
Proof.
  unfold validate_checks. intros H.
  destruct (not_an_object cd) eqn:En; try discriminate.
  apply not_an_object_false in En as [l ->].
  destruct (check_required h (VRef l) _) as [[]| |] eqn:Ec; try discriminate.
  apply check_required_Ok in Ec.
  apply Forall_cons in Ec as [(v & Hv & Ht) _].
  apply get_truthy in Hv as (props & Hl & Hs); [|exact Ht].
  simpl in H. rewrite Hl in H.
  destruct (bool_decide (is_Some (props !! "salt"))) eqn:Es; try discriminate.
  apply bool_decide_eq_true in Es.
  apply checked_seeds_Ok in H as (Hg & Hsl & He).
  rewrite (get_of_props h l props) in Hg by exact Hl.
  rewrite Hs in Hg. simpl in Hg. injection Hg as ->.
  exists l, props. auto 10.
Qed.

(** [validateCookedData] returns the caller's object, after it has sorted
    the caller's array and set the address in the caller's object. *)
Lemma validateCookedData_Ok (isOnCurve : bytes -> bool) (h h' : heap) (cd v : value) :
  validateCookedData isOnCurve h cd = (Ok v, h') ->
  exists l props sl elems sorted r,
    v = cd /\ cd = VRef l /\ h !! l = Some (Obj props)
    /\ props !! "seeds" = Some (VRef sl)
    /\ h !! sl = Some (Arr elems)
    /\ l <> sl
    /\ every_seed h elems = Ok true
    /\ Array_sort h elems = Ok sorted
    /\ derivePDAFromCookedData isOnCurve (<[sl := Arr sorted]> h) cd = Ok r
    /\ h' = <[l := Obj (<["pda" := VStr (toBase58 (pda r))]> props)]>
              (<[sl := Arr sorted]> h).
Proof.
  unfold validateCookedData. intros H.
  destruct (validate_checks h cd) as [[sl elems]| |] eqn:Ev; try discriminate.
  apply validate_checks_Ok in Ev as (l & props & -> & Hl & Hs & Hsl & He & _).
  destruct (Array_sort h elems) as [sorted| |] eqn:Ea; try discriminate.
  destruct (derivePDAFromCookedData _ _ _) as [r| |] eqn:Ed; try discriminate.
  assert (Hne : l <> sl) by (intros ->; congruence).
  unfold set in H. rewrite lookup_insert_ne, Hl in H by congruence.
  injection H as <- <-.
  exists l, props, sl, elems, sorted, r. auto 12.
Qed.

(** ** The encoders *)

Lemma writeBigUInt64LE_Ok (z : Z) (b : bytes) :
  writeBigUInt64LE z = Ok b -> 0 <= z <= 2 ^ 64 - 1 /\ b = le_bytes 8 z.
Proof.
  unfold writeBigUInt64LE. destruct (0 <=? z) eqn:E1; simpl; try discriminate.
  destruct (z <=? 18446744073709551615) eqn:E2; try discriminate.
  intros [= <-]. split; [lia|reflexivity].
Qed.

Lemma writeBigUInt64LE_in_range (z : Z) :
  0 <= z <= 2 ^ 64 - 1 -> writeBigUInt64LE z = Ok (le_bytes 8 z).
Proof.
  intros H. unfold writeBigUInt64LE.
  replace (0 <=? z) with true by (symmetry; apply Z.leb_le; lia).
  replace (z <=? 18446744073709551615) with true by (symmetry; apply Z.leb_le; lia).
  reflexivity.
Qed.

Lemma writeBigUInt64LE_out_of_range (z : Z) :
  z < 0 \/ 2 ^ 64 - 1 < z -> writeBigUInt64LE z = Throw RangeError.
Proof.
  intros H. unfold writeBigUInt64LE.
  destruct (0 <=? z) eqn:E1; simpl; [|reflexivity].
  destruct (z <=? 18446744073709551615) eqn:E2; [|reflexivity].
  lia.
Qed.

Lemma encodeU32_Ok (n : Z) (b : bytes) :
  encodeU32 n = Ok b -> 0 <= n <= 2 ^ 32 - 1 /\ b = le_bytes 4 n.
Proof.
  unfold encodeU32. destruct (0 <=? n) eqn:E1; simpl; try discriminate.
  destruct (n <=? 4294967295) eqn:E2; try discriminate.
  intros [= <-]. split; [lia|reflexivity].
Qed.


Lemma encode_amounts_Ok (qtys : list Z) (bs : list bytes) :
  mapM (fun a => encodeU64 (VBigInt a)) qtys = Ok bs ->
  bs = map (le_bytes 8) qtys /\ Forall (fun q => 0 <= q <= 2 ^ 64 - 1) qtys.
Proof.
  intros H. apply mapM_Ok in H.
  induction H as [|q b qtys bs Hq _ [IH1 IH2]]; [split; constructor|].
  simpl in Hq. apply writeBigUInt64LE_Ok in Hq as [Hr ->].
  split; [simpl; now f_equal|now constructor].
Qed.

Lemma amounts_and_salt_Ok (h : heap) (seeds : list value) (salt : value) (body : bytes) :
  amounts_and_salt h seeds salt = Ok body ->
  exists qtys s,
    seed_amounts h seeds = Ok qtys /\ salt = VStr s
    /\ Forall (fun q => 0 <= q <= 2 ^ 64 - 1) qtys
    /\ body = le_bytes 4 (Z.of_nat (length qtys)) ++ concat (map (le_bytes 8) qtys)
              ++ spec_salt s.
Proof.
  unfold amounts_and_salt. intros H.
  destruct (seed_amounts h seeds) as [qtys| |]; try discriminate.
  destruct (encodeU32 _) as [len| |] eqn:El; try discriminate.
  destruct (mapM _ qtys) as [bs| |] eqn:Eb; try discriminate.
  destruct salt as [| | | | |s|]; simpl in H; try discriminate.
  injection H as <-.
  apply encodeU32_Ok in El as [_ ->].
  apply encode_amounts_Ok in Eb as [-> Hr].
  exists qtys, s. rewrite salt_field_spec. auto.
Qed.

(** ** Keys *)

Lemma PublicKey_length (s : jsstring) (b : bytes) :
  PublicKey_of_string s = Ok b -> length b = 32%nat.
Proof.
  unfold PublicKey_of_string. destruct (Base58.decode s) as [d|]; try discriminate.
  destruct (Nat.eqb_spec (length d) 32); try discriminate. now intros [= <-].
Qed.

Lemma seed_key_length (h : heap) (v : value) (b : bytes) :
  seed_key h v = Ok b -> length b = 32%nat.
Proof.
  unfold seed_key. destruct (get h v "mint") as [m| |]; try discriminate.
  destruct m; simpl; try discriminate. apply PublicKey_length.
Qed.

Lemma length_be_bytes (n : nat) (x : Z) : length (be_bytes n x) = n.
Proof. unfold be_bytes. now rewrite length_rev, length_le_bytes. Qed.

Lemma length_sha256 (m : bytes) : length (sha256 m) = 32%nat.
Proof.
  unfold sha256, Sha256.digest, Sha256.output.
  rewrite !length_app, !length_be_bytes. reflexivity.
Qed.

(** ** The derivation *)

Lemma seed_chunk_Ok (h : heap) (v : value) (c : bytes) :
  seed_chunk h v = Ok c ->
  exists s, seed_in h v s /\ c = fst s ++ le_bytes 8 (snd s)
            /\ length (fst s) = 32%nat /\ 0 <= snd s <= 2 ^ 64 - 1.
Proof.
  unfold seed_chunk. intros H.
  destruct (seed_key h v) as [m| |] eqn:Ek; try discriminate.
  destruct (get h v "amount_u64") as [a| |] eqn:Ea; try discriminate.
  destruct (BigInt a) as [z| |] eqn:Ez; try discriminate.
  destruct (writeBigUInt64LE z) as [q| |] eqn:Ew; try discriminate.
  injection H as <-. apply writeBigUInt64LE_Ok in Ew as [Hr ->].
  exists (m, z). unfold seed_in. simpl.
  repeat split; eauto using seed_key_length; lia.
Qed.

Lemma seed_chunks_Ok (h : heap) (vs : list value) (cs : list bytes) :
  mapM (seed_chunk h) vs = Ok cs ->
  exists seeds,
    Forall2 (seed_in h) vs seeds
    /\ cs = map (fun s => fst s ++ le_bytes 8 (snd s)) seeds
    /\ Forall (fun s => length (fst s) = 32%nat /\ 0 <= snd s <= 2 ^ 64 - 1) seeds.
Proof.
  intros H. apply mapM_Ok in H.
  induction H as [|v c vs cs Hc _ (seeds & H1 & H2 & H3)].
  - exists []. repeat split; constructor.
  - apply seed_chunk_Ok in Hc as (s & Hs & -> & Hl & Hr).
    exists (s :: seeds). repeat split.
    + now constructor.
    + simpl. now f_equal.
    + now constructor.
Qed.

Lemma seeds_keys (h : heap) (vs : list value) (seeds : list (bytes * Z)) :
  Forall2 (seed_in h) vs seeds -> mapM (seed_key h) vs = Ok (map fst seeds).
Proof.
  intros H. apply mapM_Ok. induction H as [|v s vs seeds [Hk _] _ IH]; simpl;
    constructor; auto.
Qed.

Lemma seeds_amounts (h : heap) (vs : list value) (seeds : list (bytes * Z)) :
  Forall2 (seed_in h) vs seeds -> seed_amounts h vs = Ok (map snd seeds).
Proof.
  intros H. apply mapM_Ok.
  induction H as [|v s vs seeds [_ (a & Ha & Hb)] _ IH]; simpl; constructor; auto.
  now rewrite Ha.
Qed.

Lemma derive_concatenated_Ok (h : heap) (cd : value) (m : bytes) :
  derive_concatenated h cd = Ok m ->
  exists (sl : loc) (elems sorted : list value) (salt : jsstring)
         (seeds : list (bytes * Z)),
    get h cd "seeds" = Ok (VRef sl)
    /\ h !! sl = Some (Arr elems)
    /\ get h cd "salt" = Ok (VStr salt)
    /\ Array_sort h elems = Ok sorted
    /\ Forall2 (seed_in h) sorted seeds
    /\ Forall (fun s => length (fst s) = 32%nat /\ 0 <= snd s <= 2 ^ 64 - 1) seeds
    /\ m = spec_preimage seeds salt.
Proof.
  unfold derive_concatenated. intros H.
  destruct (get h cd "seeds") as [seedsV| |] eqn:Eg; try discriminate.
  destruct seedsV as [| | | | | |sl]; simpl in H; try discriminate.
  destruct (h !! sl) as [[props|elems]|] eqn:Esl; try discriminate.
  destruct (get h cd "salt") as [saltV| |] eqn:Es; try discriminate.
  destruct saltV as [| | | | |salt|]; try discriminate.
  destruct (Array_sort h elems) as [sorted| |] eqn:Ea; try discriminate.
  destruct (mapM (seed_chunk h) sorted) as [cs| |] eqn:Ec; try discriminate.
  injection H as <-.
  apply seed_chunks_Ok in Ec as (seeds & H1 & -> & H3).
  exists sl, elems, sorted, salt, seeds.
  rewrite salt_field_spec. unfold spec_preimage. auto 10.
Qed.

Lemma derive_Ok (isOnCurve : bytes -> bool) (h : heap) (cd : value) (r : CookPDA) :
  derivePDAFromCookedData isOnCurve h cd = Ok r ->
  exists m, derive_concatenated h cd = Ok m /\ sha256Hash r = sha256 m.
Proof.
  unfold derivePDAFromCookedData. intros H.
  destruct (derive_concatenated h cd) as [m| |]; try discriminate.
  destruct (findProgramAddressSync _ _ _) as [[a b]| |]; try discriminate.
  injection H as <-. eauto.
Qed.

(** ** Cook and uncook *)

Lemma validateCookedDataForCooking_Ok (h : heap) (cd v : value) :
  validateCookedDataForCooking h cd = Ok v ->
  v = cd
  /\ exists l props sl elems,
      cd = VRef l /\ h !! l = Some (Obj props)
      /\ props !! "seeds" = Some (VRef sl)
      /\ h !! sl = Some (Arr elems)
      /\ every_seed h elems = Ok true.
Proof.
  unfold validateCookedDataForCooking. intros H.
  destruct (not_an_object cd) eqn:En; try discriminate.
  apply not_an_object_false in En as [l ->].
  destruct (check_required h (VRef l) _) as [[]| |] eqn:Ec; try discriminate.
  apply check_required_Ok in Ec.
  apply Forall_cons in Ec as [_ Ec]. apply Forall_cons in Ec as [(s & Hs & Ht) _].
  apply get_truthy in Hs as (props & Hl & Hs); [|exact Ht].
  destruct (has h (VRef l) "seedSalt") as [[|]| |]; try discriminate.
  destruct (checked_seeds h (VRef l)) as [[sl elems]| |] eqn:Ek; try discriminate.
  injection H as <-. split; [reflexivity|].
  apply checked_seeds_Ok in Ek as (Hg & Hsl & He).
  rewrite (get_of_props h l props) in Hg by exact Hl.
  rewrite Hs in Hg. injection Hg as ->.
  exists l, props, sl, elems. auto.
Qed.

(** Every seed that passed the check has an account. *)
Lemma seed_accounts_all (h : heap) (elems : list value) (accs : list AccountMeta) :
  every_seed h elems = Ok true ->
  seed_accounts h elems = Ok accs ->
  exists mints,
    mapM (seed_key h) elems = Ok mints
    /\ accs = map (fun m => meta (Key m) false false) mints.
Proof.
  revert accs. induction elems as [|s elems IH]; intros accs He Ha; simpl in *.
  - injection Ha as <-. exists []. auto.
  - unfold seed_key at 1.
    destruct (get h s "mint") as [mint| |]; try discriminate.
    destruct (truthy mint); try discriminate.
    destruct (get h s "amount_u64") as [amount| |]; try discriminate.
    destruct (is_undefined amount); try discriminate.
    destruct (new_PublicKey mint) as [key| |]; try discriminate.
    destruct (seed_accounts h elems) as [rest| |]; try discriminate.
    injection Ha as <-.
    destruct (IH rest He eq_refl) as (mints & Hm & ->).
    rewrite Hm. exists (key :: mints). auto.
Qed.

Lemma iterate_length (h : heap) (v : value) (vs : list value) (n : option Z) :
  iterate h v = Ok vs -> length_of h v = Ok n -> n = Some (Z.of_nat (length vs)).
Proof.
  destruct v as [| | | | | |l]; simpl; try discriminate.
  destruct (h !! l) as [[props|es]|]; try discriminate.
  intros [= <-] [= <-]. reflexivity.
Qed.

Lemma same_number_true (a b : option Z) :
  same_number a b = true -> exists x, a = Some x /\ b = Some x.
Proof.
  destruct a as [x|], b as [y|]; simpl; try discriminate.
  intros H. apply Z.eqb_eq in H as ->. eauto.
Qed.

Lemma opcode_Some (opt : value) (op : Z) :
  opcode opt = Some op <-> (op = 2 \/ op = 3) /\ is_number opt op.
Proof.
  unfold opcode, is_number. split.
  - destruct opt as [| | |x| | |]; try discriminate.
    destruct (Float64.to_int x) as [[|[[|[]|]|[]|]|]|] eqn:E; try discriminate;
      intros [= <-]; eauto.
  - intros [Hop (x & -> & Hx)]. rewrite Hx. destruct Hop as [-> | ->]; reflexivity.
Qed.

Lemma opcode_None (opt : value) :
  opcode opt = None <-> ~ is_number opt 2 /\ ~ is_number opt 3.
Proof.
  split.
  - intros H. split; intros Hn.
    + assert (E : opcode opt = Some 2) by (apply opcode_Some; auto). congruence.
    + assert (E : opcode opt = Some 3) by (apply opcode_Some; auto). congruence.
  - intros [H2 H3]. destruct (opcode opt) as [op|] eqn:E; [|reflexivity].
    apply opcode_Some in E as [[-> | ->] Hn]; contradiction.
Qed.

Lemma encodeU64_BigInt_Ok (z : Z) (b : bytes) :
  encodeU64 (VBigInt z) = Ok b -> 0 <= z <= 2 ^ 64 - 1 /\ b = le_bytes 8 z.
Proof. apply writeBigUInt64LE_Ok. Qed.

(** The instruction [useRecipe] returns, when it returns one. *)
Lemma useRecipe_Ok (h : heap) (payer cd tokens opt : value) (ix : TransactionInstruction) :
  useRecipe h payer cd tokens opt = Ok (Some ix) ->
  exists op, opcode opt = Some op /\ use_instruction_of h payer cd tokens op ix.
Proof.
  unfold useRecipe. intros H.
  destruct (opcode opt) as [op|] eqn:Eo; try discriminate.
  exists op. split; [reflexivity|].
  destruct (validateCookedDataForCooking h cd) as [v| |] eqn:Ev; try discriminate.
  apply validateCookedDataForCooking_Ok in Ev
    as (-> & l & props & sl & elems & -> & Hl & Hs & Hsl & He).
  destruct (get h (VRef l) "pda") as [pdaV| |] eqn:Ep; try discriminate.
  rewrite (get_of_props h l props), Hs in H by exact Hl.
  change (default VUndef (Some (VRef sl))) with (VRef sl) in H.
  destruct (get h (VRef l) "seedSalt") as [saltV| |] eqn:Es; try discriminate.
  destruct (length_of h tokens) as [alen| |] eqn:El; try discriminate.
  destruct (length_of h (VRef sl)) as [slen| |] eqn:El'; try discriminate.
  destruct (same_number alen _) eqn:En; try discriminate.
  destruct (new_PublicKey pdaV) as [pdaKey| |] eqn:Ek; try discriminate.
  simpl in H, El'. rewrite Hsl in H, El'. injection El' as <-.
  destruct (seed_accounts h elems) as [accs| |] eqn:Ea; try discriminate.
  destruct (amounts_and_salt h elems saltV) as [body| |] eqn:Eb; try discriminate.
  destruct (match h !! l with Some (Obj p) => _ | _ => _ end) as [qtyV| |] eqn:Eq;
    try discriminate.
  destruct (toBaseUnits qtyV 6) as [baseQty| |] eqn:Et; try discriminate.
  destruct (encodeU64 (VBigInt baseQty)) as [qbuf| |] eqn:Ew; try discriminate.
  destruct (iterate h tokens) as [toks| |] eqn:Ei; try discriminate.
  destruct (mapM new_PublicKey toks) as [tokenKeys| |] eqn:Em; try discriminate.
  injection H as <-.
  apply seed_accounts_all in Ea as (mints & Hm & ->); [|exact He].
  apply amounts_and_salt_Ok in Eb as (qtys & salt & Hq & -> & _ & ->).
  apply encodeU64_BigInt_Ok in Ew as [Hr ->].
  apply same_number_true in En as (x & -> & [= <-]).
  apply (iterate_length _ _ _ _ Ei) in El. injection El as El.
  exists sl, elems, toks, mints, tokenKeys, qtys, pdaV, qtyV, pdaKey, salt, baseQty.
  split; [rewrite (get_of_props h l props), Hs by exact Hl; reflexivity|].
  split; [exact Hsl|]. split; [exact Hm|]. split; [exact Hq|].
  split; [exact Ep|]. split; [exact Ek|]. split; [exact Es|].
  split; [exact Eq|]. split; [exact Et|]. split; [exact Hr|].
  split; [exact Ei|]. split; [lia|]. split; [exact Em|].
  cbn [keys programId data]. split; [reflexivity|].
  split; [reflexivity|].
  unfold spec_use_payload. now rewrite <- !app_assoc.
Qed.

(** ** The conversion of the requested quantity *)





(** ** The decimal number of a quantity string *)






(** [parseFloat] gives the binary64 number nearest to the decimal number. *)
Lemma parseFloat_decimal (q : jsstring) (neg : bool) (n d : Z) :
  decimal_of q = Some (neg, n, d) ->
  parseFloat_string q = Float64.of_ratio neg n d.
Proof.
  unfold decimal_of, parseFloat_string.
  destruct (take_sign (trim_start q)) as [sg u].
  destruct (StrUnsignedDecimalLiteral u) as [[|m e]|]; try discriminate.
  destruct (0 <=? e); now intros [= <- <- <-].
Qed.


(** ** The encoder of 64-bit integers *)

Lemma BigInt_denotes (v : value) (x : Z) : denotes v x -> BigInt v = Ok x.
Proof.
  intros [->|(d & -> & Hd)]; simpl; [reflexivity|]. now rewrite Hd.
Qed.

(** C9: for every integer [x] of [0, 2^64 - 1], given as a big integer or as
    a number, [encodeU64] yields exactly 8 bytes whose little-endian value is
    [x]; for every negative [x] and every [x] above [2^64 - 1] it raises a
    RangeError. *)
Theorem encodeU64_round_trip (v : value) (x : Z) :
  denotes v x ->
  (0 <= x <= 2 ^ 64 - 1 ->
   exists bs, encodeU64 v = Ok bs /\ length bs = 8%nat
              /\ Forall is_byte bs /\ le_value bs = x)
  /\ (x < 0 \/ 2 ^ 64 - 1 < x -> encodeU64 v = Throw RangeError).
Proof.
  intros Hv. apply BigInt_denotes in Hv. unfold encodeU64. rewrite Hv. split.
  - intros Hx. exists (le_bytes 8 x). split; [now apply writeBigUInt64LE_in_range|].
    split; [apply length_le_bytes|]. split; [apply le_bytes_are_bytes|].
    apply le_bytes_round_trip. change (256 ^ Z.of_nat 8) with (2 ^ 64). lia.
  - apply writeBigUInt64LE_out_of_range.
Qed.

Lemma encodeU64_round_trip_witness :
  (exists bs, encodeU64 (VBigInt 1000000) = Ok bs /\ length bs = 8%nat
              /\ Forall is_byte bs /\ le_value bs = 1000000)
  /\ encodeU64 (VNum (Float64.of_Z (-1))) = Throw RangeError
  /\ encodeU64 (VBigInt (2 ^ 64)) = Throw RangeError.
Proof.
  split; [|split].
  - apply (encodeU64_round_trip (VBigInt 1000000) 1000000); [left; reflexivity|lia].
  - apply (encodeU64_round_trip (VNum (Float64.of_Z (-1))) (-1)); [|lia].
    right. eexists. split; [reflexivity|vm_compute; reflexivity].
  - apply (encodeU64_round_trip (VBigInt (2 ^ 64)) (2 ^ 64)); [left; reflexivity|lia].
Defined.

(** ** The salt field *)



(** Eleven euro signs are 33 bytes: the field stops inside the last one. *)
Example salt_field_splits_a_character :
  salt_field (utf8_encode (replicate 11 0x20AC))
  = concat (replicate 10 [0xE2; 0x82; 0xAC]) ++ [0xE2; 0x82].
Proof. vm_compute. reflexivity. Qed.

(** ** The digest of the derivation *)




(** ** The payload of a create instruction *)

(** Nothing but the array of the seeds and the address has changed in the
    store [validateCookedData] leaves. *)
Lemma validated_agree (h : heap) (l sl : loc) (props : gmap string value)
      (elems sorted : list value) (x : value) :
  h !! l = Some (Obj props) -> h !! sl = Some (Arr elems) -> l <> sl ->
  agree h (<[l := Obj (<["pda" := x]> props)]> (<[sl := Arr sorted]> h)).
Proof.
  intros Hl Hsl Hne v k Hk.
  rewrite get_insert_prop.
  - now apply (get_insert_Arr h sl elems sorted).
  - now rewrite lookup_insert_ne.
  - exact Hk.
Qed.




(** The payload for the valid input of the tests. *)
Example createRecipe_payload_A :
  payload_of (fst (createRecipe Ed25519.isOnCurve recipe_A payer (VRef 1)))
  = Some (spec_create_payload [1000000] (lit "random-salt") (lit "Test Recipe")
            (lit "TST") (lit "https://ipfs.io/ipfs/some-metadata-cid")).
Proof. vm_compute. reflexivity. Qed.

(** The tests of the repository: the three invalid inputs of
    tests/createRecipe.test.js with the messages they expect, the valid one
    with its list of accounts, and the two tests of [findCookPDA]. *)
Example test_missing_fields :
  fst (createRecipe Ed25519.isOnCurve kitchen payer (VRef 14))
  = Throw (Error "Invalid cookedData: Missing required field 'seeds'.").
Proof. vm_compute. reflexivity. Qed.

Example test_seeds_not_an_array :
  fst (createRecipe Ed25519.isOnCurve kitchen payer (VRef 16))
  = Throw (Error "Invalid cookedData: 'seeds' must be an array.").
Proof. vm_compute. reflexivity. Qed.

Example test_seed_without_amount :
  fst (createRecipe Ed25519.isOnCurve kitchen payer (VRef 17))
  = Throw (Error "Invalid cookedData: Each seed must have 'mint' and 'amount_u64'.").
Proof. vm_compute. reflexivity. Qed.

Example test_valid_input :
  match fst (createRecipe Ed25519.isOnCurve recipe_A payer (VRef 1)) with
  | Ok ix => Some (length (keys ix))
  | _ => None
  end = Some 10%nat.
Proof. vm_compute. reflexivity. Qed.

Example test_findCookPDA :
  match findCookPDA Ed25519.isOnCurve (replicate 32 1) (VStr (lit "random-salt")) with
  | Ok r => Some (length (sha256Hash r), 0 <=? bump r, negb (Ed25519.isOnCurve (pda r)))
  | _ => None
  end = Some (32%nat, true, true).
Proof. vm_compute. reflexivity. Qed.

Example test_findCookPDA_salts :
  match findCookPDA Ed25519.isOnCurve (replicate 32 1) (VStr (lit "salt1")),
        findCookPDA Ed25519.isOnCurve (replicate 32 1) (VStr (lit "salt2")) with
  | Ok r1, Ok r2 => Some (bool_decide (pda r1 = pda r2))
  | _, _ => None
  end = Some false.
Proof. vm_compute. reflexivity. Qed.

(** ** The instruction of [useRecipe] *)

(** C10: for every option that is neither the number 2 nor the number 3
    [useRecipe] throws, whatever the store and the other arguments are; and
    the first byte of the payload of an instruction it returns for the
    option 2 or 3 is that option. *)
Theorem useRecipe_option (h : heap) (feePayerPubkey cookedData tokenAccounts opt : value) :
  (~ is_number opt 2 /\ ~ is_number opt 3 ->
   useRecipe h feePayerPubkey cookedData tokenAccounts opt
   = Throw (Error "âŒ Invalid option. Must be 0x02 (cook) or 0x03 (uncook)."))
  /\ (forall n ix,
         n = 2 \/ n = 3 -> is_number opt n ->
         useRecipe h feePayerPubkey cookedData tokenAccounts opt = Ok (Some ix) ->
         exists rest, data ix = n :: rest).
Proof.
  split.
  - intros H. apply opcode_None in H. unfold useRecipe. now rewrite H.
  - intros n ix Hn Ho H.
    assert (E : opcode opt = Some n) by (apply opcode_Some; auto).
    apply useRecipe_Ok in H as (op & Eo & Hu).
    rewrite E in Eo. injection Eo as <-.
    destruct Hu as (sl & elems & toks & mints & tokenKeys & qtys & pdaV & qtyV
                    & pdaKey & salt & baseQty & Hu).
    decompose [and] Hu. eexists. eassumption.
Qed.

Lemma useRecipe_option_witness :
  useRecipe kitchen payer (VRef 7) (VRef 8) (VNum (Float64.of_Z 1))
  = Throw (Error "âŒ Invalid option. Must be 0x02 (cook) or 0x03 (uncook).")
  /\ useRecipe ∅ VUndef VUndef VUndef (VStr (lit "2"))
     = Throw (Error "âŒ Invalid option. Must be 0x02 (cook) or 0x03 (uncook).")
  /\ exists ix rest,
      useRecipe kitchen payer (VRef 7) (VRef 8) uncook = Ok (Some ix)
      /\ data ix = 3 :: rest.
Proof.
  split; [|split].
  - apply (proj1 (useRecipe_option kitchen payer (VRef 7) (VRef 8) _)).
    split; intros (x & [= <-] & Hx); vm_compute in Hx; discriminate.
  - apply (proj1 (useRecipe_option ∅ VUndef VUndef VUndef _)).
    split; intros (x & Hx & _); discriminate.
  - assert (E : { ix | useRecipe kitchen payer (VRef 7) (VRef 8) uncook = Ok (Some ix) })
      by (eexists; vm_compute; reflexivity).
    destruct E as [ix E]. exists ix.
    destruct (proj2 (useRecipe_option kitchen payer (VRef 7) (VRef 8) uncook) 3 ix)
      as [rest Hr]; [auto| |exact E|eauto].
    eexists. split; [reflexivity|vm_compute; reflexivity].
Defined.

(** The two seeds of the sample store: the mint of cell 3 is the greater. *)
Example mint_order :
  (let* hi := seed_key kitchen (VRef 3) in
   let* lo := seed_key kitchen (VRef 4) in
   Ok (Buffer_compare hi lo))
  = Ok Gt.
Proof. vm_compute. reflexivity. Qed.

(** What C4 fails on: the seeds given with the greater mint first keep that
    order in the payload, and the same seeds given in the other order make
    another payload. *)
Lemma useRecipe_order_counterexample :
  (let* hi := seed_key kitchen (VRef 3) in
   let* lo := seed_key kitchen (VRef 4) in
   Ok (Buffer_compare hi lo)) = Ok Gt
  /\ get kitchen (VRef 7) "seeds" = Ok (VRef 2)
  /\ kitchen !! 2%positive = Some (Arr [VRef 3; VRef 4])
  /\ use_payload_of (useRecipe kitchen payer (VRef 7) (VRef 8) cook)
     = Some (spec_use_payload 2 [2000000; 1000000] (lit "random-salt") 2500000)
  /\ get kitchen (VRef 10) "seeds" = Ok (VRef 11)
  /\ kitchen !! 11%positive = Some (Arr [VRef 4; VRef 3])
  /\ use_payload_of (useRecipe kitchen payer (VRef 10) (VRef 8) cook)
     = Some (spec_use_payload 2 [1000000; 2000000] (lit "random-salt") 2500000)
  /\ bool_decide (use_payload_of (useRecipe kitchen payer (VRef 7) (VRef 8) cook)
                  = use_payload_of (useRecipe kitchen payer (VRef 10) (VRef 8) cook))
     = false.
Proof. vm_compute. repeat split; reflexivity. Qed.

Lemma quantity_at (qtys : list Z) (k : nat) (q : Z) (rest : bytes) :
  qtys !! k = Some q ->
  take 8 (drop (8 * k) (concat (map (le_bytes 8) qtys) ++ rest)) = le_bytes 8 q.
Proof.
  revert k. induction qtys as [|q0 qtys IH]; intros [|k] H; try discriminate.
  - injection H as ->. cbn [map concat]. rewrite Nat.mul_0_r, drop_0, <- app_assoc.
    now rewrite take_app_length' by (now rewrite length_le_bytes).
  - cbn [map concat]. rewrite <- app_assoc.
    replace (8 * S k)%nat with (8 + 8 * k)%nat by lia.
    rewrite drop_app_add' by (now rewrite length_le_bytes).
    now apply IH.
Qed.

Lemma amount_at (h : heap) (elems : list value) (qtys : list Z) (k : nat) (v : value) :
  seed_amounts h elems = Ok qtys -> elems !! k = Some v ->
  exists a q, get h v "amount_u64" = Ok a /\ BigInt a = Ok q /\ qtys !! k = Some q.
Proof.
  intros H Hk. apply mapM_Ok in H.
  destruct (Forall2_lookup_l _ _ _ _ _ H Hk) as (q & Hq & Hv).
  destruct (get h v "amount_u64") as [a| |]; try discriminate. eauto.
Qed.

Lemma mint_at (h : heap) (elems : list value) (mints : list bytes) (k : nat) (v : value) :
  mapM (seed_key h) elems = Ok mints -> elems !! k = Some v ->
  exists m, seed_key h v = Ok m /\ mints !! k = Some m.
Proof.
  intros H Hk. apply mapM_Ok in H.
  destruct (Forall2_lookup_l _ _ _ _ _ H Hk) as (m & Hm & Hv). eauto.
Qed.

(** C4, amended: in the instruction [useRecipe] returns, the seeds keep the
    order of the caller's array: the seed at index [k] of the array has its
    mint in the account at index [7 + k] and its quantity in the 8 bytes of
    the payload at offset [5 + 8 k]; nothing is sorted. *)
Theorem useRecipe_keeps_caller_order (h : heap)
        (feePayerPubkey cookedData tokenAccounts opt : value)
        (ix : TransactionInstruction) :
  useRecipe h feePayerPubkey cookedData tokenAccounts opt = Ok (Some ix) ->
  exists sl elems,
    get h cookedData "seeds" = Ok (VRef sl)
    /\ h !! sl = Some (Arr elems)
    /\ take 4 (drop 1 (data ix)) = le_bytes 4 (Z.of_nat (length elems))
    /\ forall k v,
        elems !! k = Some v ->
        exists s,
          seed_in h v s
          /\ keys ix !! (7 + k)%nat = Some (meta (Key (fst s)) false false)
          /\ take 8 (drop (5 + 8 * k) (data ix)) = le_bytes 8 (snd s).
Proof.
  intros H. apply useRecipe_Ok in H as (op & _ & Hu).
  destruct Hu as (sl & elems & toks & mints & tokenKeys & qtys & pdaV & qtyV
                  & pdaKey & salt & baseQty & Hg & Hsl & Hm & Hq & _ & _ & _ & _
                  & _ & _ & _ & _ & _ & Hk & _ & Hd).
  exists sl, elems. split; [exact Hg|]. split; [exact Hsl|].
  assert (Hlen : length qtys = length elems) by (eapply mapM_length; eauto).
  rewrite Hd. unfold spec_use_payload. split.
  - cbn [app drop]. rewrite drop_0, Hlen.
    now rewrite take_app_length' by (now rewrite length_le_bytes).
  - intros k v Hv.
    destruct (mint_at _ _ _ _ _ Hm Hv) as (m & Hm1 & Hm2).
    destruct (amount_at _ _ _ _ _ Hq Hv) as (a & q & Ha & Hb & Hq2).
    exists (m, q). split; [split; eauto|]. split.
    + rewrite Hk. unfold use_accounts.
      rewrite lookup_app_r by (simpl; lia).
      replace (7 + k - length _)%nat with k by (simpl; lia).
      rewrite lookup_app_l by (rewrite length_map; now apply lookup_lt_Some in Hm2).
      rewrite list_lookup_fmap, Hm2. reflexivity.
    + cbn [fst snd].
      change ([op] ++ le_bytes 4 (Z.of_nat (length qtys)) ++ ?r)
        with (([op] ++ le_bytes 4 (Z.of_nat (length qtys))) ++ r).
      rewrite drop_app_add' by (rewrite length_app, length_le_bytes; reflexivity).
      now apply quantity_at.
Qed.

Lemma useRecipe_keeps_caller_order_witness :
  exists ix,
    useRecipe kitchen payer (VRef 7) (VRef 8) cook = Ok (Some ix)
    /\ take 8 (drop 5 (data ix)) = le_bytes 8 2000000
    /\ take 8 (drop 13 (data ix)) = le_bytes 8 1000000.
Proof.
  assert (E : { ix | useRecipe kitchen payer (VRef 7) (VRef 8) cook = Ok (Some ix) })
    by (eexists; vm_compute; reflexivity).
  destruct E as [ix E]. exists ix. split; [exact E|].
  destruct (useRecipe_keeps_caller_order kitchen payer (VRef 7) (VRef 8) cook ix E)
    as (sl & elems & Hg & Hsl & _ & H).
  vm_compute in Hg. injection Hg as <-.
  vm_compute in Hsl. injection Hsl as <-.
  split.
  - destruct (H 0%nat (VRef 3) eq_refl) as ([m q] & [_ (a & Ha & Hb)] & _ & Hd).
    vm_compute in Ha. injection Ha as <-. vm_compute in Hb. injection Hb as <-.
    exact Hd.
  - destruct (H 1%nat (VRef 4) eq_refl) as ([m q] & [_ (a & Ha & Hb)] & _ & Hd).
    vm_compute in Ha. injection Ha as <-. vm_compute in Hb. injection Hb as <-.
    exact Hd.
Defined.

(** What C3 fails on: with four token accounts for two seeds [useRecipe]
    returns [null], where six accounts give an instruction. *)
Lemma useRecipe_mismatch_counterexample :
  length_of kitchen (VRef 9) = Ok (Some 4)
  /\ (let* seeds := get kitchen (VRef 7) "seeds" in length_of kitchen seeds)
     = Ok (Some 2)
  /\ use_payload_of (useRecipe kitchen payer (VRef 7) (VRef 8) cook)
     = Some (spec_use_payload 2 [2000000; 1000000] (lit "random-salt") 2500000)
  /\ useRecipe kitchen payer (VRef 7) (VRef 9) cook = Ok None.
Proof. vm_compute. repeat split; reflexivity. Qed.

(** C3, amended: when the option is 2 or 3 and the recipe passes the
    validation, a token account list whose length is not twice the number of
    seeds plus two makes [useRecipe] return [null]: no error is raised and
    no instruction is built. *)
Theorem useRecipe_count_mismatch (h : heap)
        (feePayerPubkey cookedData tokenAccounts opt : value)
        (sl : loc) (elems : list value) (n : option Z) :
  is_number opt 2 \/ is_number opt 3 ->
  validateCookedDataForCooking h cookedData = Ok cookedData ->
  get h cookedData "seeds" = Ok (VRef sl) ->
  h !! sl = Some (Arr elems) ->
  length_of h tokenAccounts = Ok n ->
  n <> Some (2 * Z.of_nat (length elems) + 2) ->
  useRecipe h feePayerPubkey cookedData tokenAccounts opt = Ok None.
Proof.
  intros Ho Hv Hg Hsl Hn Hne.
  assert (exists op, opcode opt = Some op) as [op Eo].
  { destruct Ho; eexists; apply opcode_Some; eauto. }
  unfold useRecipe. rewrite Eo, Hv, Hg.
  apply validateCookedDataForCooking_Ok in Hv as (_ & l & props & _ & _ & -> & Hl & _).
  rewrite !(get_of_props h l props) by exact Hl.
  rewrite Hn. simpl length_of. rewrite Hsl. simpl fmap.
  replace (same_number n _) with false; [reflexivity|].
  destruct n as [x|]; simpl; [|reflexivity].
  symmetry. apply Z.eqb_neq. congruence.
Qed.

Lemma useRecipe_count_mismatch_witness :
  useRecipe kitchen payer (VRef 7) (VRef 9) cook = Ok None.
Proof.
  apply (useRecipe_count_mismatch kitchen payer (VRef 7) (VRef 9) cook
           2%positive [VRef 3; VRef 4] (Some 4)).
  - left. eexists. split; [reflexivity|vm_compute; reflexivity].
  - vm_compute. reflexivity.
  - vm_compute. reflexivity.
  - vm_compute. reflexivity.
  - vm_compute. reflexivity.
  - discriminate.
Defined.

(** ** The requested quantity *)


(** The number nearest to 2.01 is below 2.01, and so is its product with
    10^6 after rounding: the floor is one unit short. *)
Example toBaseUnits_rounds_below :
  toBaseUnits (VStr (lit "2.01")) 6 = Ok 2009999.
Proof. vm_compute. reflexivity. Qed.

(** The inputs the statement below leaves out: the decimal numbers 8.2 and
    2.01 scaled by 10^6 are the integers 8200000 and 2010000, and the
    binary64 product is just below them. *)
Example toBaseUnits_one_short :
  scaled_and_truncated (lit "8.2") = Some 8200000
  /\ toBaseUnits (VStr (lit "8.2")) 6 = Ok 8199999
  /\ scaled_and_truncated (lit "2.01") = Some 2010000
  /\ toBaseUnits (VStr (lit "2.01")) 6 = Ok 2009999.
Proof. vm_compute. repeat split; reflexivity. Qed.

Ltac within :=
  split; [vm_compute; reflexivity
         |split; [vm_compute; reflexivity
                 |split; [vm_compute; discriminate|vm_compute; reflexivity]]].

(** Every number of hundredths from 0.01 to 0.99 is among the inputs the
    statement below covers, with the quantity 10^4 times their number. *)
Example hundredths_within :
  Forall (fun k => scaled_and_truncated (hundredths k) = Some (k * 10 ^ 4)
                   /\ product_within (hundredths k) (k * 10 ^ 4))
         (map Z.of_nat (seq 1 99)).
Proof.
  cbv [seq map Z.of_nat Pos.of_succ_nat Pos.succ].
  repeat (constructor; [within|]). constructor.
Qed.



(** ** The caller's store *)

Lemma alloc_fresh (h : heap) (c : cell) :
  h !! (alloc h c).1 = None /\ (alloc h c).2 = <[(alloc h c).1 := c]> h.
Proof.
  unfold alloc. simpl. split; [|reflexivity].
  apply not_elem_of_dom. apply is_fresh.
Qed.

(** A read that succeeds gives the same in a larger store. *)
Lemma get_subseteq (h h' : heap) (v : value) (k : string) (x : value) :
  h ⊆ h' -> get h v k = Ok x -> get h' v k = Ok x.
Proof.
  intros Hs. destruct v as [| | | | | |l]; simpl; try (intros; assumption).
  destruct (h !! l) as [c|] eqn:E; [|discriminate].
  rewrite (lookup_weaken h h' l c E Hs). auto.
Qed.

Lemma every_seed_mints (h : heap) (elems : list value) :
  every_seed h elems = Ok true ->
  Forall (fun v => exists m, get h v "mint" = Ok m) elems.
Proof.
  induction elems as [|v elems IH]; simpl; intros H; constructor.
  - destruct (get h v "mint") as [m| |]; try discriminate. eauto.
  - destruct (get h v "mint") as [m| |]; try discriminate.
    destruct (truthy m); try discriminate.
    destruct (get h v "amount_u64") as [a| |]; try discriminate.
    destruct (is_undefined a); try discriminate. auto.
Qed.

(** The sort of checked seeds does not depend on cells added to the store. *)
Lemma Array_sort_subseteq (h h' : heap) (elems : list value) :
  h ⊆ h' -> every_seed h elems = Ok true -> Array_sort h' elems = Array_sort h elems.
Proof.
  intros Hs He. apply every_seed_mints in He. unfold Array_sort.
  replace (map (seed_key h') (filter (fun v => is_undefined v = false) elems))
    with (map (seed_key h) (filter (fun v => is_undefined v = false) elems));
    [reflexivity|].
  apply map_ext_in. intros v Hv. apply list_elem_of_In, list_elem_of_filter in Hv as [_ Hv].
  rewrite Forall_forall in He. destruct (He v Hv) as [m Hm].
  unfold seed_key. rewrite Hm. now rewrite (get_subseteq h h' v "mint" m Hs Hm).
Qed.

Lemma sortSeeds_frame (h h' : heap) (cd : value) (r : res value) :
  sortSeeds h cd = (r, h') -> h ⊆ h'.
Proof.
  unfold sortSeeds. intros H.
  destruct (not_an_object cd); [now injection H as _ <-|].
  destruct (checked_seeds h cd) as [[sl elems]| |]; try (now injection H as _ <-).
  destruct cd as [| | | | | |l]; try (now injection H as _ <-).
  destruct (h !! l) as [[props|es]|] eqn:El; try (now injection H as _ <-).
  destruct (alloc_fresh h (Obj props)) as [Hf1 Hh1].
  destruct (alloc h (Obj props)) as [l' h1]. simpl in Hf1, Hh1. subst h1.
  destruct (alloc_fresh (<[l' := Obj props]> h) (Arr elems)) as [Hf2 Hh2].
  destruct (alloc (<[l' := Obj props]> h) (Arr elems)) as [sl' h2].
  simpl in Hf2, Hh2. subst h2.
  assert (H2 : h ⊆ <[sl' := Arr elems]> (<[l' := Obj props]> h)).
  { etransitivity; [|apply insert_subseteq; exact Hf2]. now apply insert_subseteq. }
  destruct (Array_sort _ elems) as [sorted| |]; try (now injection H as _ <-).
  injection H as _ <-.
  apply map_subseteq_spec. intros l0 c Hc.
  assert (l0 <> l') by (intros ->; rewrite lookup_insert_ne in Hf2; congruence).
  assert (l0 <> sl').
  { intros ->. apply lookup_insert_None in Hf2 as [Hf2 _]. congruence. }
  now rewrite !lookup_insert_ne by congruence.
Qed.

Lemma sortSeeds_Ok (h h' : heap) (cd v : value) :
  sortSeeds h cd = (Ok v, h') -> sorted_copy h cd h' v.
Proof.
  unfold sortSeeds. intros H.
  destruct (not_an_object cd); [discriminate|].
  destruct (checked_seeds h cd) as [[sl elems]| |] eqn:Ec; try discriminate.
  destruct cd as [| | | | | |l]; try discriminate.
  destruct (h !! l) as [[props|es]|] eqn:El; try discriminate.
  apply checked_seeds_Ok in Ec as (Hg & Hsl & He).
  rewrite (get_of_props h l props) in Hg by exact El.
  destruct (props !! "seeds") as [seedsV|] eqn:Es; [|discriminate].
  injection Hg as ->.
  destruct (alloc_fresh h (Obj props)) as [Hf1 Hh1].
  destruct (alloc h (Obj props)) as [l' h1]. simpl in Hf1, Hh1. subst h1.
  destruct (alloc_fresh (<[l' := Obj props]> h) (Arr elems)) as [Hf2 Hh2].
  destruct (alloc (<[l' := Obj props]> h) (Arr elems)) as [sl' h2].
  simpl in Hf2, Hh2. subst h2.
  apply lookup_insert_None in Hf2 as [Hf2 Hne].
  rewrite (Array_sort_subseteq h) in H; [|
    etransitivity; [apply (insert_subseteq h l' (Obj props) Hf1)|];
    apply insert_subseteq; now rewrite lookup_insert_ne by congruence | exact He].
  destruct (Array_sort h elems) as [sorted| |] eqn:Ea; try discriminate.
  injection H as <- <-.
  apply Array_sort_Ok in Ea as [Hp Hs].
  exists l, sl, l', sl', props, elems, sorted.
  split; [reflexivity|]. split; [exact El|]. split; [exact Es|].
  split; [exact Hsl|]. split; [reflexivity|]. split; [exact Hf1|].
  split; [exact Hf2|]. split; [congruence|].
  split; [apply lookup_insert_eq|].
  split; [rewrite lookup_insert_ne by congruence; apply lookup_insert_eq|].
  auto.
Qed.

(** What C6 fails on: [validateCookedData] leaves the caller's array sorted
    and the caller's object with one more property. *)
Lemma validateCookedData_mutates_input :
  kitchen !! 2%positive = Some (Arr [VRef 3; VRef 4])
  /\ get kitchen (VRef 1) "seeds" = Ok (VRef 2)
  /\ get kitchen (VRef 1) "pda" = Ok VUndef
  /\ fst (validateCookedData Ed25519.isOnCurve kitchen (VRef 1)) = Ok (VRef 1)
  /\ snd (validateCookedData Ed25519.isOnCurve kitchen (VRef 1)) !! 2%positive
     = Some (Arr [VRef 4; VRef 3])
  /\ truthy (match get (snd (validateCookedData Ed25519.isOnCurve kitchen (VRef 1)))
                       (VRef 1) "pda" with
             | Ok address => address
             | _ => VUndef
             end) = true.
Proof. vm_compute. repeat split; reflexivity. Qed.

(** C6, amended: [sortSeeds] changes no cell of the caller's store and
    returns a new object whose seeds are a new, sorted array;
    [validateCookedData], as [createRecipe] calls it, returns the caller's
    object after it has sorted the caller's array in place and set the
    property [pda] in the caller's object, nothing else being written. *)
Theorem sortSeeds_returns_a_copy (isOnCurve : bytes -> bool) (h : heap)
        (cookedData : value) :
  (forall r h',
      sortSeeds h cookedData = (r, h') ->
      h ⊆ h' /\ forall v, r = Ok v -> sorted_copy h cookedData h' v)
  /\ (forall v h',
         validateCookedData isOnCurve h cookedData = (Ok v, h') ->
         v = cookedData /\ sorted_in_place h cookedData h').
Proof.
  split.
  - intros r h' H. split; [eapply sortSeeds_frame; eauto|].
    intros v ->. now apply sortSeeds_Ok.
  - intros v h' H.
    apply validateCookedData_Ok in H
      as (l & props & sl & elems & sorted & r & -> & -> & Hl & Hs & Hsl & Hne & He & Ha & _ & ->).
    split; [reflexivity|].
    apply Array_sort_Ok in Ha as [Hp Hk].
    exists l, sl, props, elems, sorted, (toBase58 (pda r)). auto 10.
Qed.

Lemma sortSeeds_returns_a_copy_witness :
  exists v h',
    sortSeeds kitchen (VRef 1) = (Ok v, h')
    /\ kitchen ⊆ h' /\ sorted_copy kitchen (VRef 1) h' v
    /\ h' !! 2%positive = Some (Arr [VRef 3; VRef 4]).
Proof.
  assert (E : { p | sortSeeds kitchen (VRef 1) = (Ok (fst p), snd p) })
    by (eexists (_, _); vm_compute; reflexivity).
  destruct E as [[v h'] E]. exists v, h'. split; [exact E|].
  destruct (proj1 (sortSeeds_returns_a_copy Ed25519.isOnCurve kitchen (VRef 1)) _ _ E)
    as [Hs Hc].
  split; [exact Hs|]. split; [now apply Hc|].
  apply (lookup_weaken kitchen h' 2%positive _ eq_refl Hs).
Defined.

(** ** An empty list of seeds *)

(** What C5 fails on: with an empty array of seeds [createRecipe] returns an
    instruction whose payload has the seed count zero. *)
Lemma createRecipe_accepts_no_seed :
  get kitchen (VRef 5) "seeds" = Ok (VRef 6)
  /\ kitchen !! 6%positive = Some (Arr [])
  /\ payload_of (fst (createRecipe Ed25519.isOnCurve kitchen payer (VRef 5)))
     = Some (spec_create_payload [] (lit "random-salt") (lit "Test Recipe")
               (lit "TST") (lit "https://ipfs.io/ipfs/some-metadata-cid"))
  /\ take 5 (spec_create_payload [] (lit "random-salt") (lit "Test Recipe")
               (lit "TST") (lit "https://ipfs.io/ipfs/some-metadata-cid"))
     = [1; 0; 0; 0; 0].
Proof. vm_compute. repeat split; reflexivity. Qed.

(** C5, amended: when the seeds field of the input is missing or falsy
    (undefined, null, false, 0, the empty string), the validation, and with
    it [createRecipe], fails with the error that names the field "seeds" and
    writes nothing; an empty array is not falsy and passes the checks of the
    seeds. *)
Theorem seeds_field_validation (isOnCurve : bytes -> bool) (h : heap)
        (feePayerPubkey cookedData seeds : value) :
  not_an_object cookedData = false ->
  get h cookedData "seeds" = Ok seeds ->
  (truthy seeds = false ->
   validateCookedData isOnCurve h cookedData
   = (Throw (Error "Invalid cookedData: Missing required field 'seeds'."), h)
   /\ createRecipe isOnCurve h feePayerPubkey cookedData
      = (Throw (Error "Invalid cookedData: Missing required field 'seeds'."), h))
  /\ (forall sl,
         seeds = VRef sl -> h !! sl = Some (Arr []) ->
         truthy seeds = true /\ checked_seeds h cookedData = Ok (sl, [])).
Proof.
  intros Ho Hg. split.
  - intros Hf.
    assert (Hv : validateCookedData isOnCurve h cookedData
                 = (Throw (Error "Invalid cookedData: Missing required field 'seeds'."), h)).
    { unfold validateCookedData, validate_checks. rewrite Ho.
      cbn [check_required]. now rewrite Hg, Hf. }
    split; [exact Hv|]. unfold createRecipe. now rewrite Hv.
  - intros sl -> Hsl. split; [reflexivity|].
    unfold checked_seeds. rewrite Hg. simpl. now rewrite Hsl.
Qed.

Lemma seeds_field_validation_witness :
  createRecipe Ed25519.isOnCurve kitchen payer (VRef 14)
  = (Throw (Error "Invalid cookedData: Missing required field 'seeds'."), kitchen)
  /\ checked_seeds kitchen (VRef 5) = Ok (6%positive, []).
Proof.
  split.
  - refine (proj2 (proj1 (seeds_field_validation Ed25519.isOnCurve kitchen payer
                            (VRef 14) VUndef eq_refl _) eq_refl)).
    vm_compute. reflexivity.
  - refine (proj2 (proj2 (seeds_field_validation Ed25519.isOnCurve kitchen payer
                            (VRef 5) (VRef 6) eq_refl _) 6%positive eq_refl _)).
    + vm_compute. reflexivity.
    + vm_compute. reflexivity.
Defined.

(** * Further lemmas *)

(** ** The order of keys is antisymmetric and a sorted list stays as it is *)

Lemma Buffer_compare_eq (a b : bytes) : Buffer_compare a b = Eq -> a = b.
Proof.
  revert b. induction a as [|x a IH]; intros [|y b]; simpl; try discriminate;
    [reflexivity|].
  destruct (Z.compare_spec x y) as [->| |]; try discriminate.
  intros H. f_equal. now apply IH.
Qed.

Lemma key_le_antisym (a b : bytes) :
  key_le a b = true -> key_le b a = true -> a = b.
Proof.
  unfold key_le. rewrite (Buffer_compare_opp a b).
  destruct (Buffer_compare a b) eqn:E; simpl; try discriminate.
  intros _ _. now apply Buffer_compare_eq.
Qed.

Lemma insert_seed_head (x : bytes * value) (l : list (bytes * value)) :
  Forall (pair_le x) l -> insert_seed x l = x :: l.
Proof.
  destruct l as [|y l]; [reflexivity|].
  intros H. apply Forall_cons in H as [H _]. simpl.
  unfold pair_le in H. now rewrite H.
Qed.

Lemma sort_seeds_id (l : list (bytes * value)) :
  StronglySorted pair_le l -> sort_seeds l = l.
Proof.
  induction 1 as [|x l Hs IH Hall]; [reflexivity|].
  unfold sort_seeds in *. simpl. rewrite IH. now apply insert_seed_head.
Qed.

(** Two sorted lists with the same elements, no two of one key, are equal. *)
Lemma sorted_perm_unique (l1 l2 : list (bytes * value)) :
  l1 ≡ₚ l2 -> StronglySorted pair_le l1 -> StronglySorted pair_le l2 ->
  NoDup (map fst l1) -> l1 = l2.
Proof.
  revert l2. induction l1 as [|x l1 IH]; intros l2 Hp H1 H2 Hn.
  - now apply Permutation_nil_l in Hp.
  - destruct l2 as [|y l2]; [now apply Permutation_nil_r in Hp|].
    apply StronglySorted_inv in H1 as [H1 Hx].
    apply StronglySorted_inv in H2 as [H2 Hy].
    simpl in Hn. apply NoDup_cons in Hn as [Hnx Hn].
    assert (Hxy : x = y).
    { assert (Hx2 : x ∈ y :: l2) by (rewrite <- Hp; left).
      assert (Hy1 : y ∈ x :: l1) by (rewrite Hp; left).
      apply elem_of_cons in Hx2 as [Hx2|Hx2]; [exact Hx2|].
      apply elem_of_cons in Hy1 as [Hy1|Hy1]; [now symmetry|].
      exfalso. apply Hnx.
      rewrite Forall_forall in Hx, Hy.
      assert (E : fst x = fst y).
      { apply key_le_antisym; [apply (Hx y Hy1)|apply (Hy x Hx2)]. }
      rewrite E. apply list_elem_of_fmap. exists y. auto. }
    subst y. f_equal. apply IH; auto.
    now apply Permutation_cons_inv in Hp.
Qed.

(** ** The sort of seeds that all have a key *)

Lemma seed_key_defined (h : heap) (v : value) (k : bytes) :
  seed_key h v = Ok k -> is_undefined v = false.
Proof. destruct v; simpl; try reflexivity. discriminate. Qed.

Lemma keyed_defined (h : heap) (vs : list value) (ks : list bytes) :
  mapM (seed_key h) vs = Ok ks ->
  filter (fun v => is_undefined v = false) vs = vs
  /\ filter (fun v => is_undefined v = true) vs = [].
Proof.
  intros H. apply mapM_Ok in H.
  induction H as [|v k vs ks Hk _ [IH1 IH2]]; [auto|].
  apply seed_key_defined in Hk. rewrite !filter_cons.
  destruct (decide (is_undefined v = false)) as [_|Hd]; [|contradiction].
  destruct (decide (is_undefined v = true)) as [Hu|_]; [congruence|].
  now rewrite IH1, IH2.
Qed.

Lemma all_keys_map_Ok (ks : list bytes) : all_keys (map Ok ks) = Ok ks.
Proof. induction ks as [|k ks IH]; simpl; [reflexivity|]. now rewrite IH. Qed.

Lemma mapM_map_Ok {A B : Type} (f : A -> res B) (l : list A) (ys : list B) :
  mapM f l = Ok ys -> map f l = map Ok ys.
Proof.
  intros H. apply mapM_Ok in H. induction H; simpl; [reflexivity|]. now f_equal.
Qed.

Lemma Array_sort_keyed (h : heap) (elems : list value) (ks : list bytes) :
  mapM (seed_key h) elems = Ok ks ->
  Array_sort h elems = Ok (map snd (sort_seeds (combine ks elems))).
Proof.
  intros H. unfold Array_sort. cbv zeta.
  destruct (keyed_defined h elems ks H) as [-> ->].
  rewrite (mapM_map_Ok _ _ _ H), all_keys_map_Ok, !app_nil_r.
  pose proof (mapM_length _ _ _ H) as Hl.
  destruct (Nat.ltb_spec (length elems) 2) as [Hlt|_]; [|reflexivity].
  f_equal. destruct elems as [|v [|v' elems]], ks as [|k [|k' ks]];
    simpl in *; try lia; reflexivity.
Qed.

Lemma combine_sorted (ks : list bytes) (vs : list value) :
  ascending ks -> StronglySorted pair_le (combine ks vs).
Proof.
  unfold ascending. intros H. revert vs.
  induction H as [|k ks Hs IH Hall]; intros [|v vs]; simpl; try constructor.
  - apply IH.
  - apply Forall_forall. intros [k' v'] Hin.
    apply list_elem_of_In, in_combine_l in Hin.
    rewrite Forall_forall in Hall. unfold pair_le. simpl.
    apply Hall. now apply list_elem_of_In.
Qed.

(** Seeds already in ascending order of their keys are left as they are. *)
Lemma Array_sort_sorted (h : heap) (vs : list value) (ks : list bytes) :
  mapM (seed_key h) vs = Ok ks -> ascending ks -> Array_sort h vs = Ok vs.
Proof.
  intros H Ha. rewrite (Array_sort_keyed h vs ks H).
  rewrite sort_seeds_id by now apply combine_sorted.
  rewrite map_snd_combine; [reflexivity|]. now apply mapM_length in H.
Qed.

(** The keys paired with their seeds. *)
Lemma combine_keys (h : heap) (vs : list value) (ks : list bytes) :
  mapM (seed_key h) vs = Ok ks ->
  combine ks vs
  = map (fun v => (match seed_key h v with Ok k => k | _ => [] end, v)) vs.
Proof.
  intros H. apply mapM_Ok in H.
  induction H as [|v k vs ks Hk _ IH]; simpl; [reflexivity|].
  now rewrite Hk, IH.
Qed.

Lemma mapM_keys_perm (h : heap) (vs vs' : list value) (ks : list bytes) :
  mapM (seed_key h) vs = Ok ks -> vs' ≡ₚ vs ->
  exists ks', mapM (seed_key h) vs' = Ok ks'.
Proof.
  intros H Hp. apply mapM_Ok in H.
  assert (Hall : Forall (fun v => exists k, seed_key h v = Ok k) vs').
  { rewrite Hp. clear Hp. induction H; constructor; eauto. }
  clear - Hall. induction Hall as [|v vs' [k Hk] _ [ks' IH]].
  - exists []. reflexivity.
  - exists (k :: ks'). simpl. now rewrite Hk, IH.
Qed.

(** The sort of seeds with distinct keys does not depend on their order. *)
Lemma Array_sort_perm (h : heap) (vs vs' : list value) (ks : list bytes) :
  mapM (seed_key h) vs = Ok ks -> NoDup ks -> vs' ≡ₚ vs ->
  Array_sort h vs' = Array_sort h vs.
Proof.
  intros H Hn Hp.
  destruct (mapM_keys_perm h vs vs' ks H Hp) as [ks' H'].
  rewrite (Array_sort_keyed h vs ks H), (Array_sort_keyed h vs' ks' H').
  do 2 f_equal. symmetry. apply sorted_perm_unique.
  - rewrite !sort_seeds_perm.
    rewrite (combine_keys h vs ks H), (combine_keys h vs' ks' H').
    now apply Permutation_map.
  - apply sort_seeds_sorted.
  - apply sort_seeds_sorted.
  - rewrite sort_seeds_perm.
    assert (E : map fst (combine ks vs) = ks).
    { apply mapM_length in H. clear - H. revert vs H.
      induction ks as [|k ks IH]; intros [|v vs]; simpl; try discriminate; auto.
      intros [= H]. f_equal. now apply IH. }
    now rewrite E.
Qed.

(** ** Stores that agree on what the builder reads *)

Lemma mapM_ext {A B : Type} (f g : A -> res B) (l : list A) :
  (forall x, f x = g x) -> mapM f l = mapM g l.
Proof.
  intros H. induction l as [|x l IH]; simpl; [reflexivity|]. now rewrite H, IH.
Qed.

Lemma agree_insert_Arr (h : heap) (sl : loc) (old new : list value) :
  h !! sl = Some (Arr old) -> agree h (<[sl := Arr new]> h).
Proof. intros H v k _. now apply (get_insert_Arr h sl old new). Qed.

Lemma seed_key_agree (h h' : heap) (v : value) :
  agree h h' -> seed_key h' v = seed_key h v.
Proof. intros H. unfold seed_key. now rewrite H by discriminate. Qed.

Lemma every_seed_agree (h h' : heap) (vs : list value) :
  agree h h' -> every_seed h' vs = every_seed h vs.
Proof.
  intros H. induction vs as [|v vs IH]; simpl; [reflexivity|].
  rewrite !H by discriminate. now rewrite IH.
Qed.

Lemma Array_sort_agree (h h' : heap) (vs : list value) :
  agree h h' -> Array_sort h' vs = Array_sort h vs.
Proof.
  intros H. unfold Array_sort.
  replace (map (seed_key h') (filter (fun v => is_undefined v = false) vs))
    with (map (seed_key h) (filter (fun v => is_undefined v = false) vs));
    [reflexivity|].
  apply map_ext. intros v. symmetry. now apply seed_key_agree.
Qed.

Lemma seed_chunk_agree (h h' : heap) (v : value) :
  agree h h' -> seed_chunk h' v = seed_chunk h v.
Proof.
  intros H. unfold seed_chunk.
  rewrite (seed_key_agree h h') by exact H. now rewrite H by discriminate.
Qed.

Lemma check_required_agree (h h' : heap) (cd : value) (fields : list string) :
  agree h h' -> "pda"%string ∉ fields ->
  check_required h' cd fields = check_required h cd fields.
Proof.
  intros H. induction fields as [|f fields IH]; simpl; [reflexivity|].
  intros Hn. apply not_elem_of_cons in Hn as [Hf Hn].
  rewrite H by congruence. now rewrite IH.
Qed.

Lemma derive_concatenated_agree (h h' : heap) (cd : value) :
  agree h h' -> (forall v, as_array h' v = as_array h v) ->
  derive_concatenated h' cd = derive_concatenated h cd.
Proof.
  intros H Ha. unfold derive_concatenated.
  rewrite !H by discriminate.
  destruct (get h cd "seeds") as [seeds| |]; try reflexivity.
  rewrite Ha. destruct (as_array h seeds) as [[[sl elems]|]| |]; try reflexivity.
  destruct (get h cd "salt") as [[| | | | |salt|]| |]; try reflexivity.
  rewrite (Array_sort_agree h h') by exact H.
  destruct (Array_sort h elems) as [sorted| |]; try reflexivity.
  now rewrite (mapM_ext (seed_chunk h') (seed_chunk h))
    by (intros; now apply seed_chunk_agree).
Qed.

(** ** The check of the seeds *)

Lemma every_seed_each (h : heap) (vs : list value) :
  every_seed h vs = Ok true <-> Forall (fun s => every_seed h [s] = Ok true) vs.
Proof.
  induction vs as [|v vs IH]; [split; [constructor|reflexivity]|].
  rewrite Forall_cons, <- IH. simpl.
  destruct (get h v "mint") as [mint| |]; try (split; [discriminate|tauto]).
  destruct (truthy mint); try (split; [discriminate|intros [? _]; discriminate]).
  destruct (get h v "amount_u64") as [amount| |];
    try (split; [discriminate|intros [? _]; discriminate]).
  destruct (is_undefined amount);
    try (split; [discriminate|intros [? _]; discriminate]).
  tauto.
Qed.

Lemma every_seed_perm (h : heap) (vs vs' : list value) :
  vs' ≡ₚ vs -> every_seed h vs = Ok true -> every_seed h vs' = Ok true.
Proof. intros Hp. rewrite !every_seed_each. now rewrite Hp. Qed.


(** ** Lengths *)

Lemma length_concat_le_bytes (qtys : list Z) :
  length (concat (map (le_bytes 8) qtys)) = (8 * length qtys)%nat.
Proof.
  induction qtys as [|q qtys IH]; [reflexivity|].
  cbn [map concat length]. rewrite length_app, length_le_bytes, IH. lia.
Qed.

Lemma length_spec_salt (salt : jsstring) : length (spec_salt salt) = 32%nat.
Proof. rewrite <- salt_field_spec. apply length_salt_field. Qed.

(** ** Base58: decoding what was encoded *)

Lemma digit_nth (m : Z) :
  0 <= m < 58 ->
  Base58.digit (nth (Z.to_nat m) Base58.alphabet 0) = Some m
  /\ (1 <= m -> nth (Z.to_nat m) Base58.alphabet 0 <> 49).
Proof.
  intros Hm.
  assert (H : exists k : nat, m = Z.of_nat k /\ (k < 58)%nat)
    by (exists (Z.to_nat m); lia).
  destruct H as (k & -> & Hk). rewrite Nat2Z.id.
  do 58 (destruct k as [|k];
         [split; [vm_compute; reflexivity
                 |intros H1; first [lia|vm_compute; discriminate]]|]).
  lia.
Qed.

Lemma number_app (s1 s2 : jsstring) (a : Z) :
  Base58.number (s1 ++ s2) a
  = match Base58.number s1 a with
    | Some x => Base58.number s2 x
    | None => None
    end.
Proof.
  revert a. induction s1 as [|c s1 IH]; intros a; simpl; [reflexivity|].
  destruct (Base58.digit c); [apply IH|reflexivity].
Qed.

Lemma digits_zero (fuel : nat) (acc : jsstring) : Base58.digits fuel 0 acc = acc.
Proof. destruct fuel; reflexivity. Qed.

Lemma digits_acc (fuel : nat) (n : Z) (acc : jsstring) :
  Base58.digits fuel n acc = Base58.digits fuel n [] ++ acc.
Proof.
  revert n acc. induction fuel as [|fuel IH]; intros n acc; simpl; [reflexivity|].
  destruct (n =? 0); [reflexivity|].
  rewrite (IH _ (_ :: acc)), (IH _ [_]). now rewrite <- app_assoc.
Qed.

Lemma number_digits (fuel : nat) (n : Z) :
  0 <= n < 58 ^ Z.of_nat fuel ->
  Base58.number (Base58.digits fuel n []) 0 = Some n.
Proof.
  revert n. induction fuel as [|fuel IH]; intros n Hn.
  - simpl in *. f_equal. lia.
  - cbn [Base58.digits]. destruct (Z.eqb_spec n 0) as [->|Hne]; [reflexivity|].
    rewrite digits_acc, number_app.
    rewrite Nat2Z.inj_succ, Z.pow_succ_r in Hn by lia.
    rewrite IH by (split; [apply Z.div_pos; lia|apply Z.div_lt_upper_bound; lia]).
    cbn [Base58.number].
    destruct (digit_nth (n mod 58)) as [-> _]; [apply Z.mod_pos_bound; lia|].
    f_equal. rewrite (Z.div_mod n 58) at 3 by lia. lia.
Qed.

Lemma digits_head (fuel : nat) (n : Z) (acc : jsstring) :
  0 < n < 58 ^ Z.of_nat fuel ->
  exists c rest, c <> 49 /\ Base58.digits fuel n acc = c :: rest.
Proof.
  revert n acc. induction fuel as [|fuel IH]; intros n acc Hn.
  - simpl in Hn. lia.
  - cbn [Base58.digits]. destruct (Z.eqb_spec n 0) as [->|Hne]; [lia|].
    rewrite Nat2Z.inj_succ, Z.pow_succ_r in Hn by lia.
    destruct (Z.eq_dec (n / 58) 0) as [E|E].
    + rewrite E, digits_zero. eexists _, acc. split; [|reflexivity].
      assert (Hs : n mod 58 = n).
      { apply Z.mod_small. split; [lia|].
        apply Z.div_small_iff in E; lia. }
      pose proof (Z.mod_pos_bound n 58 ltac:(lia)) as Hm.
      rewrite Hs in *. apply digit_nth; lia.
    + apply IH. split.
      * assert (0 <= n / 58) by (apply Z.div_pos; lia). lia.
      * apply Z.div_lt_upper_bound; lia.
Qed.

Lemma leading_replicate (c : Z) (z : nat) (s : list Z) :
  match s with x :: _ => x <> c | [] => True end ->
  Base58.leading c (replicate z c ++ s) = z.
Proof.
  intros Hs. induction z as [|z IH]; simpl.
  - destruct s as [|x s]; [reflexivity|]. simpl.
    destruct (Z.eqb_spec x c); [contradiction|reflexivity].
  - now rewrite Z.eqb_refl, IH.
Qed.

Lemma leading_split (c : Z) (b : list Z) :
  b = replicate (Base58.leading c b) c ++ drop (Base58.leading c b) b
  /\ match drop (Base58.leading c b) b with x :: _ => x <> c | [] => True end.
Proof.
  induction b as [|x b [IH1 IH2]]; simpl; [auto|].
  destruct (Z.eqb_spec x c) as [->|Hne]; simpl.
  - split; [now f_equal|exact IH2].
  - auto.
Qed.

Lemma le_value_bound (l : bytes) :
  Forall is_byte l -> 0 <= le_value l < 256 ^ Z.of_nat (length l).
Proof.
  unfold is_byte. induction 1 as [|x l Hx _ IH]; simpl length; cbn [le_value].
  - simpl. lia.
  - rewrite Nat2Z.inj_succ, Z.pow_succ_r by lia. lia.
Qed.

Lemma le_bytes_le_value (l : bytes) :
  Forall is_byte l -> le_bytes (length l) (le_value l) = l.
Proof.
  unfold is_byte. induction 1 as [|x l Hx _ IH]; [reflexivity|].
  cbn [length le_bytes le_value]. f_equal.
  - rewrite (Z.mul_comm 256), Z.mod_add by lia. now apply Z.mod_small.
  - rewrite (Z.mul_comm 256), Z.div_add by lia.
    rewrite (Z.div_small x 256) by lia. now rewrite Z.add_0_l.
Qed.

Lemma le_value_app (a b : bytes) :
  le_value (a ++ b) = le_value a + 256 ^ Z.of_nat (length a) * le_value b.
Proof.
  induction a as [|x a IH]; cbn [app le_value length].
  - simpl. lia.
  - rewrite IH, Nat2Z.inj_succ, Z.pow_succ_r by lia. lia.
Qed.

Lemma be_bytes_be_value (l : bytes) :
  Forall is_byte l -> be_bytes (length l) (be_value l) = l.
Proof.
  intros H. unfold be_bytes, be_value.
  rewrite <- (length_rev l), le_bytes_le_value by now apply Forall_rev.
  apply rev_involutive.
Qed.

Lemma minimal_bytes_be_value (t : bytes) :
  Forall is_byte t ->
  match t with x :: _ => x <> 0 | [] => True end ->
  Base58.minimal_bytes (be_value t) = t.
Proof.
  intros Hb Hx. destruct t as [|x t]; [reflexivity|].
  apply Forall_cons in Hb as Hb'. destruct Hb' as [Hx' Ht]. unfold is_byte in Hx'.
  assert (Hv : be_value (x :: t) = be_value t + 256 ^ Z.of_nat (length t) * x).
  { unfold be_value. cbn [rev]. rewrite le_value_app, length_rev. simpl. lia. }
  assert (Hr : 0 <= be_value t < 256 ^ Z.of_nat (length t)).
  { unfold be_value. rewrite <- (length_rev t).
    apply le_value_bound. now apply Forall_rev. }
  set (k := Z.of_nat (length t)) in *.
  assert (Hk : 0 <= k) by (unfold k; lia).
  assert (Hp : 256 ^ k = 2 ^ (8 * k))
    by (rewrite Z.pow_mul_r by lia; reflexivity).
  assert (Hlo : 2 ^ (8 * k) <= be_value (x :: t)) by (rewrite Hv, <- Hp; nia).
  assert (Hhi : be_value (x :: t) < 2 ^ (8 * k + 8)).
  { rewrite Z.pow_add_r, <- Hp by lia. rewrite Hv. change (2 ^ 8) with 256. nia. }
  assert (Hpos : 0 < be_value (x :: t)).
  { assert (0 < 2 ^ (8 * k)) by (apply Z.pow_pos_nonneg; lia). lia. }
  apply Z.log2_le_pow2 in Hlo; [|exact Hpos].
  apply Z.log2_lt_pow2 in Hhi; [|exact Hpos].
  unfold Base58.minimal_bytes.
  destruct (Z.eqb_spec (be_value (x :: t)) 0) as [E|_]; [lia|].
  assert (Hlen : Base58.byte_length (be_value (x :: t)) = length (x :: t)).
  { unfold Base58.byte_length.
    replace ((Z.log2 (be_value (x :: t)) + 8) / 8) with (k + 1).
    - unfold k. simpl length. lia.
    - apply Z.div_unique with (r := Z.log2 (be_value (x :: t)) - 8 * k); lia. }
  rewrite Hlen. now apply be_bytes_be_value.
Qed.

(** Decoding the Base58 string of a sequence of bytes gives the bytes. *)
Lemma Base58_round_trip (b : bytes) :
  Forall is_byte b -> Base58.decode (Base58.encode b) = Some b.
Proof.
  intros Hb. unfold Base58.encode, Base58.decode. cbv zeta.
  destruct (leading_split 0 b) as [Hsplit Hhead].
  set (z := Base58.leading 0 b) in *. set (t := drop z b) in *.
  assert (Ht : Forall is_byte t) by (unfold t; now apply Forall_drop).
  assert (Hr : 0 <= be_value t < 58 ^ Z.of_nat (2 * length b)).
  { unfold be_value. pose proof (le_value_bound (rev t) (Forall_rev Ht)) as Hl.
    rewrite length_rev in Hl. split; [lia|].
    eapply Z.lt_le_trans; [apply Hl|].
    assert (Hlen : (length t <= length b)%nat) by (unfold t; rewrite length_drop; lia).
    replace (Z.of_nat (2 * length b)) with (2 * Z.of_nat (length b)) by lia.
    rewrite Z.pow_mul_r by lia. change (58 ^ 2) with 3364.
    transitivity (256 ^ Z.of_nat (length b)).
    - apply Z.pow_le_mono_r; lia.
    - apply Z.pow_le_mono_l; lia. }
  set (D := Base58.digits (2 * length b) (be_value t) []).
  assert (HD : match D with x :: _ => x <> 49 | [] => True end).
  { destruct (Z.eq_dec (be_value t) 0) as [E|E].
    - unfold D. rewrite E, digits_zero. exact I.
    - destruct (digits_head (2 * length b) (be_value t) []) as (c & rest & Hc & Hd);
        [lia|]. unfold D. now rewrite Hd. }
  rewrite (leading_replicate 49 z D HD).
  rewrite drop_app_length' by now rewrite length_replicate.
  unfold D. rewrite number_digits by exact Hr.
  rewrite minimal_bytes_be_value by assumption.
  now rewrite <- Hsplit.
Qed.

(** A key of 32 bytes read back from its Base58 string. *)
Lemma PublicKey_round_trip (key : bytes) :
  length key = 32%nat -> Forall is_byte key ->
  new_PublicKey (VStr (toBase58 key)) = Ok key.
Proof.
  intros Hl Hb. unfold new_PublicKey, PublicKey_of_string, toBase58.
  rewrite Base58_round_trip by exact Hb. now rewrite Hl.
Qed.

(** * Further properties of the builder *)

(** ** The encoders of 32-bit integers and of strings *)

Lemma encodeU32_in_range (x : Z) :
  0 <= x <= 2 ^ 32 - 1 -> encodeU32 x = Ok (le_bytes 4 x).
Proof.
  intros Hx. unfold encodeU32.
  replace (0 <=? x) with true by (symmetry; apply Z.leb_le; lia).
  replace (x <=? 4294967295) with true by (symmetry; apply Z.leb_le; lia).
  reflexivity.
Qed.

(** X1: for every integer [x] of [0, 2^32 - 1], [encodeU32] yields exactly 4
    bytes whose little-endian value is [x]; for every other integer it
    raises a RangeError. *)
Theorem encodeU32_round_trip (x : Z) :
  (0 <= x <= 2 ^ 32 - 1 ->
   exists bs, encodeU32 x = Ok bs /\ length bs = 4%nat
              /\ Forall is_byte bs /\ le_value bs = x)
  /\ (x < 0 \/ 2 ^ 32 - 1 < x -> encodeU32 x = Throw RangeError).
Proof.
  unfold encodeU32. split.
  - intros Hx. exists (le_bytes 4 x). fold (encodeU32 x).
    split; [now apply encodeU32_in_range|]. split; [apply length_le_bytes|].
    split; [apply le_bytes_are_bytes|].
    apply le_bytes_round_trip. change (256 ^ Z.of_nat 4) with (2 ^ 32). lia.
  - intros Hx. destruct (0 <=? x) eqn:E1; [|reflexivity].
    destruct (x <=? 4294967295) eqn:E2; [|reflexivity]. lia.
Qed.

(** X2: [encodeString] of a string whose UTF-8 encoding has fewer than 2^32
    bytes is that encoding preceded by its length on 4 little-endian bytes,
    nothing cut: the first 4 bytes read back as the number of bytes that
    follow.  An argument that is neither a string nor an object or array of
    the store, that is [undefined], [null], a boolean, a number or a big
    integer, raises a TypeError. *)
Theorem encodeString_layout (str : value) :
  (forall s,
      str = VStr s -> Z.of_nat (length (utf8_encode s)) <= 2 ^ 32 - 1 ->
      exists bs,
        encodeString str = Ok bs
        /\ length bs = (4 + length (utf8_encode s))%nat
        /\ drop 4 bs = utf8_encode s
        /\ le_value (take 4 bs) = Z.of_nat (length (drop 4 bs)))
  /\ (typeof_string str = false -> (forall l, str <> VRef l) ->
      encodeString str = Throw TypeError)
  /\ (str = VUndef \/ str = VNull \/ (exists b, str = VBool b)
      \/ (exists x, str = VNum x) \/ (exists z, str = VBigInt z) ->
      encodeString str = Throw TypeError).
Proof.
  split; [|split].
  - intros s -> Hlen. unfold encodeString. cbn [Buffer_from].
    rewrite encodeU32_in_range by lia.
    exists (le_bytes 4 (Z.of_nat (length (utf8_encode s))) ++ utf8_encode s).
    split; [reflexivity|].
    split; [now rewrite length_app, length_le_bytes|].
    rewrite drop_app_length' by now rewrite length_le_bytes.
    rewrite take_app_length' by now rewrite length_le_bytes.
    split; [reflexivity|].
    apply le_bytes_round_trip. change (256 ^ Z.of_nat 4) with (2 ^ 32). lia.
  - destruct str as [| | | | | |l]; simpl; try discriminate; try reflexivity.
    intros _ H. now destruct (H l).
  - intros [->|[->|[[b ->]|[[x ->]|[z ->]]]]]; reflexivity.
Qed.

Lemma encodeString_layout_witness :
  (exists bs,
      encodeString (VStr (lit "TST")) = Ok bs
      /\ length bs = 7%nat /\ drop 4 bs = lit "TST"
      /\ le_value (take 4 bs) = 3)
  /\ encodeString (VNum (Float64.of_Z 7)) = Throw TypeError
  /\ encodeString VNull = Throw TypeError
  /\ encodeString VUndef = Throw TypeError.
Proof.
  split; [|split; [|split]].
  - destruct (proj1 (encodeString_layout (VStr (lit "TST"))) (lit "TST") eq_refl)
      as (bs & H1 & H2 & H3 & H4); [vm_compute; discriminate|].
    exists bs. split; [exact H1|]. split; [exact H2|]. split; [exact H3|].
    rewrite H4, H3. reflexivity.
  - apply (proj1 (proj2 (encodeString_layout (VNum (Float64.of_Z 7)))));
      [reflexivity|intros l; discriminate].
  - apply (proj1 (proj2 (encodeString_layout VNull)));
      [reflexivity|intros l; discriminate].
  - apply (proj2 (proj2 (encodeString_layout VUndef))). now left.
Defined.

(** ** The checks of the validation *)

Lemma check_required_first (h : heap) (l : loc) (props : gmap string value)
      (before after : list string) (field : string) :
  h !! l = Some (Obj props) ->
  Forall (present props) before ->
  truthy (default VUndef (props !! field)) = false ->
  check_required h (VRef l) (before ++ field :: after) = Throw (missing_field field).
Proof.
  intros Hl Hb Hf. induction Hb as [|f before Hp _ IH]; cbn [app check_required];
    rewrite (get_of_props h l props) by exact Hl.
  - now rewrite Hf.
  - unfold present in Hp. now rewrite Hp.
Qed.

Lemma check_required_all (h : heap) (l : loc) (props : gmap string value)
      (fields : list string) :
  h !! l = Some (Obj props) ->
  Forall (present props) fields ->
  check_required h (VRef l) fields = Ok tt.
Proof.
  intros Hl Hb. induction Hb as [|f fields Hp _ IH]; cbn [check_required];
    [reflexivity|].
  rewrite (get_of_props h l props) by exact Hl.
  unfold present in Hp. now rewrite Hp.
Qed.

(** X3: when one of the fields seeds, metadataCid, name and symbol of the
    object given is missing or falsy (undefined, null, false, 0, the empty
    string), [validateCookedData], and with it [createRecipe], throws the
    error that names the first such field in that order, and writes nothing
    to the store. *)
Theorem validateCookedData_missing_field (isOnCurve : bytes -> bool) (h : heap)
        (feePayerPubkey : value) (l : loc) (props : gmap string value)
        (before after : list string) (field : string) :
  h !! l = Some (Obj props) ->
  ["seeds"; "metadataCid"; "name"; "symbol"]%string = before ++ field :: after ->
  Forall (present props) before ->
  truthy (default VUndef (props !! field)) = false ->
  validateCookedData isOnCurve h (VRef l) = (Throw (missing_field field), h)
  /\ createRecipe isOnCurve h feePayerPubkey (VRef l)
     = (Throw (missing_field field), h).
Proof.
  intros Hl Hfields Hb Hf.
  assert (Hv : validateCookedData isOnCurve h (VRef l)
               = (Throw (missing_field field), h)).
  { unfold validateCookedData, validate_checks.
    change (not_an_object (VRef l)) with false. cbv iota.
    rewrite Hfields.
    now rewrite (check_required_first h l props before after field Hl Hb Hf). }
  split; [exact Hv|]. unfold createRecipe. now rewrite Hv.
Qed.

Lemma validateCookedData_missing_field_witness :
  validateCookedData Ed25519.isOnCurve pantry (VRef 1)
  = (Throw (Error "Invalid cookedData: Missing required field 'name'."), pantry)
  /\ createRecipe Ed25519.isOnCurve pantry payer (VRef 1)
     = (Throw (Error "Invalid cookedData: Missing required field 'name'."), pantry).
Proof.
  refine (validateCookedData_missing_field Ed25519.isOnCurve pantry payer
            1%positive _ ["seeds"; "metadataCid"]%string ["symbol"]%string "name"
            _ eq_refl _ _).
  - vm_compute. reflexivity.
  - repeat constructor.
  - vm_compute. reflexivity.
Defined.

(** X4: the salt is required as a key, not as a truthy value.  For an
    object whose four required fields are there, [validateCookedData]
    throws the error that names the field salt, and writes nothing, when
    the object has no key "salt"; when the key is there with a value that
    is no string, the error comes from the derivation, after the seeds
    array of the caller has been sorted in place. *)
Theorem validateCookedData_salt (isOnCurve : bytes -> bool) (h : heap)
        (l sl : loc) (props : gmap string value) (elems : list value) :
  h !! l = Some (Obj props) ->
  Forall (present props) ["seeds"; "metadataCid"; "name"; "symbol"]%string ->
  (props !! "salt" = None ->
   validateCookedData isOnCurve h (VRef l)
   = (Throw (Error "Invalid cookedData: Missing required field 'salt'."), h))
  /\ (forall salt sorted,
         props !! "salt" = Some salt -> typeof_string salt = false ->
         props !! "seeds" = Some (VRef sl) -> h !! sl = Some (Arr elems) ->
         every_seed h elems = Ok true -> Array_sort h elems = Ok sorted ->
         validateCookedData isOnCurve h (VRef l)
         = (Throw (Error "cookedData.salt must be a string"), <[sl := Arr sorted]> h)).
Proof.
  intros Hl Hp.
  pose proof (check_required_all h l props _ Hl Hp) as Hc.
  split.
  - intros Hs. unfold validateCookedData, validate_checks.
    change (not_an_object (VRef l)) with false. cbv iota.
    rewrite Hc. cbn [has]. rewrite Hl, Hs.
    rewrite bool_decide_eq_false_2; [reflexivity|].
    intros [x Hx]. discriminate.
  - intros salt sorted Hs Hn Hseeds Hsl He Ha.
    assert (Hne : l <> sl) by (intros ->; congruence).
    unfold validateCookedData, validate_checks.
    change (not_an_object (VRef l)) with false. cbv iota.
    rewrite Hc. cbn [has]. rewrite Hl, Hs.
    rewrite bool_decide_eq_true_2 by eauto.
    unfold checked_seeds.
    rewrite (get_of_props h l props), Hseeds by exact Hl.
    change (default VUndef (Some (VRef sl))) with (VRef sl).
    unfold as_array at 1. rewrite Hsl, He, Ha.
    unfold derivePDAFromCookedData, derive_concatenated.
    rewrite !(get_insert_Arr h sl elems sorted) by exact Hsl.
    rewrite !(get_of_props h l props), Hseeds, Hs by exact Hl.
    change (default VUndef (Some (VRef sl))) with (VRef sl).
    unfold as_array. rewrite lookup_insert_eq.
    destruct salt; try discriminate; reflexivity.
Qed.

Lemma validateCookedData_salt_witness :
  validateCookedData Ed25519.isOnCurve pantry (VRef 5)
  = (Throw (Error "Invalid cookedData: Missing required field 'salt'."), pantry)
  /\ validateCookedData Ed25519.isOnCurve pantry (VRef 6)
     = (Throw (Error "cookedData.salt must be a string"),
        <[2%positive := Arr [VRef 4; VRef 3]]> pantry).
Proof.
  split.
  - refine (proj1 (validateCookedData_salt Ed25519.isOnCurve pantry 5%positive
                     2%positive _ [] _ _) _).
    + vm_compute. reflexivity.
    + repeat constructor.
    + vm_compute. reflexivity.
  - refine (proj2 (validateCookedData_salt Ed25519.isOnCurve pantry 6%positive
                     2%positive _ [VRef 3; VRef 4] _ _)
                  (VNum (Float64.of_Z 7)) [VRef 4; VRef 3] _ _ _ _ _ _).
    + vm_compute. reflexivity.
    + repeat constructor.
    + vm_compute. reflexivity.
    + reflexivity.
    + vm_compute. reflexivity.
    + vm_compute. reflexivity.
    + vm_compute. reflexivity.
    + vm_compute. reflexivity.
Defined.

(** X5: whatever [validateCookedData] returns or throws, it leaves the store
    as it was, or with the seeds array of the object given holding the same
    elements in another order and nothing else changed, or, only when it
    returns (and then it returns the object given), with that and the
    property pda of the object set to a string. *)
Theorem validateCookedData_frame (isOnCurve : bytes -> bool) (h h' : heap)
        (cookedData : value) (r : res value) :
  validateCookedData isOnCurve h cookedData = (r, h') ->
  (h' = h /\ forall v, r <> Ok v)
  \/ exists (l sl : loc) (props : gmap string value) (elems sorted : list value),
      cookedData = VRef l /\ h !! l = Some (Obj props)
      /\ props !! "seeds" = Some (VRef sl) /\ h !! sl = Some (Arr elems)
      /\ sorted ≡ₚ elems
      /\ ((h' = <[sl := Arr sorted]> h /\ forall v, r <> Ok v)
          \/ (r = Ok cookedData
              /\ exists address,
                  h' = <[l := Obj (<["pda" := VStr address]> props)]>
                         (<[sl := Arr sorted]> h))).
Proof.
  unfold validateCookedData. intros H.
  destruct (validate_checks h cookedData) as [[sl elems]| |] eqn:Ev;
    try (injection H as <- <-; left; split; [reflexivity|discriminate]).
  apply validate_checks_Ok in Ev as (l & props & -> & Hl & Hs & Hsl & He & _).
  destruct (Array_sort h elems) as [sorted| |] eqn:Ea;
    try (injection H as <- <-; left; split; [reflexivity|discriminate]).
  apply Array_sort_Ok in Ea as [Hp _].
  right. exists l, sl, props, elems, sorted.
  split; [reflexivity|]. split; [exact Hl|]. split; [exact Hs|].
  split; [exact Hsl|]. split; [exact Hp|].
  assert (Hne : l <> sl) by (intros ->; congruence).
  destruct (derivePDAFromCookedData _ _ _) as [d| |];
    try (injection H as <- <-; left; split; [reflexivity|discriminate]).
  unfold set in H. rewrite lookup_insert_ne, Hl in H by congruence.
  injection H as <- <-. right. split; [reflexivity|]. eauto.
Qed.

Lemma validateCookedData_frame_witness :
  (snd (validateCookedData Ed25519.isOnCurve pantry (VRef 6)) = pantry
   /\ forall v, fst (validateCookedData Ed25519.isOnCurve pantry (VRef 6)) <> Ok v)
  \/ exists (l sl : loc) (props : gmap string value) (elems sorted : list value),
      VRef 6 = VRef l /\ pantry !! l = Some (Obj props)
      /\ props !! "seeds" = Some (VRef sl) /\ pantry !! sl = Some (Arr elems)
      /\ sorted ≡ₚ elems
      /\ ((snd (validateCookedData Ed25519.isOnCurve pantry (VRef 6))
           = <[sl := Arr sorted]> pantry
           /\ forall v, fst (validateCookedData Ed25519.isOnCurve pantry (VRef 6)) <> Ok v)
          \/ (fst (validateCookedData Ed25519.isOnCurve pantry (VRef 6)) = Ok (VRef 6)
              /\ exists address,
                  snd (validateCookedData Ed25519.isOnCurve pantry (VRef 6))
                  = <[l := Obj (<["pda" := VStr address]> props)]>
                      (<[sl := Arr sorted]> pantry))).
Proof.
  apply (validateCookedData_frame Ed25519.isOnCurve pantry _ (VRef 6)).
  apply surjective_pairing.
Defined.

(** ** A second validation *)

Lemma as_array_insert_Obj (h : heap) (l : loc) (props props' : gmap string value)
      (v : value) :
  h !! l = Some (Obj props) -> as_array (<[l := Obj props']> h) v = as_array h v.
Proof.
  intros Hl. destruct v as [| | | | | |l0]; simpl; try reflexivity.
  destruct (decide (l = l0)) as [->|Hne].
  - now rewrite lookup_insert_eq, Hl.
  - now rewrite lookup_insert_ne.
Qed.

(** A validation that returned returns the same when it is run again on the
    store it left, and leaves that store as it is. *)
Lemma validateCookedData_again (isOnCurve : bytes -> bool) (h h' : heap)
      (cd v : value) :
  validateCookedData isOnCurve h cd = (Ok v, h') ->
  validateCookedData isOnCurve h' cd = (Ok v, h').
Proof.
  unfold validateCookedData at 1. intros H.
  destruct (validate_checks h cd) as [[sl elems]| |] eqn:Ev; try discriminate.
  pose proof Ev as Ev0.
  apply validate_checks_Ok in Ev0 as (l & props & -> & Hl & Hs & Hsl & He & Hsalt).
  destruct (Array_sort h elems) as [sorted| |] eqn:Ea; try discriminate.
  destruct (derivePDAFromCookedData _ _ _) as [r| |] eqn:Ed; try discriminate.
  assert (Hne : l <> sl) by (intros ->; congruence).
  unfold set in H. rewrite lookup_insert_ne, Hl in H by congruence.
  injection H as <- <-.
  set (h1 := <[sl := Arr sorted]> h) in *.
  set (props' := <["pda" := VStr (toBase58 (pda r))]> props).
  set (h' := <[l := Obj props']> h1).
  assert (Hl1 : h1 !! l = Some (Obj props))
    by (unfold h1; now rewrite lookup_insert_ne by congruence).
  assert (Hl' : h' !! l = Some (Obj props')) by apply lookup_insert_eq.
  assert (Hsl' : h' !! sl = Some (Arr sorted)).
  { unfold h', h1. rewrite lookup_insert_ne by exact Hne. apply lookup_insert_eq. }
  assert (Hag : agree h h') by (eapply validated_agree; eauto).
  assert (Hag1 : agree h h1) by (eapply agree_insert_Arr; eauto).
  assert (Hag' : agree h1 h').
  { intros x k Hk. unfold h', props'. now apply get_insert_prop. }
  pose proof (Array_sort_Ok h elems sorted Ea) as [Hperm Hasc].
  (* the checks *)
  assert (Ev' : validate_checks h' (VRef l) = Ok (sl, sorted)).
  { unfold validate_checks in *.
    change (not_an_object (VRef l)) with false in *. cbv iota in *.
    rewrite (check_required_agree h h') by
      (try exact Hag; rewrite !not_elem_of_cons; repeat split;
       try discriminate; apply not_elem_of_nil).
    destruct (check_required h (VRef l) _) as [[]| |]; try discriminate.
    cbn [has] in *. rewrite Hl in Ev. rewrite Hl'.
    unfold props'. rewrite lookup_insert_ne by discriminate.
    destruct (bool_decide (is_Some (props !! "salt"))); try discriminate.
    unfold checked_seeds. rewrite Hag by discriminate.
    rewrite (get_of_props h l props), Hs by exact Hl.
    change (default VUndef (Some (VRef sl))) with (VRef sl).
    unfold as_array. rewrite Hsl'.
    rewrite (every_seed_agree h h') by exact Hag.
    now rewrite (every_seed_perm h elems sorted Hperm He). }
  (* the sort *)
  assert (Ea' : Array_sort h' sorted = Ok sorted).
  { rewrite (Array_sort_agree h h') by exact Hag.
    pose proof Ed as Ed0. apply derive_Ok in Ed0 as (m & Hm & _).
    apply derive_concatenated_Ok in Hm
      as (sl0 & elems0 & sorted0 & salt & seeds & H1 & H2 & _ & H4 & H5 & _).
    rewrite (get_of_props h1 l props), Hs in H1 by exact Hl1.
    injection H1 as <-.
    unfold h1 in H2. rewrite lookup_insert_eq in H2. injection H2 as <-.
    apply Array_sort_Ok in H4 as [Hp0 _].
    apply seeds_keys in H5.
    destruct (mapM_keys_perm h1 sorted0 sorted _ H5) as [ks Hks];
      [now symmetry|].
    rewrite (mapM_ext (seed_key h1) (seed_key h)) in Hks
      by (intros; now apply seed_key_agree).
    apply (Array_sort_sorted h sorted ks Hks). now apply Hasc. }
  (* the derivation *)
  assert (Ed' : derivePDAFromCookedData isOnCurve h' (VRef l) = Ok r).
  { rewrite <- Ed. unfold derivePDAFromCookedData.
    rewrite (derive_concatenated_agree h1 h'); [reflexivity|exact Hag'|].
    intros x. unfold h'. now apply (as_array_insert_Obj h1 l props). }
  unfold validateCookedData. rewrite Ev', Ea'.
  rewrite (insert_id h' sl (Arr sorted) Hsl'), Ed'.
  unfold set. rewrite Hl'. f_equal.
  unfold h', props'. rewrite insert_insert_eq. now rewrite insert_insert_eq.
Qed.

(** X6: a call of [createRecipe] that returned an instruction returns the
    same instruction when it is repeated on the store it left, and changes
    nothing more; so does [validateCookedData]. *)
Theorem createRecipe_repeatable (isOnCurve : bytes -> bool) (h : heap)
        (feePayerPubkey cookedData : value) :
  (forall v h',
      validateCookedData isOnCurve h cookedData = (Ok v, h') ->
      validateCookedData isOnCurve h' cookedData = (Ok v, h'))
  /\ (forall ix h',
         createRecipe isOnCurve h feePayerPubkey cookedData = (Ok ix, h') ->
         createRecipe isOnCurve h' feePayerPubkey cookedData = (Ok ix, h')).
Proof.
  split; [intros v h'; apply validateCookedData_again|].
  intros ix h'. unfold createRecipe at 1.
  destruct (validateCookedData isOnCurve h cookedData) as [[v| |] h1] eqn:Ev;
    try discriminate.
  intros [= Hb <-]. unfold createRecipe.
  rewrite (validateCookedData_again isOnCurve h h1 cookedData v Ev).
  now rewrite Hb.
Qed.

Lemma createRecipe_repeatable_witness :
  exists ix h',
    createRecipe Ed25519.isOnCurve pantry payer (VRef 14) = (Ok ix, h')
    /\ createRecipe Ed25519.isOnCurve h' payer (VRef 14) = (Ok ix, h')
    /\ get pantry (VRef 14) "salt" = Ok (VStr []).
Proof.
  assert (E : { p | createRecipe Ed25519.isOnCurve pantry payer (VRef 14)
                    = (Ok (fst p), snd p) })
    by (eexists (_, _); vm_compute; reflexivity).
  destruct E as [[ix h'] E]. exists ix, h'. split; [exact E|].
  split; [|reflexivity].
  exact (proj2 (createRecipe_repeatable Ed25519.isOnCurve pantry payer (VRef 14))
               ix h' E).
Defined.

(** ** The order of the seeds given *)

(** X7: for seeds whose mints are pairwise distinct,
    [derivePDAFromCookedData] returns the same for every order in which the
    seeds array lists them. *)
Theorem derive_order_invariant (isOnCurve : bytes -> bool) (h : heap)
        (cookedData : value) (sl : loc) (elems elems' : list value)
        (ks : list bytes) :
  get h cookedData "seeds" = Ok (VRef sl) ->
  h !! sl = Some (Arr elems) ->
  mapM (seed_key h) elems = Ok ks ->
  NoDup ks ->
  elems' ≡ₚ elems ->
  derivePDAFromCookedData isOnCurve (<[sl := Arr elems']> h) cookedData
  = derivePDAFromCookedData isOnCurve h cookedData.
Proof.
  intros Hg Hsl Hk Hn Hp.
  pose proof (agree_insert_Arr h sl elems elems' Hsl) as Hag.
  unfold derivePDAFromCookedData, derive_concatenated.
  rewrite !Hag by discriminate. rewrite Hg.
  unfold as_array. rewrite lookup_insert_eq, Hsl.
  destruct (get h cookedData "salt") as [[| | | | |salt|]| |]; try reflexivity.
  rewrite (Array_sort_agree h _ elems' Hag).
  rewrite (Array_sort_perm h elems elems' ks Hk Hn Hp).
  destruct (Array_sort h elems) as [sorted| |]; try reflexivity.
  now rewrite (mapM_ext (seed_chunk (<[sl := Arr elems']> h)) (seed_chunk h))
    by (intros; now apply seed_chunk_agree).
Qed.

Lemma derive_order_invariant_witness :
  derivePDAFromCookedData Ed25519.isOnCurve
    (<[2%positive := Arr [VRef 4; VRef 3]]> kitchen) (VRef 1)
  = derivePDAFromCookedData Ed25519.isOnCurve kitchen (VRef 1).
Proof.
  refine (derive_order_invariant Ed25519.isOnCurve kitchen (VRef 1) 2%positive
            [VRef 3; VRef 4] [VRef 4; VRef 3] _ _ _ _ _ _).
  - vm_compute. reflexivity.
  - vm_compute. reflexivity.
  - vm_compute. reflexivity.
  - apply (bool_decide_unpack _). vm_compute. exact I.
  - apply perm_swap.
Defined.

(** ** The derivation and [findCookPDA] *)




(** ** The address found *)

Lemma createProgramAddressSync_hash (isOnCurve : bytes -> bool) (hash : bytes) (n : Z) :
  length hash = 32%nat ->
  createProgramAddressSync isOnCurve ([hash] ++ [[n]]) PROGRAM_ID
  = if isOnCurve (program_address hash n)
    then Throw (Error "Invalid seeds, address must fall off the curve")
    else Ok (program_address hash n).
Proof.
  intros Hl. unfold createProgramAddressSync, program_address.
  cbn [app forallb length]. rewrite Hl. cbn [Nat.leb MAX_SEED_LENGTH andb].
  cbn [concat]. now rewrite app_nil_r, <- !app_assoc.
Qed.

Lemma find_nonce_Ok (isOnCurve : bytes -> bool) (hash : bytes) (n : nat)
      (address : bytes) (nonce : Z) :
  length hash = 32%nat ->
  find_nonce isOnCurve n [hash] PROGRAM_ID = Ok (address, nonce) ->
  1 <= nonce <= Z.of_nat n
  /\ address = program_address hash nonce
  /\ isOnCurve address = false
  /\ forall m, nonce < m <= Z.of_nat n -> isOnCurve (program_address hash m) = true.
Proof.
  intros Hl. induction n as [|n IH]; [discriminate|].
  cbn [find_nonce]. rewrite createProgramAddressSync_hash by exact Hl.
  destruct (isOnCurve (program_address hash (Z.of_nat (S n)))) eqn:E.
  - intros H. destruct (IH H) as (H1 & H2 & H3 & H4).
    split; [lia|]. split; [exact H2|]. split; [exact H3|].
    intros m Hm. destruct (Z.eq_dec m (Z.of_nat (S n))) as [->|Hne]; [exact E|].
    apply H4. lia.
  - intros [= <- <-]. split; [lia|]. split; [reflexivity|]. split; [exact E|].
    intros m Hm. lia.
Qed.

Lemma sha256_bytes (m : bytes) : Forall is_byte (sha256 m).
Proof.
  unfold sha256, Sha256.digest, Sha256.output.
  rewrite !Forall_app. unfold be_bytes.
  repeat split; apply Forall_rev, le_bytes_are_bytes.
Qed.

Lemma findProgramAddressSync_hash (isOnCurve : bytes -> bool) (hash address : bytes)
      (nonce : Z) :
  findProgramAddressSync isOnCurve [sha256 hash] PROGRAM_ID = Ok (address, nonce) ->
  cook_address isOnCurve
    {| pda := address; bump := nonce; sha256Hash := sha256 hash |}.
Proof.
  unfold findProgramAddressSync. intros H.
  apply (find_nonce_Ok isOnCurve (sha256 hash) 255 address nonce
           (length_sha256 hash)) in H as (H1 & H2 & H3 & H4).
  change (Z.of_nat 255) with 255 in H1, H4.
  unfold cook_address. cbn [pda bump sha256Hash].
  split; [apply length_sha256|]. split; [lia|]. split; [exact H2|].
  split; [subst address; apply length_sha256|].
  split; [subst address; apply sha256_bytes|].
  split; [exact H3|]. intros n Hn. apply H4. lia.
Qed.

(** X9: the result of [findCookPDA], and of [derivePDAFromCookedData], has
    a digest of 32 bytes, a bump of 1 to 255, and as its address the 32
    bytes of the SHA-256 of the digest, the bump, the program id and the
    marker "ProgramDerivedAddress"; that address is no point of the curve,
    and the bump is the greatest nonce of 1 to 255 for which it is not. *)
Theorem findCookPDA_result (isOnCurve : bytes -> bool) :
  (forall concatenatedData salt r,
      findCookPDA isOnCurve concatenatedData salt = Ok r -> cook_address isOnCurve r)
  /\ (forall h cookedData r,
         derivePDAFromCookedData isOnCurve h cookedData = Ok r ->
         cook_address isOnCurve r).
Proof.
  split.
  - intros data salt r. unfold findCookPDA.
    destruct (TextEncoder_encode salt) as [encodedSalt| |]; try discriminate.
    cbv zeta.
    destruct (findProgramAddressSync _ _ _) as [[a b]| |] eqn:E; try discriminate.
    intros [= <-]. now apply findProgramAddressSync_hash.
  - intros h cd r. unfold derivePDAFromCookedData.
    destruct (derive_concatenated h cd) as [m| |]; try discriminate.
    cbv zeta.
    destruct (findProgramAddressSync _ _ _) as [[a b]| |] eqn:E; try discriminate.
    intros [= <-]. now apply findProgramAddressSync_hash.
Qed.

Lemma findCookPDA_result_witness :
  exists r,
    findCookPDA Ed25519.isOnCurve (replicate 32 1) (VStr (lit "random-salt")) = Ok r
    /\ cook_address Ed25519.isOnCurve r.
Proof.
  assert (E : { r | findCookPDA Ed25519.isOnCurve (replicate 32 1)
                      (VStr (lit "random-salt")) = Ok r })
    by (eexists; vm_compute; reflexivity).
  destruct E as [r E]. exists r. split; [exact E|].
  exact (proj1 (findCookPDA_result Ed25519.isOnCurve) _ _ _ E).
Defined.

(** ** What the address depends on *)

Lemma salt_field_prefix (u1 u2 : bytes) :
  take 32 u1 = take 32 u2 -> salt_field u1 = salt_field u2.
Proof.
  intros H. rewrite !salt_field_take, !take_app, H.
  assert (Hl : length (take 32 u1) = length (take 32 u2)) by now rewrite H.
  rewrite !length_take in Hl.
  f_equal. f_equal. lia.
Qed.

(** X10: two recipes with the same seeds array whose salts have the same
    first 32 bytes in UTF-8 get the same result from
    [derivePDAFromCookedData], whatever their other fields are: nothing of
    a salt beyond its 32nd byte and no other field is read. *)
Theorem derive_reads_seeds_and_salt (isOnCurve : bytes -> bool) (h : heap)
        (cookedData1 cookedData2 seeds : value) (salt1 salt2 : jsstring) :
  get h cookedData1 "seeds" = Ok seeds ->
  get h cookedData2 "seeds" = Ok seeds ->
  get h cookedData1 "salt" = Ok (VStr salt1) ->
  get h cookedData2 "salt" = Ok (VStr salt2) ->
  take 32 (utf8_encode salt1) = take 32 (utf8_encode salt2) ->
  derivePDAFromCookedData isOnCurve h cookedData1
  = derivePDAFromCookedData isOnCurve h cookedData2.
Proof.
  intros H1 H2 H3 H4 Hs.
  unfold derivePDAFromCookedData, derive_concatenated.
  rewrite H1, H2, H3, H4. now rewrite (salt_field_prefix _ _ Hs).
Qed.

Lemma derive_reads_seeds_and_salt_witness :
  get pantry (VRef 7) "salt" = Ok (long_salt "X")
  /\ get pantry (VRef 8) "salt" = Ok (long_salt "Y")
  /\ get pantry (VRef 7) "name" = Ok (VStr (lit "Test Recipe"))
  /\ get pantry (VRef 8) "name" = Ok (VStr (lit "Other Recipe"))
  /\ derivePDAFromCookedData Ed25519.isOnCurve pantry (VRef 7)
     = derivePDAFromCookedData Ed25519.isOnCurve pantry (VRef 8).
Proof.
  split; [reflexivity|]. split; [reflexivity|].
  split; [reflexivity|]. split; [reflexivity|].
  apply (derive_reads_seeds_and_salt Ed25519.isOnCurve pantry (VRef 7) (VRef 8)
           (VRef 2) (lit "0123456789abcdef0123456789abcdefX")
           (lit "0123456789abcdef0123456789abcdefY")); vm_compute; reflexivity.
Defined.

(** ** The address stored by the validation *)

Lemma derive_insert_pda (isOnCurve : bytes -> bool) (h : heap) (l : loc)
      (props : gmap string value) (x cd : value) :
  h !! l = Some (Obj props) ->
  derivePDAFromCookedData isOnCurve (<[l := Obj (<["pda" := x]> props)]> h) cd
  = derivePDAFromCookedData isOnCurve h cd.
Proof.
  intros Hl. unfold derivePDAFromCookedData.
  rewrite (derive_concatenated_agree h); [reflexivity| |].
  - intros v k Hk. now apply get_insert_prop.
  - intros v. now apply (as_array_insert_Obj h l props).
Qed.

Lemma derive_address (isOnCurve : bytes -> bool) (h : heap) (cd : value) (r : CookPDA) :
  derivePDAFromCookedData isOnCurve h cd = Ok r ->
  new_PublicKey (VStr (toBase58 (pda r))) = Ok (pda r).
Proof.
  intros H. unfold derivePDAFromCookedData in H.
  destruct (derive_concatenated h cd) as [m| |]; try discriminate.
  cbv zeta in H.
  destruct (findProgramAddressSync _ _ _) as [[a b]| |] eqn:E; try discriminate.
  injection H as <-. apply findProgramAddressSync_hash in E.
  destruct E as (_ & _ & _ & Hl & Hb & _). cbn [pda] in *.
  now apply PublicKey_round_trip.
Qed.


(** X11: the property pda that [validateCookedData] sets in the object it
    returns is the Base58 string of the address that
    [derivePDAFromCookedData] derives for that object, and [new PublicKey]
    reads that string back as the same 32 bytes. *)
Theorem validateCookedData_address (isOnCurve : bytes -> bool) (h h' : heap)
        (cookedData v : value) :
  validateCookedData isOnCurve h cookedData = (Ok v, h') ->
  exists r,
    derivePDAFromCookedData isOnCurve h' v = Ok r
    /\ get h' v "pda" = Ok (VStr (toBase58 (pda r)))
    /\ new_PublicKey (VStr (toBase58 (pda r))) = Ok (pda r).
Proof.
  intros H. apply validateCookedData_Ok in H
    as (l & props & sl & elems & sorted & r & -> & -> & Hl & Hs & Hsl & Hne & He & Ha & Hd & ->).
  assert (Hl1 : <[sl := Arr sorted]> h !! l = Some (Obj props))
    by now rewrite lookup_insert_ne by congruence.
  exists r. split; [|split].
  - rewrite derive_insert_pda by exact Hl1. exact Hd.
  - cbn [get]. rewrite lookup_insert_eq. now rewrite lookup_insert_eq.
  - exact (derive_address isOnCurve _ _ r Hd).
Qed.

Lemma validateCookedData_address_witness :
  exists v h' r,
    validateCookedData Ed25519.isOnCurve recipe_A (VRef 1) = (Ok v, h')
    /\ derivePDAFromCookedData Ed25519.isOnCurve h' v = Ok r
    /\ get h' v "pda" = Ok (VStr (toBase58 (pda r)))
    /\ new_PublicKey (VStr (toBase58 (pda r))) = Ok (pda r).
Proof.
  assert (E : { p | validateCookedData Ed25519.isOnCurve recipe_A (VRef 1)
                    = (Ok (fst p), snd p) })
    by (eexists (_, _); vm_compute; reflexivity).
  destruct E as [[v h'] E]. exists v, h'.
  destruct (validateCookedData_address Ed25519.isOnCurve recipe_A h' (VRef 1) v E)
    as (r & H1 & H2 & H3).
  exists r. auto.
Defined.

(** ** The accounts of a create instruction *)




(** ** The size of a cook or uncook instruction *)

(** X13: an instruction [useRecipe] returns for a recipe of [n] seeds has a
    payload of exactly [45 + 8 n] bytes and [9 + 3 n] accounts, of which
    the first, the payer, is the only signer; its program is the program id
    of the constants. *)
Theorem useRecipe_sizes (h : heap)
        (feePayerPubkey cookedData tokenAccounts opt : value)
        (ix : TransactionInstruction) :
  useRecipe h feePayerPubkey cookedData tokenAccounts opt = Ok (Some ix) ->
  exists (sl : loc) (elems : list value),
    get h cookedData "seeds" = Ok (VRef sl)
    /\ h !! sl = Some (Arr elems)
    /\ length (data ix) = (45 + 8 * length elems)%nat
    /\ length (keys ix) = (9 + 3 * length elems)%nat
    /\ map isSigner (keys ix) = true :: replicate (8 + 3 * length elems) false
    /\ programId ix = PROGRAM_ID.
Proof.
  intros H. apply useRecipe_Ok in H as (op & _ & Hu).
  destruct Hu as (sl & elems & toks & mints & tokenKeys & qtys & pdaV & qtyV
                  & pdaKey & salt & baseQty & H1 & H2 & H3 & H4 & _ & _ & _ & _
                  & _ & _ & _ & H12 & H13 & H14 & H15 & H16).
  apply mapM_length in H3, H4, H13.
  exists sl, elems. split; [exact H1|]. split; [exact H2|].
  split; [|split; [|split; [|exact H15]]].
  - rewrite H16. unfold spec_use_payload.
    rewrite !length_app, length_concat_le_bytes, length_spec_salt,
      !length_le_bytes. simpl. lia.
  - rewrite H14. rewrite !length_app, !length_map. simpl. lia.
  - rewrite H14. rewrite !map_app, !map_map. cbn [map use_accounts meta isSigner].
    cbn [app]. f_equal.
    replace (8 + 3 * length elems)%nat
      with (6 + (length mints + length tokenKeys))%nat by lia.
    assert (Hc : forall l : list bytes,
               map (fun _ : bytes => false) l = replicate (length l) false).
    { induction l; simpl; [reflexivity|]. now f_equal. }
    rewrite !Hc, <- replicate_add. reflexivity.
Qed.

Lemma useRecipe_sizes_witness :
  exists ix,
    useRecipe kitchen payer (VRef 7) (VRef 8) cook = Ok (Some ix)
    /\ length (data ix) = 61%nat
    /\ length (keys ix) = 15%nat
    /\ map isSigner (keys ix) = true :: replicate 14 false.
Proof.
  assert (E : { ix | useRecipe kitchen payer (VRef 7) (VRef 8) cook = Ok (Some ix) })
    by (eexists; vm_compute; reflexivity).
  destruct E as [ix E]. exists ix. split; [exact E|].
  destruct (useRecipe_sizes kitchen payer (VRef 7) (VRef 8) cook ix E)
    as (sl & elems & H1 & H2 & H3 & H4 & H5 & _).
  assert (E1 : get kitchen (VRef 7) "seeds" = Ok (VRef 2)) by (vm_compute; reflexivity).
  rewrite E1 in H1. injection H1 as <-.
  assert (E2 : kitchen !! 2%positive = Some (Arr [VRef 3; VRef 4]))
    by (vm_compute; reflexivity).
  pose proof (eq_trans (eq_sym H2) E2) as E3. injection E3 as ->.
  auto.
Defined.

(** ** Cook and uncook *)

(** X14: called with the option 3 instead of the option 2 on the same
    store and the same other arguments, [useRecipe] throws the same error,
    or returns null as well, or returns the same instruction but for the
    first byte of its payload, 3 instead of 2. *)
Theorem useRecipe_cook_uncook (h : heap)
        (feePayerPubkey cookedData tokenAccounts cookOpt uncookOpt : value) :
  is_number cookOpt 2 -> is_number uncookOpt 3 ->
  match useRecipe h feePayerPubkey cookedData tokenAccounts cookOpt with
  | Ok (Some ix) =>
      data ix = 2 :: drop 1 (data ix)
      /\ useRecipe h feePayerPubkey cookedData tokenAccounts uncookOpt
         = Ok (Some {| keys := keys ix; programId := programId ix;
                       data := 3 :: drop 1 (data ix) |})
  | other =>
      useRecipe h feePayerPubkey cookedData tokenAccounts uncookOpt = other
  end.
Proof.
  intros H2 H3.
  assert (E2 : opcode cookOpt = Some 2) by (apply opcode_Some; auto).
  assert (E3 : opcode uncookOpt = Some 3) by (apply opcode_Some; auto).
  unfold useRecipe. rewrite E2, E3.
  destruct (validateCookedDataForCooking h cookedData) as [v| |]; try reflexivity.
  destruct (get h v "pda") as [pdaV| |]; try reflexivity.
  destruct (get h v "seeds") as [seedsV| |]; try reflexivity.
  destruct (get h v "seedSalt") as [saltV| |]; try reflexivity.
  destruct (length_of h tokenAccounts) as [alen| |]; try reflexivity.
  destruct (length_of h seedsV) as [slen| |]; try reflexivity.
  destruct (same_number alen _); try reflexivity.
  destruct (new_PublicKey pdaV) as [pdaKey| |]; try reflexivity.
  destruct (iterate h seedsV) as [elems| |]; try reflexivity.
  destruct (seed_accounts h elems) as [accs| |]; try reflexivity.
  destruct (amounts_and_salt h elems saltV) as [body| |]; try reflexivity.
  destruct (get h cookedData "qty_requested") as [qtyV| |]; try reflexivity.
  destruct (toBaseUnits qtyV 6) as [baseQty| |]; try reflexivity.
  destruct (encodeU64 (VBigInt baseQty)) as [qbuf| |]; try reflexivity.
  destruct (iterate h tokenAccounts) as [toks| |]; try reflexivity.
  destruct (mapM new_PublicKey toks) as [tokenKeys| |]; try reflexivity.
  cbn [data keys programId app drop]. split; reflexivity.
Qed.

Lemma useRecipe_cook_uncook_witness :
  match useRecipe kitchen payer (VRef 7) (VRef 8) cook with
  | Ok (Some ix) =>
      data ix = 2 :: drop 1 (data ix)
      /\ useRecipe kitchen payer (VRef 7) (VRef 8) uncook
         = Ok (Some {| keys := keys ix; programId := programId ix;
                       data := 3 :: drop 1 (data ix) |})
  | other => useRecipe kitchen payer (VRef 7) (VRef 8) uncook = other
  end
  /\ use_payload_of (useRecipe kitchen payer (VRef 7) (VRef 8) cook)
     = Some (spec_use_payload 2 [2000000; 1000000] (lit "random-salt") 2500000).
Proof.
  split; [|vm_compute; reflexivity].
  apply (useRecipe_cook_uncook kitchen payer (VRef 7) (VRef 8) cook uncook).
  - eexists. split; [reflexivity|vm_compute; reflexivity].
  - eexists. split; [reflexivity|vm_compute; reflexivity].
Defined.

(** ** The fields a cook or uncook needs *)

(** X15: with the option 2 or 3 and an object in which pda or seeds is
    missing or falsy, [useRecipe] throws the error that names the first
    such field, pda before seeds; with both there and no key "seedSalt" it
    throws the error that names seedSalt.  The token accounts are not
    looked at before. *)
Theorem useRecipe_required_fields (h : heap) (feePayerPubkey tokenAccounts opt : value)
        (l : loc) (props : gmap string value) :
  is_number opt 2 \/ is_number opt 3 ->
  h !! l = Some (Obj props) ->
  (forall before field after,
      ["pda"; "seeds"]%string = before ++ field :: after ->
      Forall (present props) before ->
      truthy (default VUndef (props !! field)) = false ->
      useRecipe h feePayerPubkey (VRef l) tokenAccounts opt
      = Throw (missing_field field))
  /\ (Forall (present props) ["pda"; "seeds"]%string ->
      props !! "seedSalt" = None ->
      useRecipe h feePayerPubkey (VRef l) tokenAccounts opt
      = Throw (Error "Invalid cookedData: Missing required field 'seedSalt'.")).
Proof.
  intros Ho Hl.
  assert (Eo : exists op, opcode opt = Some op).
  { destruct Ho as [Ho|Ho]; eexists; apply opcode_Some; eauto. }
  destruct Eo as [op Eo].
  unfold useRecipe, validateCookedDataForCooking. rewrite Eo.
  change (not_an_object (VRef l)) with false. cbv iota.
  split.
  - intros before field after Hf Hb Hn. rewrite Hf.
    now rewrite (check_required_first h l props before after field Hl Hb Hn).
  - intros Hp Hs. rewrite (check_required_all h l props _ Hl Hp).
    cbn [has]. rewrite Hl, Hs.
    rewrite bool_decide_eq_false_2; [reflexivity|].
    intros [x Hx]. discriminate.
Qed.

Lemma useRecipe_required_fields_witness :
  useRecipe pantry payer (VRef 9) VUndef cook
  = Throw (Error "Invalid cookedData: Missing required field 'pda'.")
  /\ useRecipe pantry payer (VRef 10) VUndef uncook
     = Throw (Error "Invalid cookedData: Missing required field 'seedSalt'.").
Proof.
  split.
  - refine (proj1 (useRecipe_required_fields pantry payer VUndef cook 9%positive _ _ _)
                  [] "pda"%string ["seeds"]%string eq_refl _ _).
    + left. eexists. split; [reflexivity|vm_compute; reflexivity].
    + vm_compute. reflexivity.
    + constructor.
    + vm_compute. reflexivity.
  - refine (proj2 (useRecipe_required_fields pantry payer VUndef uncook 10%positive _ _ _)
                  _ _).
    + right. eexists. split; [reflexivity|vm_compute; reflexivity].
    + vm_compute. reflexivity.
    + repeat constructor.
    + vm_compute. reflexivity.
Defined.

(** ** Sorting before cooking *)






(** ** Quantities given as strings *)

Lemma digit_cases (c : Z) :
  is_digit c = true ->
  c = 48 \/ c = 49 \/ c = 50 \/ c = 51 \/ c = 52 \/ c = 53 \/ c = 54 \/ c = 55
  \/ c = 56 \/ c = 57.
Proof. unfold is_digit. lia. Qed.

Lemma digit_no_whitespace (c : Z) : is_digit c = true -> is_whitespace c = false.
Proof.
  intros H. apply digit_cases in H.
  repeat (destruct H as [->|H]; [reflexivity|]). now subst.
Qed.

Lemma trim_start_digit (s : jsstring) (c : Z) (r : jsstring) :
  s = c :: r -> is_digit c = true -> trim_start s = s.
Proof. intros -> H. simpl. now rewrite digit_no_whitespace. Qed.

Lemma trim_digits (s : jsstring) :
  s <> [] -> forallb is_digit s = true -> trim s = s.
Proof.
  intros Hn Hd. unfold trim.
  destruct s as [|c r]; [contradiction|].
  rewrite (trim_start_digit (c :: r) c r eq_refl)
    by (simpl in Hd; now apply andb_true_iff in Hd as [? _]).
  destruct (rev (c :: r)) as [|c' r'] eqn:E.
  - apply (f_equal (@length Z)) in E. rewrite length_rev in E. discriminate.
  - rewrite (trim_start_digit (c' :: r') c' r' eq_refl).
    + rewrite <- E. apply rev_involutive.
    + rewrite forallb_forall in Hd. apply Hd.
      apply in_rev. rewrite E. now left.
Qed.

Lemma radix_number_digits (s : jsstring) (acc : Z) :
  forallb is_digit s = true ->
  radix_number 10 s acc
  = Some (fold_left (fun a d => a * 10 + d) (map (fun c => c - 48) s) acc).
Proof.
  revert acc. induction s as [|c s IH]; intros acc Hd; [reflexivity|].
  simpl in Hd. apply andb_true_iff in Hd as [Hc Hs].
  cbn [radix_number map fold_left]. unfold digit_value. rewrite Hc.
  replace (c - 48 <? 10) with true
    by (symmetry; apply Z.ltb_lt; unfold is_digit in Hc; lia).
  now apply IH.
Qed.

(** [BigInt] of a string of decimal digits is the number the digits stand
    for in base ten, whatever the first digit is. *)
Lemma BigInt_decimal (s : jsstring) :
  s <> [] -> forallb is_digit s = true -> BigInt (VStr s) = Ok (decimal_value s).
Proof.
  intros Hn Hd. cbn [BigInt]. unfold StringToBigInt.
  rewrite trim_digits by assumption.
  assert (E : integer_literal 10 s = Some (decimal_value s)).
  { unfold integer_literal. destruct s as [|c r]; [contradiction|].
    now apply radix_number_digits. }
  destruct s as [|c r]; [contradiction|].
  simpl in Hd. apply andb_true_iff in Hd as [Hc Hr].
  apply digit_cases in Hc.
  assert (G : (match c :: r with
               | [] => Some 0
               | 43 :: r0 => integer_literal 10 r0
               | 45 :: r0 => option_map Z.opp (integer_literal 10 r0)
               | 48 :: x :: r0 =>
                   if (x =? 120) || (x =? 88) then integer_literal 16 r0
                   else if (x =? 111) || (x =? 79) then integer_literal 8 r0
                   else if (x =? 98) || (x =? 66) then integer_literal 2 r0
                   else integer_literal 10 (48 :: x :: r0)
               | t => integer_literal 10 t
               end) = integer_literal 10 (c :: r)).
  { destruct Hc as [->|Hc].
    - destruct r as [|x r]; [reflexivity|].
      simpl in Hr. apply andb_true_iff in Hr as [Hx _].
      apply digit_cases in Hx.
      repeat (destruct Hx as [->|Hx]; [reflexivity|]). now subst.
    - repeat (destruct Hc as [->|Hc]; [reflexivity|]). now subst. }
  rewrite G, E. reflexivity.
Qed.

(** X17: quantities given as strings of decimal digits are read as the
    numbers they stand for in base ten, a leading zero changing nothing:
    for seeds whose amount_u64 are such strings, the quantities the builder
    encodes are those numbers, in the order of the seeds. *)
Theorem seed_amounts_decimal (h : heap) (seeds : list value) (amounts : list jsstring) :
  Forall2 (fun s d => get h s "amount_u64" = Ok (VStr d)
                      /\ d <> [] /\ forallb is_digit d = true) seeds amounts ->
  seed_amounts h seeds = Ok (map decimal_value amounts)
  /\ Forall2 (fun s d => BigInt (VStr d) = Ok (decimal_value d)) seeds amounts.
Proof.
  intros H. split.
  - apply mapM_Ok. induction H as [|s d seeds amounts (Hg & Hn & Hd) _ IH];
      cbn [map]; constructor; [|exact IH].
    rewrite Hg. now apply BigInt_decimal.
  - eapply Forall2_impl; [exact H|]. intros s d (_ & Hn & Hd).
    now apply BigInt_decimal.
Qed.

Lemma seed_amounts_decimal_witness :
  get pantry (VRef 4) "amount_u64" = Ok (VStr (lit "0001000000"))
  /\ seed_amounts pantry [VRef 3; VRef 4] = Ok [2000000; 1000000].
Proof.
  split; [vm_compute; reflexivity|].
  refine (proj1 (seed_amounts_decimal pantry [VRef 3; VRef 4]
                   [lit "2000000"; lit "0001000000"] _)).
  repeat constructor; try discriminate; vm_compute; reflexivity.
Defined.

(** ** When the builder returns *)

Lemma seed_key_mint (h : heap) (s : value) (k : bytes) :
  seed_key h s = Ok k ->
  exists mint, get h s "mint" = Ok mint /\ truthy mint = true
               /\ new_PublicKey mint = Ok k.
Proof.
  unfold seed_key. destruct (get h s "mint") as [mint| |]; try discriminate.
  intros H. exists mint. split; [reflexivity|]. split; [|exact H].
  destruct mint as [| | | | |m|]; try discriminate.
  destruct m; [discriminate|reflexivity].
Qed.

Lemma seed_in_checked (h : heap) (s : value) (x : bytes * Z) :
  seed_in h s x -> every_seed h [s] = Ok true.
Proof.
  intros [Hk (a & Ha & Hb)].
  apply seed_key_mint in Hk as (mint & Hm & Ht & _).
  cbn [every_seed]. rewrite Hm, Ht, Ha.
  destruct a; try reflexivity. discriminate.
Qed.

Lemma seed_accounts_keys (h : heap) (vs : list value) (ks : list bytes) :
  mapM (seed_key h) vs = Ok ks ->
  seed_accounts h vs = Ok (map (fun m => meta (Key m) false false) ks).
Proof.
  intros H. apply mapM_Ok in H.
  induction H as [|s k vs ks Hk _ IH]; [reflexivity|].
  apply seed_key_mint in Hk as (mint & Hm & Ht & Hn).
  cbn [seed_accounts map]. now rewrite Hm, Ht, Hn, IH.
Qed.

Lemma encode_amounts_in_range (qtys : list Z) :
  Forall (fun q => 0 <= q <= 2 ^ 64 - 1) qtys ->
  mapM (fun a => encodeU64 (VBigInt a)) qtys = Ok (map (le_bytes 8) qtys).
Proof.
  intros H. apply mapM_Ok. induction H as [|q qtys Hq _ IH]; cbn [map];
    constructor; [|exact IH].
  cbn [encodeU64 BigInt]. now apply writeBigUInt64LE_in_range.
Qed.

Lemma encodeString_in_range (s : jsstring) :
  Z.of_nat (length (utf8_encode s)) <= 2 ^ 32 - 1 ->
  encodeString (VStr s) = Ok (spec_string s).
Proof.
  intros H. unfold encodeString. cbn [Buffer_from].
  now rewrite encodeU32_in_range by lia.
Qed.

(** The data hashed for a recipe is the same once its seeds are sorted in
    place. *)
Lemma derive_concatenated_in_place (h : heap) (cd : value) (sl : loc)
      (elems sorted : list value) (m : bytes) :
  get h cd "seeds" = Ok (VRef sl) -> h !! sl = Some (Arr elems) ->
  Array_sort h elems = Ok sorted ->
  derive_concatenated h cd = Ok m ->
  derive_concatenated (<[sl := Arr sorted]> h) cd = Ok m.
Proof.
  intros Hg Hsl Ha Hm.
  pose proof (agree_insert_Arr h sl elems sorted Hsl) as Hag.
  pose proof (Array_sort_Ok h elems sorted Ha) as [_ Hasc].
  unfold derive_concatenated in *.
  rewrite !Hag by discriminate. rewrite Hg in *.
  unfold as_array in *. rewrite lookup_insert_eq. rewrite Hsl in Hm.
  destruct (get h cd "salt") as [[| | | | |salt|]| |]; try discriminate.
  rewrite Ha in Hm.
  destruct (mapM (seed_chunk h) sorted) as [cs| |] eqn:Ec; try discriminate.
  apply seed_chunks_Ok in Ec as Hc. destruct Hc as (seeds & Hs & _ & _).
  apply seeds_keys in Hs.
  rewrite (Array_sort_agree h _ sorted Hag).
  rewrite (Array_sort_sorted h sorted _ Hs (Hasc _ Hs)).
  rewrite (mapM_ext (seed_chunk (<[sl := Arr sorted]> h)) (seed_chunk h))
    by (intros; now apply seed_chunk_agree).
  now rewrite Ec.
Qed.

(** X18: [createRecipe] returns an instruction, and throws nothing,
    whenever [derivePDAFromCookedData] returns for the recipe given, its
    name, symbol and metadataCid are strings that are not empty, the
    metadata address is found, and the number of seeds and the byte lengths
    of the name, the symbol and the URI are below 2^32. *)
Theorem createRecipe_succeeds (isOnCurve : bytes -> bool) (h : heap)
        (feePayerPubkey : value) (l sl : loc) (props : gmap string value)
        (elems : list value) (r : CookPDA) (name symbol cid : jsstring)
        (metadataPda : bytes * Z) :
  h !! l = Some (Obj props) ->
  props !! "seeds" = Some (VRef sl) ->
  h !! sl = Some (Arr elems) ->
  derivePDAFromCookedData isOnCurve h (VRef l) = Ok r ->
  findProgramAddressSync isOnCurve
    [utf8_encode (lit "metadata"); METADATA_PROGRAM_ID; pda r]
    METADATA_PROGRAM_ID = Ok metadataPda ->
  props !! "name" = Some (VStr name) -> name <> [] ->
  props !! "symbol" = Some (VStr symbol) -> symbol <> [] ->
  props !! "metadataCid" = Some (VStr cid) -> cid <> [] ->
  Z.of_nat (length elems) <= 2 ^ 32 - 1 ->
  Z.of_nat (length (utf8_encode name)) <= 2 ^ 32 - 1 ->
  Z.of_nat (length (utf8_encode symbol)) <= 2 ^ 32 - 1 ->
  Z.of_nat (length (utf8_encode (IPFS_GATEWAY ++ cid))) <= 2 ^ 32 - 1 ->
  exists ix h',
    createRecipe isOnCurve h feePayerPubkey (VRef l) = (Ok ix, h')
    /\ get h' (VRef l) "pda" = Ok (VStr (toBase58 (pda r))).
Proof.
  intros Hl Hseeds Hsl Hd Hmeta Hname Hn0 Hsym Hs0 Hcid Hc0 Bn Bname Bsym Buri.
  assert (Hne : l <> sl) by (intros ->; congruence).
  pose proof Hd as Hd0. unfold derivePDAFromCookedData in Hd0.
  destruct (derive_concatenated h (VRef l)) as [m| |] eqn:Hm; try discriminate.
  clear Hd0. pose proof Hm as Hm0.
  apply derive_concatenated_Ok in Hm0
    as (sl0 & elems0 & sorted & salt & seeds & H1 & H2 & H3 & H4 & H5 & H6 & _).
  rewrite (get_of_props h l props), Hseeds in H1 by exact Hl. injection H1 as <-.
  rewrite Hsl in H2. injection H2 as <-.
  rewrite (get_of_props h l props) in H3 by exact Hl.
  destruct (props !! "salt") as [saltV|] eqn:Hsalt; [|discriminate].
  injection H3 as ->.
  pose proof (Array_sort_Ok h elems sorted H4) as [Hperm Hasc].
  assert (Hev : every_seed h elems = Ok true).
  { apply (every_seed_perm h sorted); [now symmetry|].
    apply every_seed_each. clear - H5.
    induction H5; constructor; eauto using seed_in_checked. }
  (* the checks *)
  assert (Ev : validate_checks h (VRef l) = Ok (sl, elems)).
  { unfold validate_checks. change (not_an_object (VRef l)) with false. cbv iota.
    rewrite (check_required_all h l props).
    - cbn [has]. rewrite Hl, Hsalt. rewrite bool_decide_eq_true_2 by eauto.
      unfold checked_seeds.
      rewrite (get_of_props h l props), Hseeds by exact Hl.
      change (default VUndef (Some (VRef sl))) with (VRef sl).
      unfold as_array. now rewrite Hsl, Hev.
    - exact Hl.
    - unfold present. repeat constructor.
      + now rewrite Hseeds.
      + rewrite Hcid. destruct cid; [contradiction|reflexivity].
      + rewrite Hname. destruct name; [contradiction|reflexivity].
      + rewrite Hsym. destruct symbol; [contradiction|reflexivity]. }
  set (h1 := <[sl := Arr sorted]> h).
  assert (Hd1 : derivePDAFromCookedData isOnCurve h1 (VRef l) = Ok r).
  { rewrite <- Hd. unfold derivePDAFromCookedData, h1.
    rewrite (derive_concatenated_in_place h (VRef l) sl elems sorted m), Hm;
      auto.
    now rewrite (get_of_props h l props), Hseeds by exact Hl. }
  assert (Hl1 : h1 !! l = Some (Obj props))
    by (unfold h1; now rewrite lookup_insert_ne by congruence).
  set (h' := <[l := Obj (<["pda" := VStr (toBase58 (pda r))]> props)]> h1).
  assert (Hv : validateCookedData isOnCurve h (VRef l) = (Ok (VRef l), h')).
  { unfold validateCookedData. rewrite Ev, H4. fold h1. rewrite Hd1.
    unfold set. now rewrite Hl1. }
  assert (Hag : agree h h') by (eapply validated_agree; eauto).
  assert (Hsl' : h' !! sl = Some (Arr sorted)).
  { unfold h', h1. rewrite lookup_insert_ne by exact Hne. apply lookup_insert_eq. }
  assert (Hpda : get h' (VRef l) "pda" = Ok (VStr (toBase58 (pda r)))).
  { unfold h'. cbn [get]. rewrite lookup_insert_eq. now rewrite lookup_insert_eq. }
  (* the instruction *)
  assert (Hkeys : mapM (seed_key h') sorted = Ok (map fst seeds)).
  { rewrite (mapM_ext (seed_key h') (seed_key h))
      by (intros; now apply seed_key_agree).
    now apply seeds_keys. }
  assert (Hamounts : seed_amounts h' sorted = Ok (map snd seeds)).
  { rewrite (seed_amounts_agree h h') by exact Hag. now apply seeds_amounts. }
  assert (Hlen : length (map snd seeds) = length elems).
  { rewrite length_map, <- (Forall2_length _ _ _ H5). now rewrite Hperm. }
  assert (Hbody : amounts_and_salt h' sorted (VStr salt)
                  = Ok (le_bytes 4 (Z.of_nat (length elems))
                          ++ concat (map (le_bytes 8) (map snd seeds))
                          ++ salt_field (utf8_encode salt))).
  { unfold amounts_and_salt. rewrite Hamounts, Hlen.
    rewrite encodeU32_in_range by lia.
    rewrite encode_amounts_in_range; [reflexivity|].
    rewrite Forall_map. eapply Forall_impl; [exact H6|]. now intros s [_ Hs]. }
  eexists _, h'. split; [|exact Hpda].
  unfold createRecipe. rewrite Hv. f_equal.
  unfold createRecipe_build.
  rewrite Hpda. rewrite !Hag by discriminate.
  rewrite !(get_of_props h l props) by exact Hl.
  rewrite Hseeds, Hsalt, Hcid, Hname, Hsym.
  cbn [default from_option id ToString].
  rewrite (derive_address isOnCurve h (VRef l) r Hd), Hmeta.
  cbn [iterate]. rewrite Hsl'.
  rewrite (seed_accounts_keys h' sorted _ Hkeys), Hbody.
  rewrite !encodeString_in_range by assumption.
  reflexivity.
Qed.

Lemma createRecipe_succeeds_witness :
  exists ix h',
    createRecipe Ed25519.isOnCurve recipe_A payer (VRef 1) = (Ok ix, h')
    /\ get h' (VRef 1) "pda" = Ok (VStr PDA_A).
Proof.
  assert (D : { r | derivePDAFromCookedData Ed25519.isOnCurve recipe_A (VRef 1) = Ok r
                    /\ toBase58 (pda r) = PDA_A }).
  { eexists. split; vm_compute; reflexivity. }
  destruct D as [r [D Hp]].
  assert (M : { p | findProgramAddressSync Ed25519.isOnCurve
                      [utf8_encode (lit "metadata"); METADATA_PROGRAM_ID;
                       default [] (Base58.decode PDA_A)]
                      METADATA_PROGRAM_ID = Ok p })
    by (eexists; vm_compute; reflexivity).
  destruct M as [p M].
  assert (Hk : default [] (Base58.decode PDA_A) = pda r).
  { pose proof (derive_address _ _ _ _ D) as Hr. rewrite Hp in Hr.
    unfold new_PublicKey, PublicKey_of_string in Hr.
    destruct (Base58.decode PDA_A) as [b|]; [|discriminate].
    destruct (Nat.eqb (length b) 32); [|discriminate]. now injection Hr. }
  rewrite Hk in M. rewrite <- Hp.
  refine (createRecipe_succeeds Ed25519.isOnCurve recipe_A payer 1%positive 2%positive
            _ [VRef 3] r (lit "Test Recipe") (lit "TST") (lit "some-metadata-cid") p
            _ _ _ D M _ _ _ _ _ _ _ _ _ _).
  - vm_compute. reflexivity.
  - vm_compute. reflexivity.
  - vm_compute. reflexivity.
  - vm_compute. reflexivity.
  - discriminate.
  - vm_compute. reflexivity.
  - discriminate.
  - vm_compute. reflexivity.
  - discriminate.
  - vm_compute. discriminate.
  - vm_compute. discriminate.
  - vm_compute. discriminate.
  - vm_compute. discriminate.
Defined.

(** X19: [useRecipe] returns an instruction, neither null nor an error,
    whenever the option is 2 or 3, the object has an address that is a
    key, a seeds array whose seeds each have a mint that is a key and a
    quantity of 64 bits, a string as its seed salt and a requested quantity
    that converts to 64 bits, and the token accounts are an array of keys,
    two for each seed and two more; the instruction then has the seven
    fixed accounts, the mints, the token accounts, and the payload made of
    the option, the quantities, the salt field and the converted
    quantity. *)
Theorem useRecipe_succeeds (h : heap) (feePayerPubkey opt : value) (op : Z)
        (l sl tl : loc) (props : gmap string value) (elems toks : list value)
        (seeds : list (bytes * Z)) (tokenKeys : list bytes) (pdaS salt : jsstring)
        (pdaKey : bytes) (qtyV : value) (baseQty : Z) :
  (op = 2 \/ op = 3) -> is_number opt op ->
  h !! l = Some (Obj props) ->
  props !! "pda" = Some (VStr pdaS) -> PublicKey_of_string pdaS = Ok pdaKey ->
  props !! "seeds" = Some (VRef sl) -> h !! sl = Some (Arr elems) ->
  Forall2 (seed_in h) elems seeds ->
  Forall (fun s => 0 <= snd s <= 2 ^ 64 - 1) seeds ->
  Z.of_nat (length elems) <= 2 ^ 32 - 1 ->
  props !! "seedSalt" = Some (VStr salt) ->
  default VUndef (props !! "qty_requested") = qtyV ->
  toBaseUnits qtyV 6 = Ok baseQty -> 0 <= baseQty <= 2 ^ 64 - 1 ->
  h !! tl = Some (Arr toks) ->
  length toks = (2 * length elems + 2)%nat ->
  mapM new_PublicKey toks = Ok tokenKeys ->
  useRecipe h feePayerPubkey (VRef l) (VRef tl) opt
  = Ok (Some {| keys := use_accounts feePayerPubkey pdaKey
                        ++ map (fun m => meta (Key m) false false) (map fst seeds)
                        ++ map (fun k => meta (Key k) false true) tokenKeys;
                programId := PROGRAM_ID;
                data := spec_use_payload op (map snd seeds) salt baseQty |}).
Proof.
  intros Hop Hn Hl Hpda Hkey Hseeds Hsl Hin Hr Bn Hsalt Hq Hb Br Htl Hlen Htok.
  assert (Eo : opcode opt = Some op) by (apply opcode_Some; auto).
  assert (Hev : every_seed h elems = Ok true).
  { apply every_seed_each. clear - Hin.
    induction Hin; constructor; eauto using seed_in_checked. }
  assert (Hpt : truthy (VStr pdaS) = true).
  { destruct pdaS; [discriminate|reflexivity]. }
  assert (Ev : validateCookedDataForCooking h (VRef l) = Ok (VRef l)).
  { unfold validateCookedDataForCooking.
    change (not_an_object (VRef l)) with false. cbv iota.
    rewrite (check_required_all h l props).
    - cbn [has]. rewrite Hl, Hsalt. rewrite bool_decide_eq_true_2 by eauto.
      unfold checked_seeds.
      rewrite (get_of_props h l props), Hseeds by exact Hl.
      change (default VUndef (Some (VRef sl))) with (VRef sl).
      unfold as_array. now rewrite Hsl, Hev.
    - exact Hl.
    - unfold present. repeat constructor.
      + now rewrite Hpda.
      + now rewrite Hseeds. }
  assert (Hlm : length (map snd seeds) = length elems).
  { rewrite length_map. symmetry. eapply Forall2_length; eauto. }
  assert (Hbody : amounts_and_salt h elems (VStr salt)
                  = Ok (le_bytes 4 (Z.of_nat (length (map snd seeds)))
                          ++ concat (map (le_bytes 8) (map snd seeds))
                          ++ spec_salt salt)).
  { unfold amounts_and_salt. rewrite (seeds_amounts h elems seeds Hin).
    rewrite encodeU32_in_range by (rewrite Hlm; lia).
    rewrite encode_amounts_in_range by now rewrite Forall_map.
    cbn [Buffer_from]. now rewrite salt_field_spec. }
  unfold useRecipe. rewrite Eo, Ev.
  rewrite !(get_of_props h l props) by exact Hl.
  rewrite Hpda, Hseeds, Hsalt, Hq.
  cbn [default from_option id length_of iterate]. rewrite Htl, Hsl.
  cbn [fmap option_fmap option_map same_number].
  replace (Z.of_nat (length toks) =? 2 * Z.of_nat (length elems) + 2) with true
    by (symmetry; apply Z.eqb_eq; lia).
  cbn [new_PublicKey]. rewrite Hkey.
  rewrite (seed_accounts_keys h elems _ (seeds_keys h elems seeds Hin)), Hbody, Hb.
  cbn [encodeU64 BigInt]. rewrite writeBigUInt64LE_in_range by exact Br.
  rewrite Htok. unfold use_accounts, spec_use_payload.
  now rewrite <- !app_assoc.
Qed.

Lemma useRecipe_succeeds_witness :
  exists pdaKey m2 m3 tokenKeys,
    mapM new_PublicKey token_accounts = Ok tokenKeys
    /\ useRecipe kitchen payer (VRef 7) (VRef 8) cook
       = Ok (Some {| keys := use_accounts payer pdaKey
                             ++ [meta (Key m2) false false; meta (Key m3) false false]
                             ++ map (fun k => meta (Key k) false true) tokenKeys;
                     programId := PROGRAM_ID;
                     data := spec_use_payload 2 [2000000; 1000000]
                               (lit "random-salt") 2500000 |}).
Proof.
  assert (K : { k | PublicKey_of_string PDA_A = Ok k })
    by (eexists; vm_compute; reflexivity).
  destruct K as [pdaKey K].
  assert (K2 : { k | seed_key kitchen (VRef 3) = Ok k })
    by (eexists; vm_compute; reflexivity).
  destruct K2 as [m2 K2].
  assert (K3 : { k | seed_key kitchen (VRef 4) = Ok k })
    by (eexists; vm_compute; reflexivity).
  destruct K3 as [m3 K3].
  assert (T : { ks | mapM new_PublicKey token_accounts = Ok ks })
    by (eexists; vm_compute; reflexivity).
  destruct T as [tokenKeys T].
  exists pdaKey, m2, m3, tokenKeys. split; [exact T|].
  refine (useRecipe_succeeds kitchen payer cook 2 7%positive 2%positive 8%positive
            _ [VRef 3; VRef 4] token_accounts [(m2, 2000000); (m3, 1000000)]
            tokenKeys PDA_A (lit "random-salt") pdaKey (VStr (lit "2.5")) 2500000
            _ _ _ _ K _ _ _ _ _ _ _ _ _ _ _ T).
  - now left.
  - eexists. split; [reflexivity|vm_compute; reflexivity].
  - vm_compute. reflexivity.
  - vm_compute. reflexivity.
  - vm_compute. reflexivity.
  - vm_compute. reflexivity.
  - constructor; [|constructor; [|constructor]].
    + split; [exact K2|]. eexists. split; vm_compute; reflexivity.
    + split; [exact K3|]. eexists. split; vm_compute; reflexivity.
  - repeat constructor; simpl; lia.
  - vm_compute. discriminate.
  - vm_compute. reflexivity.
  - vm_compute. reflexivity.
  - vm_compute. reflexivity.
  - lia.
  - vm_compute. reflexivity.
  - reflexivity.
Defined.

(** ** What [sortSeeds] needs *)

(** X20: [sortSeeds] asks for nothing but the seeds.  It throws, writing
    nothing, when its argument is no object and when the seeds of the
    object are no array (a missing field included, with the message for no
    array); it returns a sorted copy for every object whose seeds are an
    array of seeds that each have a mint that is a key and a defined
    quantity, whatever other fields the object has or lacks. *)
Theorem sortSeeds_outcome (h : heap) (cookedData : value) :
  (not_an_object cookedData = true ->
   sortSeeds h cookedData
   = (Throw (Error "Invalid cookedData: Input must be an object."), h))
  /\ (forall l props,
         cookedData = VRef l -> h !! l = Some (Obj props) ->
         as_array h (default VUndef (props !! "seeds")) = Ok None ->
         sortSeeds h cookedData
         = (Throw (Error "Invalid cookedData: 'seeds' must be an array."), h))
  /\ (forall l props sl elems ks,
         cookedData = VRef l -> h !! l = Some (Obj props) ->
         props !! "seeds" = Some (VRef sl) -> h !! sl = Some (Arr elems) ->
         every_seed h elems = Ok true ->
         mapM (seed_key h) elems = Ok ks ->
         exists v h',
           sortSeeds h cookedData = (Ok v, h') /\ sorted_copy h cookedData h' v).
Proof.
  split; [|split].
  - intros H. unfold sortSeeds. now rewrite H.
  - intros l props -> Hl Ha. unfold sortSeeds, checked_seeds.
    change (not_an_object (VRef l)) with false. cbv iota.
    rewrite (get_of_props h l props) by exact Hl. now rewrite Ha.
  - intros l props sl elems ks -> Hl Hs Hsl He Hk.
    destruct (sortSeeds h (VRef l)) as [r h'] eqn:E.
    assert (Hr : exists v, r = Ok v).
    { unfold sortSeeds, checked_seeds in E.
      change (not_an_object (VRef l)) with false in E. cbv iota in E.
      rewrite (get_of_props h l props), Hs in E by exact Hl.
      change (default VUndef (Some (VRef sl))) with (VRef sl) in E.
      unfold as_array in E. rewrite Hsl, He, Hl in E.
      destruct (alloc_fresh h (Obj props)) as [Hf1 Hh1].
      destruct (alloc h (Obj props)) as [l' h1]. simpl in Hf1, Hh1. subst h1.
      destruct (alloc_fresh (<[l' := Obj props]> h) (Arr elems)) as [Hf2 Hh2].
      destruct (alloc (<[l' := Obj props]> h) (Arr elems)) as [sl' h2].
      simpl in Hf2, Hh2. subst h2.
      apply lookup_insert_None in Hf2 as [Hf2 Hne].
      rewrite (Array_sort_subseteq h) in E; [|
        etransitivity; [apply (insert_subseteq h l' (Obj props) Hf1)|];
        apply insert_subseteq; now rewrite lookup_insert_ne by congruence
        | exact He].
      rewrite (Array_sort_keyed h elems ks Hk) in E.
      injection E as <- _. eauto. }
    destruct Hr as [v ->]. exists v, h'. split; [reflexivity|].
    now apply sortSeeds_Ok.
Qed.

Lemma sortSeeds_outcome_witness :
  sortSeeds pantry (VStr (lit "recipe"))
  = (Throw (Error "Invalid cookedData: Input must be an object."), pantry)
  /\ sortSeeds pantry (VRef 16)
     = (Throw (Error "Invalid cookedData: 'seeds' must be an array."), pantry)
  /\ exists v h',
      sortSeeds pantry (VRef 5) = (Ok v, h') /\ sorted_copy pantry (VRef 5) h' v.
Proof.
  split; [|split].
  - apply (proj1 (sortSeeds_outcome pantry (VStr (lit "recipe")))). reflexivity.
  - refine (proj1 (proj2 (sortSeeds_outcome pantry (VRef 16))) 16%positive _ eq_refl _ _).
    + vm_compute. reflexivity.
    + vm_compute. reflexivity.
  - refine (proj2 (proj2 (sortSeeds_outcome pantry (VRef 5))) 5%positive _ 2%positive
                  [VRef 3; VRef 4] _ eq_refl _ _ _ _ _).
    + vm_compute. reflexivity.
    + vm_compute. reflexivity.
    + vm_compute. reflexivity.
    + vm_compute. reflexivity.
    + vm_compute. reflexivity.
Defined.
